(** * Game of Life engine: grid and pattern codec

    A shallow embedding of [engine/grid.py], [engine/storage.py] and
    [engine/patterns.py], and the properties of the engine's specification
    proved (or refuted) on it; then the parts of [ui/editor.py] and of
    [states/] that drive the engine (the rotation and the cursor cell of
    the editor, the pattern menus, the demonstrations of the information
    screen), with further properties of the engine and of these callers.

    Conventions of the embedding.
    - Python [int] is [Z]; a [uint8] array element is a [Z] in [0, 256) with
      the wrap-around written out where the source computes on it.
    - A two-dimensional numpy array is a list of rows ([matrix]).  Its shape
      is read off the list: the row count is its length, the column count is
      the length of the first row.  An array without rows is [[]] whatever
      its column count.
    - Python exceptions are the [Raise] case of [result]; the code under
      study has no handler, so a raise propagates to the caller.
    - Python [str] is a list of 8-bit characters ([list ascii], code points
      0..255); [wrap_mode], which is only ever compared, is a [string].
    - Loops are folds over the list they iterate ([for_each] where the body
      may raise); the two [while] loops of [to_rle] carry the bound that the
      source guarantees as fuel.
    - Integers and arrays are unbounded: running out of memory and the
      interpreter's limit on the length of a numeral are not modelled. *)

From Stdlib Require Import ZArith Ascii String List Lia.
From stdpp Require Import base option list strings.

Local Open Scope Z_scope.

(** ** Exceptions *)

Inductive pyerr : Type :=
  | ZeroDivisionError
  | IndexError
  | ValueError.

Inductive result (A : Type) : Type :=
  | Ok (a : A)
  | Raise (e : pyerr).
Arguments Ok {A} a.
Arguments Raise {A} e.

#[global] Instance result_ret : MRet result := @Ok.
#[global] Instance result_bind : MBind result := λ A B f m,
  match m with Ok a => f a | Raise e => Raise e end.
#[global] Instance result_fmap : FMap result := λ A B f m,
  match m with Ok a => Ok (f a) | Raise e => Raise e end.

#[global] Instance pyerr_eq_dec : EqDecision pyerr.
Proof. solve_decision. Defined.
#[global] Instance result_eq_dec {A} `{EqDecision A} : EqDecision (result A).
Proof. solve_decision. Defined.

(** ** numpy primitives *)

Abbreviation matrix := (list (list Z)).

Definition nrows (m : matrix) : Z := Z.of_nat (length m).
Definition ncols (m : matrix) : Z := Z.of_nat (length (hd [] m)).

(** [np.zeros((h, w), dtype=np.uint8)]: negative dimensions are refused. *)
Definition np_zeros (h w : Z) : result matrix :=
  if (h <? 0) || (w <? 0) then Raise ValueError
  else Ok (replicate (Z.to_nat h) (replicate (Z.to_nat w) 0)).

(** Integer indexing along an axis of length [n]: an index in [-n, 0) counts
    from the end, anything outside [-n, n) is an [IndexError]. *)
Definition np_index (n i : Z) : result nat :=
  if (- n <=? i) && (i <? n)
  then Ok (Z.to_nat (if i <? 0 then i + n else i))
  else Raise IndexError.

(** [m[y, x]] *)
Definition np_get (m : matrix) (y x : Z) : result Z :=
  i ← np_index (nrows m) y;
  j ← np_index (ncols m) x;
  match m !! i ≫= (.!! j) with
  | Some v => Ok v
  | None => Raise IndexError
  end.

(** [m[y, x] = v] *)
Definition np_set (m : matrix) (y x : Z) (v : Z) : result matrix :=
  i ← np_index (nrows m) y;
  j ← np_index (ncols m) x;
  Ok (alter (<[j := v]>) i m).

(** [a % b] on Python integers: the sign follows the divisor, and a zero
    divisor raises. *)
Definition py_mod (a b : Z) : result Z :=
  if b =? 0 then Raise ZeroDivisionError else Ok (a mod b).

(** Arithmetic on [uint8] wraps around. *)
Definition u8 (v : Z) : Z := v mod 256.

(** ** Grid (engine/grid.py) *)

Record Grid : Type := mkGrid {
  width : Z;
  height : Z;
  wrap_mode : string;
  cells : matrix;
  generation : Z
}.

Definition with_cells (g : Grid) (c : matrix) : Grid :=
  {| width := width g; height := height g; wrap_mode := wrap_mode g;
     cells := c; generation := generation g |}.

Definition with_wrap_mode (g : Grid) (s : string) : Grid :=
  {| width := width g; height := height g; wrap_mode := s;
     cells := cells g; generation := generation g |}.

Definition is_toroidal (g : Grid) : bool :=
  String.eqb (wrap_mode g) "toroidal".

(** [Grid.__init__] *)
Definition Grid_init (w h : Z) (mode : string) : result Grid :=
  c ← np_zeros h w;
  Ok {| width := w; height := h; wrap_mode := mode;
        cells := c; generation := 0 |}.

Definition in_bounds (g : Grid) (x y : Z) : bool :=
  (0 <=? x) && (x <? width g) && (0 <=? y) && (y <? height g).

(** The coordinate rule shared by [get_cell], [set_cell] and [toggle_cell]:
    [Some (x', y')] is the cell to index, [None] the early return of the
    bounded branch. *)
Definition normalise (g : Grid) (x y : Z) : result (option (Z * Z)) :=
  if is_toroidal g then
    x' ← py_mod x (width g);
    y' ← py_mod y (height g);
    Ok (Some (x', y'))
  else if negb (in_bounds g x y) then Ok None
  else Ok (Some (x, y)).

(** [Grid.get_cell] *)
Definition get_cell (g : Grid) (x y : Z) : result bool :=
  p ← normalise g x y;
  match p with
  | None => Ok false
  | Some (x', y') => v ← np_get (cells g) y' x'; Ok (negb (v =? 0))
  end.

(** [Grid.set_cell] *)
Definition set_cell (g : Grid) (x y : Z) (alive : bool) : result Grid :=
  p ← normalise g x y;
  match p with
  | None => Ok g
  | Some (x', y') =>
      c ← np_set (cells g) y' x' (if alive then 1 else 0);
      Ok (with_cells g c)
  end.

(** [Grid.toggle_cell] *)
Definition toggle_cell (g : Grid) (x y : Z) : result Grid :=
  p ← normalise g x y;
  match p with
  | None => Ok g
  | Some (x', y') =>
      v ← np_get (cells g) y' x';
      c ← np_set (cells g) y' x' (u8 (1 - v));
      Ok (with_cells g c)
  end.

(** ** Well-formed grids *)

(** The array has the shape the attributes announce, and both dimensions
    are positive. *)
Definition grid_shape (g : Grid) : Prop :=
  0 < width g ∧ 0 < height g ∧
  length (cells g) = Z.to_nat (height g) ∧
  Forall (λ r, length r = Z.to_nat (width g)) (cells g).

(** Reading and writing a matrix at coordinates known to be in range. *)
Definition mat_read (m : matrix) (y x : Z) : Z :=
  default 0 (m !! Z.to_nat y ≫= (.!! Z.to_nat x)).

Definition mat_write (m : matrix) (y x : Z) (v : Z) : matrix :=
  alter (<[Z.to_nat x := v]>) (Z.to_nat y) m.

(** Python slicing [l[start:stop]]: a negative bound counts from the end,
    and both bounds are clamped to the list. *)
Definition py_slice_bound (n i : Z) : Z :=
  if i <? 0 then Z.max 0 (i + n) else Z.min i n.

Definition py_slice {A} (l : list A) (start stop : Z) : list A :=
  let n := Z.of_nat (length l) in
  let a := py_slice_bound n start in
  let b := py_slice_bound n stop in
  take (Z.to_nat (b - a)) (drop (Z.to_nat a) l).

(** [m[y1:y2, x1:x2]] *)
Definition np_slice2 (m : matrix) (y1 y2 x1 x2 : Z) : matrix :=
  (λ r, py_slice r x1 x2) <$> py_slice m y1 y2.

(** One cell of padding around a list, [mode='wrap']: the last element goes
    in front and the first one behind. *)
Definition wrap1 {A} (l : list A) : list A :=
  match l, last l with
  | a :: _, Some z => z :: l ++ [a]
  | _, _ => l
  end.

(** [np.pad(m, 1, mode='wrap')]; numpy refuses to extend an empty axis in
    this mode. *)
Definition np_pad_wrap (m : matrix) : result matrix :=
  if (nrows m =? 0) || (ncols m =? 0) then Raise ValueError
  else Ok (wrap1 (wrap1 <$> m)).

(** [np.pad(m, 1, mode='constant', constant_values=0)] *)
Definition np_pad_zero (m : matrix) : matrix :=
  let blank := replicate (Z.to_nat (ncols m + 2)) 0 in
  blank :: ((λ r, 0 :: r ++ [0]) <$> m) ++ [blank].

(** [acc += part] on [uint8] arrays of one shape. *)
Definition np_iadd (acc part : matrix) : matrix :=
  zip_with (zip_with (λ a b, u8 (a + b))) acc part.

(** [Grid.count_neighbors].  The accumulator and every slice have the
    shape of [cells]. *)
Definition count_neighbors (g : Grid) : result matrix :=
  padded ← (if is_toroidal g then np_pad_wrap (cells g)
            else Ok (np_pad_zero (cells g)));
  let zeros := (λ r : list Z, (λ _, 0) <$> r) <$> cells g in
  Ok (foldl (λ acc dy,
        foldl (λ acc dx,
          if (dx =? 0) && (dy =? 0) then acc
          else np_iadd acc
                 (np_slice2 padded (1 + dy) (1 + dy + height g)
                                   (1 + dx) (1 + dx + width g)))
          acc [-1; 0; 1])
        zeros [-1; 0; 1]).

(** The B3/S23 rule on one cell, as the two masks of [step] combine. *)
Definition rule (c n : Z) : Z :=
  let birth := (c =? 0) && (n =? 3) in
  let survive := (c =? 1) && ((n =? 2) || (n =? 3)) in
  if birth || survive then 1 else 0.

(** [Grid.step] *)
Definition step (g : Grid) : result Grid :=
  neighbors ← count_neighbors g;
  Ok {| width := width g; height := height g; wrap_mode := wrap_mode g;
        cells := zip_with (zip_with rule) (cells g) neighbors;
        generation := generation g + 1 |}.

(** [Grid.population] *)
Definition sumZ (l : list Z) : Z := foldr Z.add 0 l.
Definition np_sum (m : matrix) : Z := sumZ (sumZ <$> m).
Definition population (g : Grid) : Z := np_sum (cells g).

(** [np.rot90(m, k)]: [k] quarter turns counterclockwise. *)
Definition np_transpose (m : matrix) : matrix :=
  (λ j, (λ r : list Z, default 0 (r !! j)) <$> m) <$> seq 0 (length (hd [] m)).
Definition np_flip0 (m : matrix) : matrix := reverse m.
Definition np_flip1 (m : matrix) : matrix := reverse <$> m.

Definition np_rot90 (m : matrix) (k : Z) : matrix :=
  let k := k mod 4 in
  if k =? 0 then m
  else if k =? 2 then np_flip1 (np_flip0 m)
  else if k =? 1 then np_transpose (np_flip1 m)
  else np_flip1 (np_transpose m).

(** A [for] loop whose body may raise. *)
Fixpoint for_each {A S} (l : list A) (body : S → A → result S) (s : S)
    : result S :=
  match l with
  | [] => Ok s
  | a :: l' => s' ← body s a; for_each l' body s'
  end.

(** [range(n)] *)
Definition range (n : Z) : list Z := seqZ 0 n.

(** [Grid.load_pattern] *)
Definition load_pattern (g : Grid) (pattern_data : matrix) (x y : Z)
    (rotation : Z) : result Grid :=
  let rotations := (rotation / 90) mod 4 in
  let data := np_rot90 pattern_data (- rotations) in
  let ph := nrows data in
  let pw := ncols data in
  for_each (range ph) (λ g py,
    for_each (range pw) (λ g px,
      if negb (mat_read data py px =? 0)
      then set_cell g (x + px) (y + py) true
      else Ok g) g) g.

(** Broadcasting in an assignment: a source axis must have the length of
    the target axis, or length 1. *)
Definition broadcast1 {A} (l : list A) (n : Z) : result (list A) :=
  if Z.of_nat (length l) =? n then Ok l
  else match l with
       | [a] => Ok (replicate (Z.to_nat n) a)
       | _ => Raise ValueError
       end.

Definition np_broadcast (src : matrix) (src_cols : Z) (h w : Z)
    : result matrix :=
  if negb ((src_cols =? w) || (src_cols =? 1)) then Raise ValueError
  else
    rows ← broadcast1 src h;
    for_each rows (λ acc r, r' ← broadcast1 r w; Ok (acc ++ [r'])) [].

(** Overwrite [dst] from offset [off] on with [src]. *)
Definition blit {A} (dst : list A) (off : nat) (src : list A) : list A :=
  take off dst ++ src ++ drop (off + length src) dst.

(** [Grid.get_region] *)
Definition get_region (g : Grid) (x y w h : Z) : result matrix :=
  if is_toroidal g then
    result ← np_zeros h w;
    for_each (range h) (λ result row,
      for_each (range w) (λ result col,
        gx ← py_mod (x + col) (width g);
        gy ← py_mod (y + row) (height g);
        v ← np_get (cells g) gy gx;
        np_set result row col v) result) result
  else
    let x1 := Z.max 0 x in
    let y1 := Z.max 0 y in
    let x2 := Z.min (width g) (x + w) in
    let y2 := Z.min (height g) (y + h) in
    result ← np_zeros h w;
    let rx1 := x1 - x in
    let ry1 := y1 - y in
    let src := np_slice2 (cells g) y1 y2 x1 x2 in
    let src_cols :=
      let n := ncols (cells g) in
      Z.max 0 (py_slice_bound n x2 - py_slice_bound n x1) in
    let r0 := py_slice_bound h ry1 in
    let r1 := py_slice_bound h (ry1 + (y2 - y1)) in
    let c0 := py_slice_bound w rx1 in
    let c1 := py_slice_bound w (rx1 + (x2 - x1)) in
    src' ← np_broadcast src src_cols (Z.max 0 (r1 - r0)) (Z.max 0 (c1 - c0));
    Ok (blit result (Z.to_nat r0)
          (zip_with (λ dst s, blit dst (Z.to_nat c0) s)
             (take (length src') (drop (Z.to_nat r0) result)) src')).

(** ** The grid as the specification speaks of it *)

(** The value of the cell the coordinate rule designates: wrapped around in
    toroidal mode, dead outside the grid otherwise. *)
Definition cell_value (g : Grid) (x y : Z) : Z :=
  if is_toroidal g then mat_read (cells g) (y mod height g) (x mod width g)
  else if in_bounds g x y then mat_read (cells g) y x
  else 0.

(** The eight offsets of the Moore neighbourhood. *)
Definition moore : list (Z * Z) :=
  [(-1, -1); (0, -1); (1, -1); (-1, 0); (1, 0); (-1, 1); (0, 1); (1, 1)].

Definition moore_sum (g : Grid) (x y : Z) : Z :=
  sumZ ((λ d, cell_value g (x + d.1) (y + d.2)) <$> moore).

(** Every cell is 0 or 1. *)
Definition binary (m : matrix) : Prop :=
  Forall (Forall (λ v, v = 0 ∨ v = 1)) m.

Definition grid_ok (g : Grid) : Prop := grid_shape g ∧ binary (cells g).

(** [shape h w m]: [m] has [h] rows of [w] cells each. *)
Definition shape (h w : nat) (m : matrix) : Prop :=
  length m = h ∧ Forall (λ r, length r = w) m.

(** [reads h w m f]: [m] has shape [h] x [w] and holds [f y x] at row [y],
    column [x]. *)
Definition reads (h w : nat) (m : matrix) (f : Z → Z → Z) : Prop :=
  shape h w m ∧
  ∀ y x, 0 ≤ y < Z.of_nat h → 0 ≤ x < Z.of_nat w → mat_read m y x = f y x.

(** ** Pattern placement as the specification speaks of it *)

(** The pattern turned clockwise by [rotation] degrees, read cell by cell:
    the entry at row [py], column [px] of the turned pattern. *)
Definition turned (p : matrix) (rotation : Z) (py px : Z) : Z :=
  let h := nrows p in
  let w := ncols p in
  if rotation =? 0 then mat_read p py px
  else if rotation =? 90 then mat_read p (h - 1 - px) py
  else if rotation =? 180 then mat_read p (h - 1 - py) (w - 1 - px)
  else mat_read p px (w - 1 - py).

Definition turned_rows (p : matrix) (rotation : Z) : Z :=
  if (rotation =? 0) || (rotation =? 180) then nrows p else ncols p.

Definition turned_cols (p : matrix) (rotation : Z) : Z :=
  if (rotation =? 0) || (rotation =? 180) then ncols p else nrows p.

(** The live pattern cell at row [py], column [px] of [data], placed with
    its top-left corner at [(x, y)], lands on the grid cell [(cx, cy)]. *)
Definition lands (g : Grid) (data : Z → Z → Z) (x y : Z) (py px : Z)
    (cx cy : Z) : Prop :=
  data py px ≠ 0 ∧ normalise g (x + px) (y + py) = Ok (Some (cx, cy)).

(** Some live cell of the turned pattern lands on [(cx, cy)]. *)
Definition covered (g : Grid) (p : matrix) (x y rotation : Z)
    (cx cy : Z) : Prop :=
  ∃ py px, 0 ≤ py < turned_rows p rotation ∧ 0 ≤ px < turned_cols p rotation ∧
           lands g (turned p rotation) x y py px cx cy.

(** Two grids that differ at most in their cells. *)
Definition same_frame (g g' : Grid) : Prop :=
  width g' = width g ∧ height g' = height g ∧
  wrap_mode g' = wrap_mode g ∧ generation g' = generation g.

(** The loop invariant of [load_pattern]: [g'] is [g] with a 1 written
    wherever one of the pattern cells visited so far (the set [V] of
    row and column pairs) lands. *)
Definition stamped (g : Grid) (data : Z → Z → Z) (x y : Z)
    (V : Z → Z → Prop) (g' : Grid) : Prop :=
  same_frame g g' ∧ grid_shape g' ∧
  ∀ cx cy, 0 ≤ cx < width g → 0 ≤ cy < height g →
    ((∃ py px, V py px ∧ lands g data x y py px cx cy) →
       mat_read (cells g') cy cx = 1) ∧
    (¬ (∃ py px, V py px ∧ lands g data x y py px cx cy) →
       mat_read (cells g') cy cx = mat_read (cells g) cy cx) ∧
    (mat_read (cells g') cy cx = 1 ∨
     mat_read (cells g') cy cx = mat_read (cells g) cy cx).

(** ** Python strings *)

Abbreviation pystr := (list ascii).

(** A string literal as a Python string. *)
Definition lit (s : string) : pystr := list_ascii_of_string s.

(** The line feed. *)
Definition LF : ascii := "010"%char.

Definition code (c : ascii) : Z := Z.of_N (N_of_ascii c).

(** [str.isspace] on one character, which is also what [str.strip],
    [str.split] without argument and the regular expression class [\s]
    take for white space: TAB..CR, FS..US, the space, NEL and NBSP. *)
Definition is_space (c : ascii) : bool :=
  let n := code c in
  ((9 <=? n) && (n <=? 13)) || ((28 <=? n) && (n <=? 32))
  || (n =? 133) || (n =? 160).

(** The decimal digits [0-9], the regular expression class [\d] on 8-bit
    characters. *)
Definition is_decimal (c : ascii) : bool :=
  let n := code c in (48 <=? n) && (n <=? 57).

(** [str.isdigit] on one character: the decimal digits and the superscript
    digits 2, 3 and 1 of Latin-1. *)
Definition py_isdigit (c : ascii) : bool :=
  let n := code c in
  is_decimal c || (n =? 178) || (n =? 179) || (n =? 185).

Fixpoint drop_while {A} (f : A → bool) (l : list A) : list A :=
  match l with
  | a :: l' => if f a then drop_while f l' else l
  | [] => []
  end.

Fixpoint take_while {A} (f : A → bool) (l : list A) : list A :=
  match l with
  | a :: l' => if f a then a :: take_while f l' else []
  | [] => []
  end.

Definition py_lstrip (s : pystr) : pystr := drop_while is_space s.
Definition py_rstrip (s : pystr) : pystr :=
  reverse (drop_while is_space (reverse s)).
Definition py_strip (s : pystr) : pystr := py_rstrip (py_lstrip s).

(** [s.split(sep)] for a one-character separator. *)
Fixpoint py_split_on (sep : ascii) (s : pystr) : list pystr :=
  match s with
  | [] => [[]]
  | c :: s' =>
      if Ascii.eqb c sep then [] :: py_split_on sep s'
      else match py_split_on sep s' with
           | l :: ls => (c :: l) :: ls
           | [] => [[c]]
           end
  end.

(** [s.split()]: the maximal runs of characters that are not white space;
    [cur] is the run being read. *)
Fixpoint py_words (cur : pystr) (s : pystr) : list pystr :=
  match s with
  | [] => if cur is [] then [] else [cur]
  | c :: s' =>
      if is_space c
      then (if cur is [] then py_words [] s' else cur :: py_words [] s')
      else py_words (cur ++ [c]) s'
  end.
Definition py_split (s : pystr) : list pystr := py_words [] s.

(** [sep.join(parts)] *)
Fixpoint py_join (sep : pystr) (parts : list pystr) : pystr :=
  match parts with
  | [] => []
  | [p] => p
  | p :: ps => p ++ sep ++ py_join sep ps
  end.

Fixpoint startswith (s prefix : pystr) : bool :=
  match prefix, s with
  | [], _ => true
  | p :: prefix', c :: s' => Ascii.eqb c p && startswith s' prefix'
  | _ :: _, [] => false
  end.

Definition pystr_eqb (s t : pystr) : bool := bool_decide (s = t).

(** [str.lower] on the ASCII letters; no other 8-bit character lowers to
    an ASCII letter, and the result is only tested against ASCII
    prefixes. *)
Definition lower1 (c : ascii) : ascii :=
  let n := code c in
  if (65 <=? n) && (n <=? 90) then ascii_of_N (Z.to_N (n + 32)) else c.
Definition py_lower (s : pystr) : pystr := lower1 <$> s.

(** ** Decimal numerals *)

Definition digit_char (d : Z) : ascii := ascii_of_N (Z.to_N (48 + d)).

Fixpoint digits_of (fuel : nat) (n : Z) : pystr :=
  match fuel with
  | O => []
  | S fuel' =>
      if n <? 10 then [digit_char n]
      else digits_of fuel' (n / 10) ++ [digit_char (n mod 10)]
  end.

(** [str(n)], as the f-strings of [to_rle] format an integer. *)
Definition py_str (n : Z) : pystr :=
  if n <? 0 then lit "-" ++ digits_of (S (Z.to_nat (Z.log2 (- n)))) (- n)
  else digits_of (S (Z.to_nat (Z.log2 n))) n.

(** [int(s)] for a string made of characters accepted by [str.isdigit] or
    by [\d]: the value of a run of decimal digits, a [ValueError] on the
    empty string and on a superscript digit. *)
Definition py_int (s : pystr) : result Z :=
  if forallb is_decimal s && negb (pystr_eqb s [])
  then Ok (foldl (λ acc c, 10 * acc + (code c - 48)) 0 s)
  else Raise ValueError.

(** ** RLE encoding (engine/storage.py) *)

Definition len {A} (l : list A) : Z := Z.of_nat (length l).

(** [row[i]] for an index inside the row. *)
Definition row_at (row : list Z) (i : Z) : Z :=
  default 0 (row !! Z.to_nat i).

(** The inner loop of [to_rle]:
    [while x + run < width and row[x + run] == cell: run += 1]. *)
Fixpoint run_loop (fuel : nat) (row : list Z) (width x cell run : Z) : Z :=
  match fuel with
  | O => run
  | S fuel' =>
      if (x + run <? width) && (row_at row (x + run) =? cell)
      then run_loop fuel' row width x cell (run + 1)
      else run
  end.

(** The loop [while x < width] over one row; every round advances [x] by
    at least 1, so [width] rounds are enough. *)
Fixpoint encode_row_loop (fuel : nat) (row : list Z) (width x : Z)
    (row_parts : list pystr) : list pystr :=
  match fuel with
  | O => row_parts
  | S fuel' =>
      if x <? width then
        let cell := row_at row x in
        let char := if cell =? 0 then lit "b" else lit "o" in
        let run := run_loop (Z.to_nat width) row width x cell 1 in
        if (cell =? 0) && (width <=? x + run) then row_parts
        else
          let part := if 1 <? run then py_str run ++ char else char in
          encode_row_loop fuel' row width (x + run) (row_parts ++ [part])
      else row_parts
  end.

Definition encode_row (width : Z) (row : list Z) : pystr :=
  concat (encode_row_loop (Z.to_nat width) row width 0 []).

(** [while rle_parts and not rle_parts[-1]: rle_parts.pop()] *)
Definition is_empty {A} (l : list A) : bool := if l is [] then true else false.
Definition drop_trailing_empty (parts : list pystr) : list pystr :=
  reverse (drop_while is_empty (reverse parts)).

(** The encoded body, rows joined with '$' and closed with '!'. *)
Definition rle_body (pattern : matrix) : pystr :=
  let width := ncols pattern in
  let rle_parts := encode_row width <$> pattern in
  py_join (lit "$") (drop_trailing_empty rle_parts) ++ lit "!".

(** The body cut into lines: a line is flushed when it reaches 70
    characters. *)
Definition wrap_step (st : list pystr * pystr) (char : ascii)
    : list pystr * pystr :=
  let current_line := st.2 ++ [char] in
  if 70 <=? len current_line then (st.1 ++ [current_line], [])
  else (st.1, current_line).

Definition wrap_body (pattern_str : pystr) : list pystr :=
  let st := foldl wrap_step ([], []) pattern_str in
  if is_empty st.2 then st.1 else st.1 ++ [st.2].

(** The description cut into '#C' lines, word by word. *)
Definition describe_step (st : list pystr * pystr) (word : pystr)
    : list pystr * pystr :=
  if 70 <? len st.2 + len word + 1
  then (st.1 ++ [st.2], lit "#C " ++ word)
  else (st.1, st.2 ++ lit " " ++ word).

Definition wrap_description (description : pystr) : list pystr :=
  let words := py_split description in
  let st := foldl describe_step ([], lit "#C") words in
  if pystr_eqb st.2 (lit "#C") then st.1 else st.1 ++ [st.2].

Definition rle_header (pattern : matrix) : pystr :=
  lit "x = " ++ py_str (ncols pattern) ++ lit ", y = "
  ++ py_str (nrows pattern) ++ lit ", rule = B3/S23".

(** The list [lines] of [to_rle] when the function returns. *)
Definition to_rle_lines (pattern : matrix) (name author description : pystr)
    : list pystr :=
  (if is_empty name then [] else [lit "#N " ++ name])
  ++ (if is_empty author then [] else [lit "#O " ++ author])
  ++ (if is_empty description then [] else wrap_description description)
  ++ [rle_header pattern]
  ++ wrap_body (rle_body pattern).

(** [PatternStorage.to_rle] *)
Definition to_rle (pattern : matrix) (name author description : pystr)
    : pystr :=
  py_join [LF] (to_rle_lines pattern name author description).

(** ** RLE decoding (engine/patterns.py) *)

Record metadata : Type := mkMeta {
  meta_name : pystr;
  meta_author : pystr;
  meta_description : pystr
}.

Definition no_metadata : metadata :=
  {| meta_name := []; meta_author := []; meta_description := [] |}.

(** [re.search(r'x\s*=\s*(\d+).*y\s*=\s*(\d+)', line)] on a line without
    line feed.  Every piece before [.*] is forced (a white space is no
    '=', a digit no white space, and [.*] swallows what a shorter first
    number would leave), so a match at a start position takes the longest
    first number; the greedy [.*] then makes the second number start at
    the last 'y' from which the tail of the expression matches. *)
Definition match_assign (key : ascii) (s : pystr) : option (pystr * pystr) :=
  match s with
  | c :: s1 =>
      if Ascii.eqb c key then
        match drop_while is_space s1 with
        | e :: s2 =>
            if Ascii.eqb e "="%char then
              let s3 := drop_while is_space s2 in
              let digits := take_while is_decimal s3 in
              if is_empty digits then None
              else Some (digits, drop_while is_decimal s3)
            else None
        | [] => None
        end
      else None
  | [] => None
  end.

Fixpoint last_y_match (s : pystr) : option pystr :=
  match s with
  | [] => None
  | _ :: s' =>
      match last_y_match s' with
      | Some d => Some d
      | None => fst <$> match_assign "y"%char s
      end
  end.

Definition header_match_at (s : pystr) : option (pystr * pystr) :=
  match match_assign "x"%char s with
  | Some (d1, rest) =>
      match last_y_match rest with
      | Some d2 => Some (d1, d2)
      | None => None
      end
  | None => None
  end.

Fixpoint header_search (s : pystr) : option (pystr * pystr) :=
  match header_match_at s with
  | Some m => Some m
  | None => match s with
            | [] => None
            | _ :: s' => header_search s'
            end
  end.

(** What the loop over the lines of [parse_rle] collects. *)
Record rle_scan : Type := mkScan {
  scan_meta : metadata;
  scan_width : Z;
  scan_height : Z;
  scan_lines : list pystr
}.

Definition scan_start : rle_scan :=
  {| scan_meta := no_metadata; scan_width := 0; scan_height := 0;
     scan_lines := [] |}.

Definition add_description (m : metadata) (desc : pystr) : metadata :=
  {| meta_name := meta_name m; meta_author := meta_author m;
     meta_description :=
       if is_empty (meta_description m) then desc
       else meta_description m ++ lit " " ++ desc |}.

(** One round of [for line in lines] in [parse_rle]. *)
Definition scan_line (st : rle_scan) (line : pystr) : result rle_scan :=
  let line := py_strip line in
  if is_empty line then Ok st
  else if startswith line (lit "#") then
    let m := scan_meta st in
    let m' :=
      if startswith line (lit "#N") then
        {| meta_name := py_strip (drop 2 line); meta_author := meta_author m;
           meta_description := meta_description m |}
      else if startswith line (lit "#O") then
        {| meta_name := meta_name m; meta_author := py_strip (drop 2 line);
           meta_description := meta_description m |}
      else if startswith line (lit "#C") || startswith line (lit "#c") then
        add_description m (py_strip (drop 2 line))
      else m in
    Ok {| scan_meta := m'; scan_width := scan_width st;
          scan_height := scan_height st; scan_lines := scan_lines st |}
  else if startswith line (lit "x") then
    match header_search line with
    | Some (d1, d2) =>
        w ← py_int d1;
        h ← py_int d2;
        Ok {| scan_meta := scan_meta st; scan_width := w; scan_height := h;
              scan_lines := scan_lines st |}
    | None => Ok st
    end
  else
    Ok {| scan_meta := scan_meta st; scan_width := scan_width st;
          scan_height := scan_height st;
          scan_lines := scan_lines st ++ [line] |}.

(** The state of the decoding loop: the cursor, the pending run count and
    the canvas. *)
Record rle_state : Type := mkState {
  cur_x : Z;
  cur_y : Z;
  run_count : pystr;
  canvas : matrix
}.

(** [int(run_count) if run_count else 1] *)
Definition pending_count (run_count : pystr) : result Z :=
  if is_empty run_count then Ok 1 else py_int run_count.

(** [for _ in range(count)]: mark the cell under the cursor when it is on
    the canvas, and move right. *)
Fixpoint mark_run (n : nat) (width height : Z) (x y : Z) (data : matrix)
    : result (Z * matrix) :=
  match n with
  | O => Ok (x, data)
  | S n' =>
      data' ← (if (y <? height) && (x <? width) then np_set data y x 1
               else Ok data);
      mark_run n' width height (x + 1) y data'
  end.

(** [for char in pattern_str], up to the end of the text or the first '!'. *)
Fixpoint decode (width height : Z) (chars : pystr) (st : rle_state)
    : result rle_state :=
  match chars with
  | [] => Ok st
  | char :: rest =>
      if py_isdigit char then
        decode width height rest
          {| cur_x := cur_x st; cur_y := cur_y st;
             run_count := run_count st ++ [char]; canvas := canvas st |}
      else if Ascii.eqb char "b"%char then
        count ← pending_count (run_count st);
        decode width height rest
          {| cur_x := cur_x st + count; cur_y := cur_y st;
             run_count := []; canvas := canvas st |}
      else if Ascii.eqb char "o"%char then
        count ← pending_count (run_count st);
        '(x, data) ← mark_run (Z.to_nat count) width height
                        (cur_x st) (cur_y st) (canvas st);
        decode width height rest
          {| cur_x := x; cur_y := cur_y st; run_count := []; canvas := data |}
      else if Ascii.eqb char "$"%char then
        count ← pending_count (run_count st);
        decode width height rest
          {| cur_x := 0; cur_y := cur_y st + count;
             run_count := []; canvas := canvas st |}
      else if Ascii.eqb char "!"%char then Ok st
      else decode width height rest st
  end.

(** [np.any(data, axis=1)] and [np.any(data, axis=0)] *)
Definition nonzero (v : Z) : bool := negb (v =? 0).
Definition any_rows (m : matrix) : list bool := existsb nonzero <$> m.
Definition any_cols (m : matrix) : list bool :=
  (λ j, existsb (λ r : list Z, nonzero (default 0 (r !! j))) m)
    <$> seq 0 (length (hd [] m)).

(** [np.where(mask)[0]]: the indices of the true entries. *)
Definition pick_true (p : nat * bool) : option Z :=
  if p.2 then Some (Z.of_nat p.1) else None.
Definition np_where (mask : list bool) : list Z :=
  omap pick_true (zip (seq 0 (length mask)) mask).

(** [idx[[0, -1]]]: the first and the last entry, an [IndexError] on an
    empty array. *)
Definition first_last (idx : list Z) : result (Z * Z) :=
  match idx, last idx with
  | i :: _, Some j => Ok (i, j)
  | _, _ => Raise IndexError
  end.

(** The end of [parse_rle]: cut the canvas down to the bounding box of its
    live cells, if it has any. *)
Definition trim_canvas (data : matrix) : result matrix :=
  let rows := any_rows data in
  let cols := any_cols data in
  if existsb id rows && existsb id cols then
    '(y_min, y_max) ← first_last (np_where rows);
    '(x_min, x_max) ← first_last (np_where cols);
    Ok (np_slice2 data y_min (y_max + 1) x_min (x_max + 1))
  else Ok data.

(** The first half of [parse_rle]: the lines read, the canvas size
    settled. *)
Definition rle_scan_text (content : pystr) : result rle_scan :=
  let lines := py_split_on LF (py_strip content) in
  st ← for_each lines scan_line scan_start;
  if (scan_width st =? 0) || (scan_height st =? 0)
  then Ok {| scan_meta := scan_meta st; scan_width := 100;
             scan_height := 100; scan_lines := scan_lines st |}
  else Ok st.

(** The canvas after the decoding loop, before trimming. *)
Definition rle_canvas (content : pystr) : result matrix :=
  sc ← rle_scan_text content;
  let pattern_str := concat (scan_lines sc) in
  data ← np_zeros (scan_height sc) (scan_width sc);
  st ← decode (scan_width sc) (scan_height sc) pattern_str
         {| cur_x := 0; cur_y := 0; run_count := []; canvas := data |};
  Ok (canvas st).

(** [PatternLoader.parse_rle] *)
Definition parse_rle (content : pystr) : result (matrix * metadata) :=
  sc ← rle_scan_text content;
  data ← rle_canvas content;
  data' ← trim_canvas data;
  Ok (data', scan_meta sc).

(** ** Plaintext decoding (engine/patterns.py) *)

(** [enumerate(l)] *)
Definition enumerate {A} (l : list A) : list (Z * A) :=
  zip (seqZ 0 (len l)) l.

(** One round of [for line in lines] in [parse_cells]. *)
Definition cells_line (st : metadata * list pystr) (line : pystr)
    : metadata * list pystr :=
  let '(m, pattern_lines) := st in
  if startswith line (lit "!") then
    let text := py_strip (drop 1 line) in
    if startswith (py_lower text) (lit "name:") then
      ({| meta_name := py_strip (drop 5 text); meta_author := meta_author m;
          meta_description := meta_description m |}, pattern_lines)
    else if startswith (py_lower text) (lit "author:") then
      ({| meta_name := meta_name m; meta_author := py_strip (drop 7 text);
          meta_description := meta_description m |}, pattern_lines)
    else (add_description m text, pattern_lines)
  else if negb (is_empty (py_strip line)) then
    (m, pattern_lines ++ [py_rstrip line])
  else st.

Definition cells_scan (content : pystr) : metadata * list pystr :=
  foldl cells_line (no_metadata, []) (py_split_on LF (py_strip content)).

(** [char in 'O*'] for a one-character string. *)
Definition alive_marker (char : ascii) : bool :=
  Ascii.eqb char "O"%char || Ascii.eqb char "*"%char.

(** [PatternLoader.parse_cells] *)
Definition parse_cells (content : pystr) : result (matrix * metadata) :=
  let '(m, pattern_lines) := cells_scan content in
  if is_empty pattern_lines then
    sentinel ← np_zeros 1 1; Ok (sentinel, m)
  else
    let height := len pattern_lines in
    let width := foldr Z.max 0 (len <$> pattern_lines) in
    data ← np_zeros height width;
    data ← for_each (enumerate pattern_lines) (λ data '(y, line),
      for_each (enumerate line) (λ data '(x, char),
        if alive_marker char then np_set data y x 1 else Ok data) data) data;
    Ok (data, m).

(** ** Region extraction (engine/storage.py) *)

(** [PatternStorage.extract_region] *)
Definition extract_region (grid_cells : matrix) (x y width height : Z)
    : result matrix :=
  let h := nrows grid_cells in
  let w := ncols grid_cells in
  let x1 := Z.max 0 x in
  let y1 := Z.max 0 y in
  let x2 := Z.min w (x + width) in
  let y2 := Z.min h (y + height) in
  let region := np_slice2 grid_cells y1 y2 x1 x2 in
  let rows := any_rows region in
  let cols := any_cols region in
  if negb (existsb id rows) || negb (existsb id cols) then np_zeros 1 1
  else
    '(y_min, y_max) ← first_last (np_where rows);
    '(x_min, x_max) ← first_last (np_where cols);
    Ok (np_slice2 region y_min (y_max + 1) x_min (x_max + 1)).

(** ** Line wrapping as the specification speaks of it *)

(** The '#C' line that carries the words [ws], each after one space. *)
Definition comment_line (ws : list pystr) : pystr :=
  lit "#C" ++ concat ((λ w, lit " " ++ w) <$> ws).

(** ** Texts and canvases as the specification speaks of them *)

(** A 7-bit character; the interchange formats are ASCII text. *)
Definition is_ascii (c : ascii) : bool := code c <? 128.

(** No cell of the array is alive. *)
Definition all_dead (m : matrix) : Prop := Forall (Forall (λ v, v = 0)) m.

(** What the decoding loop of [parse_rle] maintains: a cursor that never
    goes negative, a pending run count made of decimal digits, a canvas
    of the declared size. *)
Definition decoding (width height : Z) (st : rle_state) : Prop :=
  0 ≤ cur_x st ∧ 0 ≤ cur_y st ∧
  forallb is_decimal (run_count st) = true ∧
  shape (Z.to_nat height) (Z.to_nat width) (canvas st).

(** ** The round trip as the specification speaks of it *)

(** The value of a string of decimal digits. *)
Definition dec_value (s : pystr) : Z :=
  foldl (λ acc c, 10 * acc + (code c - 48)) 0 s.

(** Each of the four border lines of the array holds a live cell; an
    array without rows or without columns has no such line. *)
Definition no_dead_border (m : matrix) : bool :=
  existsb nonzero (hd [] m) && existsb nonzero (List.last m [])
  && existsb (λ r, nonzero (hd 0 r)) m
  && existsb (λ r, nonzero (List.last r 0)) m.

(** The characters of an encoded body. *)
Definition body_char (c : ascii) : bool :=
  is_decimal c || Ascii.eqb c "b" || Ascii.eqb c "o" || Ascii.eqb c "$"
  || Ascii.eqb c "!".

(** ** More of the grid (engine/grid.py) *)

(** [Grid.clear] *)
Definition clear (g : Grid) : Grid :=
  {| width := width g; height := height g; wrap_mode := wrap_mode g;
     cells := (λ r : list Z, (λ _, 0) <$> r) <$> cells g;
     generation := 0 |}.

(** [n] calls of [Grid.step] in a row, as the simulation loop of
    [RunningState.update] (states/running_state.py) makes them. *)
Fixpoint steps (n : nat) (g : Grid) : result Grid :=
  match n with
  | O => Ok g
  | S n' => g' ← step g; steps n' g'
  end.

(** ** Patterns (engine/patterns.py) *)

Record Pattern : Type := mkPattern {
  pat_name : pystr;
  pat_data : matrix;
  pat_width : Z;
  pat_height : Z;
  pat_author : pystr;
  pat_description : pystr;
  pat_filename : pystr
}.

(** [Pattern.population] *)
Definition pattern_population (p : Pattern) : Z := np_sum (pat_data p).

(** ** Pattern editor (ui/editor.py)

    The pattern held for stamping and its rotation.  The cursor, a pair of
    floats, is not part of the model: the functions below do not read it,
    and [place_or_toggle] takes the cursor cell as an argument. *)

Record Editor : Type := mkEditor {
  current_pattern : option Pattern;
  pattern_rotation : Z
}.

(** [Editor.set_pattern] *)
Definition set_pattern (e : Editor) (pattern : option Pattern) : Editor :=
  {| current_pattern := pattern; pattern_rotation := 0 |}.

(** [Editor.rotate_pattern] *)
Definition rotate_pattern (e : Editor) : Editor :=
  {| current_pattern := current_pattern e;
     pattern_rotation := (pattern_rotation e + 90) mod 360 |}.

(** [Editor.get_pattern_data] *)
Definition get_pattern_data (e : Editor) : option matrix :=
  match current_pattern e with
  | None => None
  | Some p =>
      let rotations := (pattern_rotation e / 90) mod 4 in
      Some (np_rot90 (pat_data p) (- rotations))
  end.

(** [Editor.get_pattern_size]: [(1, 1)] without a pattern, else the
    [(shape[1], shape[0])] of the turned data. *)
Definition get_pattern_size (e : Editor) : Z * Z :=
  match get_pattern_data e with
  | None => (1, 1)
  | Some data => (ncols data, nrows data)
  end.

(** [Editor.move_cursor_cells], as a function of the cursor cell
    [(int(cursor_x), int(cursor_y))], which is all it reads of the
    cursor; it leaves the cursor on integers. *)
Definition move_cursor_cells (grid_width grid_height : Z)
    (cell_x cell_y dx dy : Z) (wrap : bool) : result (Z * Z) :=
  let cursor_x := cell_x + dx in
  let cursor_y := cell_y + dy in
  if wrap then
    cursor_x ← py_mod cursor_x grid_width;
    cursor_y ← py_mod cursor_y grid_height;
    Ok (cursor_x, cursor_y)
  else
    Ok (Z.max 0 (Z.min cursor_x (grid_width - 1)),
        Z.max 0 (Z.min cursor_y (grid_height - 1))).

(** [EditorState._place_or_toggle] (states/editor_state.py), at the cursor
    cell [(cx, cy)].  With a pattern set, [get_pattern_data] does not
    answer [None]; [np.rot90] would refuse it. *)
Definition place_or_toggle (e : Editor) (g : Grid) (cx cy : Z)
    : result Grid :=
  match current_pattern e with
  | Some _ =>
      match get_pattern_data e with
      | Some pattern_data => load_pattern g pattern_data cx cy 0
      | None => Raise ValueError
      end
  | None => toggle_cell g cx cy
  end.

(** [GalleryState._load_current_pattern] (states/gallery_state.py) and
    [MenuState._select_pattern] (states/menu_state.py), as far as the grid
    goes: the grid is cleared and the pattern placed around the centre. *)
Definition load_current_pattern (g : Grid) (pattern : Pattern)
    : result Grid :=
  let g := clear g in
  let cx := width g / 2 - pat_width pattern / 2 in
  let cy := height g / 2 - pat_height pattern / 2 in
  load_pattern g (pat_data pattern) cx cy 0.

(** [MenuState._toggle_wrap_mode] (states/menu_state.py), on the grid of
    the game. *)
Definition toggle_wrap_mode (g : Grid) : Grid :=
  if is_toroidal g then with_wrap_mode g "bounded"
  else with_wrap_mode g "toroidal".

(** ** Patterns and texts as the codec keeps them *)

(** A line of the output of [to_rle]: it starts with a character that is
    no white space, and holds no line feed. *)
Definition plain_line (l : pystr) : Prop :=
  (∃ c, head l = Some c ∧ is_space c = false) ∧ Forall (λ c, c ≠ LF) l.

(** A pattern as the codec keeps it: a rectangular array of cells 0 and
    1 with at least one row and one column, which has a live cell on each
    of its four border lines or no live cell at all. *)
Definition kept_pattern (h w : nat) (m : matrix) : Prop :=
  shape h w m ∧ (0 < h)%nat ∧ (0 < w)%nat ∧ binary m ∧
  (no_dead_border m = true ∨ all_dead m).

(** The cell that [parse_cells] builds from the character at row [y],
    column [x] of the pattern lines: 1 under an alive marker, 0 under any
    other character and beyond the end of a line. *)
Definition cells_mark (pattern_lines : list pystr) (y x : Z) : Z :=
  match pattern_lines !! Z.to_nat y ≫= (.!! Z.to_nat x) with
  | Some char => if alive_marker char then 1 else 0
  | None => 0
  end.

(** The lines that [parse_cells] keeps for the pattern: those that do not
    start with '!' and are not blank. *)
Definition is_pattern_line (line : pystr) : bool :=
  negb (startswith line (lit "!")) && negb (is_empty (py_strip line)).

(** ** The built-in patterns (engine/patterns.py) *)

(** A dictionary with string keys, in the order of its entries. *)
Fixpoint dict_get {V} (d : list (pystr * V)) (key : pystr) : option V :=
  match d with
  | [] => None
  | (k, v) :: d' => if pystr_eqb k key then Some v else dict_get d' key
  end.

(** [PatternLoader.BUILTIN_PATTERNS]: under each name, the ['data'] and
    the ['description'] of the entry. *)
Definition BUILTIN_PATTERNS : list (pystr * (matrix * pystr)) :=
  [
    (lit "block",
      ([[1; 1];
       [1; 1]],
       lit "Smallest still life"));
    (lit "beehive",
      ([[0; 1; 1; 0];
       [1; 0; 0; 1];
       [0; 1; 1; 0]],
       lit "6-cell still life"));
    (lit "loaf",
      ([[0; 1; 1; 0];
       [1; 0; 0; 1];
       [0; 1; 0; 1];
       [0; 0; 1; 0]],
       lit "7-cell still life"));
    (lit "boat",
      ([[1; 1; 0];
       [1; 0; 1];
       [0; 1; 0]],
       lit "5-cell still life"));
    (lit "tub",
      ([[0; 1; 0];
       [1; 0; 1];
       [0; 1; 0]],
       lit "4-cell still life"));
    (lit "blinker",
      ([[1; 1; 1]],
       lit "Period 2 oscillator"));
    (lit "toad",
      ([[0; 1; 1; 1];
       [1; 1; 1; 0]],
       lit "Period 2 oscillator"));
    (lit "beacon",
      ([[1; 1; 0; 0];
       [1; 1; 0; 0];
       [0; 0; 1; 1];
       [0; 0; 1; 1]],
       lit "Period 2 oscillator"));
    (lit "pulsar",
      ([[0; 0; 1; 1; 1; 0; 0; 0; 1; 1; 1; 0; 0];
       [0; 0; 0; 0; 0; 0; 0; 0; 0; 0; 0; 0; 0];
       [1; 0; 0; 0; 0; 1; 0; 1; 0; 0; 0; 0; 1];
       [1; 0; 0; 0; 0; 1; 0; 1; 0; 0; 0; 0; 1];
       [1; 0; 0; 0; 0; 1; 0; 1; 0; 0; 0; 0; 1];
       [0; 0; 1; 1; 1; 0; 0; 0; 1; 1; 1; 0; 0];
       [0; 0; 0; 0; 0; 0; 0; 0; 0; 0; 0; 0; 0];
       [0; 0; 1; 1; 1; 0; 0; 0; 1; 1; 1; 0; 0];
       [1; 0; 0; 0; 0; 1; 0; 1; 0; 0; 0; 0; 1];
       [1; 0; 0; 0; 0; 1; 0; 1; 0; 0; 0; 0; 1];
       [1; 0; 0; 0; 0; 1; 0; 1; 0; 0; 0; 0; 1];
       [0; 0; 0; 0; 0; 0; 0; 0; 0; 0; 0; 0; 0];
       [0; 0; 1; 1; 1; 0; 0; 0; 1; 1; 1; 0; 0]],
       lit "Period 3 oscillator"));
    (lit "pentadecathlon",
      ([[0; 0; 1; 0; 0; 0; 0; 1; 0; 0];
       [1; 1; 0; 1; 1; 1; 1; 0; 1; 1];
       [0; 0; 1; 0; 0; 0; 0; 1; 0; 0]],
       lit "Period 15 oscillator"));
    (lit "glider",
      ([[0; 1; 0];
       [0; 0; 1];
       [1; 1; 1]],
       lit "Smallest spaceship"));
    (lit "lwss",
      ([[1; 0; 0; 1; 0];
       [0; 0; 0; 0; 1];
       [1; 0; 0; 0; 1];
       [0; 1; 1; 1; 1]],
       lit "Lightweight spaceship"));
    (lit "mwss",
      ([[0; 0; 1; 0; 0; 0];
       [1; 0; 0; 0; 1; 0];
       [0; 0; 0; 0; 0; 1];
       [1; 0; 0; 0; 0; 1];
       [0; 1; 1; 1; 1; 1]],
       lit "Middleweight spaceship"));
    (lit "hwss",
      ([[0; 0; 1; 1; 0; 0; 0];
       [1; 0; 0; 0; 0; 1; 0];
       [0; 0; 0; 0; 0; 0; 1];
       [1; 0; 0; 0; 0; 0; 1];
       [0; 1; 1; 1; 1; 1; 1]],
       lit "Heavyweight spaceship"));
    (lit "gosper_glider_gun",
      ([[0; 0; 0; 0; 0; 0; 0; 0; 0; 0; 0; 0; 0; 0; 0; 0; 0; 0; 0; 0; 0; 0; 0; 0; 1; 0; 0; 0; 0; 0; 0; 0; 0; 0; 0; 0];
       [0; 0; 0; 0; 0; 0; 0; 0; 0; 0; 0; 0; 0; 0; 0; 0; 0; 0; 0; 0; 0; 0; 1; 0; 1; 0; 0; 0; 0; 0; 0; 0; 0; 0; 0; 0];
       [0; 0; 0; 0; 0; 0; 0; 0; 0; 0; 0; 0; 1; 1; 0; 0; 0; 0; 0; 0; 1; 1; 0; 0; 0; 0; 0; 0; 0; 0; 0; 0; 0; 0; 1; 1];
       [0; 0; 0; 0; 0; 0; 0; 0; 0; 0; 0; 1; 0; 0; 0; 1; 0; 0; 0; 0; 1; 1; 0; 0; 0; 0; 0; 0; 0; 0; 0; 0; 0; 0; 1; 1];
       [1; 1; 0; 0; 0; 0; 0; 0; 0; 0; 1; 0; 0; 0; 0; 0; 1; 0; 0; 0; 1; 1; 0; 0; 0; 0; 0; 0; 0; 0; 0; 0; 0; 0; 0; 0];
       [1; 1; 0; 0; 0; 0; 0; 0; 0; 0; 1; 0; 0; 0; 1; 0; 1; 1; 0; 0; 0; 0; 1; 0; 1; 0; 0; 0; 0; 0; 0; 0; 0; 0; 0; 0];
       [0; 0; 0; 0; 0; 0; 0; 0; 0; 0; 1; 0; 0; 0; 0; 0; 1; 0; 0; 0; 0; 0; 0; 0; 1; 0; 0; 0; 0; 0; 0; 0; 0; 0; 0; 0];
       [0; 0; 0; 0; 0; 0; 0; 0; 0; 0; 0; 1; 0; 0; 0; 1; 0; 0; 0; 0; 0; 0; 0; 0; 0; 0; 0; 0; 0; 0; 0; 0; 0; 0; 0; 0];
       [0; 0; 0; 0; 0; 0; 0; 0; 0; 0; 0; 0; 1; 1; 0; 0; 0; 0; 0; 0; 0; 0; 0; 0; 0; 0; 0; 0; 0; 0; 0; 0; 0; 0; 0; 0]],
       lit "First known gun pattern"));
    (lit "r_pentomino",
      ([[0; 1; 1];
       [1; 1; 0];
       [0; 1; 0]],
       lit "Methuselah - stabilizes at gen 1103"));
    (lit "diehard",
      ([[0; 0; 0; 0; 0; 0; 1; 0];
       [1; 1; 0; 0; 0; 0; 0; 0];
       [0; 1; 0; 0; 0; 1; 1; 1]],
       lit "Methuselah - dies at gen 130"));
    (lit "acorn",
      ([[0; 1; 0; 0; 0; 0; 0];
       [0; 0; 0; 1; 0; 0; 0];
       [1; 1; 0; 0; 1; 1; 1]],
       lit "Methuselah - stabilizes at gen 5206"));
    (lit "infinite_1",
      ([[1; 1; 1; 0; 1];
       [1; 0; 0; 0; 0];
       [0; 0; 0; 1; 1];
       [0; 1; 1; 0; 1];
       [1; 0; 1; 0; 1]],
       lit "Infinite growth pattern"))
  ].

(** [PatternLoader.get_builtin] *)
Definition get_builtin (name : pystr) : option Pattern :=
  match dict_get BUILTIN_PATTERNS name with
  | None => None
  | Some (data, description) =>
      Some {| pat_name := name; pat_data := data;
              pat_width := ncols data; pat_height := nrows data;
              pat_author := []; pat_description := description;
              pat_filename := [] |}
  end.

(** [PatternLoader.list_builtin] *)
Definition list_builtin : list pystr := fst <$> BUILTIN_PATTERNS.

(** What is checked of an entry of the table: its data is a rectangular
    array of cells 0 and 1, not empty, with a live cell on each border
    line; its name and its description are written back unchanged by the
    RLE codec, that is, the name has no line feed and no white space at
    its ends, and the words of the description are separated by single
    spaces. *)
Definition builtin_entry_ok (e : pystr * (matrix * pystr)) : bool :=
  let '(name, (data, description)) := e in
  negb (is_empty data) && negb (is_empty (hd [] data))
  && forallb (λ r, len r =? ncols data) data
  && forallb (forallb (λ v, (v =? 0) || (v =? 1))) data
  && no_dead_border data
  && forallb (λ c, negb (Ascii.eqb c LF)) name
  && pystr_eqb (py_strip name) name
  && pystr_eqb (py_join (lit " ") (py_split description)) description.

(** ** The demonstrations of the information screen (states/info_state.py)

    [PatternDemo], without the attributes that only the display reads
    ([name], [desc], [highlight]).  The attribute [cells] is [pd_cells]
    here.  The history holds the states as [tobytes] gives them; all the
    arrays of one demonstration have one shape and one element type, so
    two of them have the same bytes exactly when they are equal, and the
    history is modelled as the list of the arrays themselves. *)

Record PatternDemo : Type := mkDemo {
  initial_state : matrix;
  pd_cells : matrix;
  max_frames : Z;
  frame : Z;
  history : list matrix
}.

(** [PatternDemo.__init__] *)
Definition PatternDemo_init (initial : matrix) (max_frames : Z)
    : PatternDemo :=
  {| initial_state := initial; pd_cells := initial;
     max_frames := max_frames; frame := 0; history := [] |}.

(** [PatternDemo.reset] *)
Definition demo_reset (d : PatternDemo) : PatternDemo :=
  {| initial_state := initial_state d; pd_cells := initial_state d;
     max_frames := max_frames d; frame := 0; history := [] |}.

(** [PatternDemo.step] *)
Definition demo_step (d : PatternDemo) : PatternDemo :=
  if (0 <? max_frames d) && (max_frames d - 1 <=? frame d) then demo_reset d
  else
    let state_bytes := pd_cells d in
    if bool_decide (state_bytes ∈ history d) then demo_reset d
    else
      let history1 := history d ++ [state_bytes] in
      let history2 :=
        if 100 <? len history1 then drop 1 history1 else history1 in
      let h := nrows (pd_cells d) in
      let w := ncols (pd_cells d) in
      let padded := np_pad_zero (pd_cells d) in
      let zeros := (λ r : list Z, (λ _, 0) <$> r) <$> pd_cells d in
      let neighbors :=
        foldl (λ acc dy,
          foldl (λ acc dx,
            if (dx =? 0) && (dy =? 0) then acc
            else np_iadd acc
                   (np_slice2 padded (1 + dy) (1 + dy + h)
                                     (1 + dx) (1 + dx + w)))
            acc [-1; 0; 1])
          zeros [-1; 0; 1] in
      {| initial_state := initial_state d;
         pd_cells := zip_with (zip_with rule) (pd_cells d) neighbors;
         max_frames := max_frames d; frame := frame d + 1;
         history := history2 |}.

(** The grid of the engine that holds the state of a demonstration, in
    bounded mode. *)
Definition demo_grid (h w : nat) (d : PatternDemo) : Grid :=
  {| width := Z.of_nat w; height := Z.of_nat h; wrap_mode := "bounded";
     cells := pd_cells d; generation := frame d |}.

(** What holds of a demonstration from its construction on. *)
Definition demo_ok (h w : nat) (d : PatternDemo) : Prop :=
  (0 < h)%nat ∧ (0 < w)%nat ∧
  shape h w (initial_state d) ∧ binary (initial_state d) ∧
  shape h w (pd_cells d) ∧ binary (pd_cells d) ∧
  0 ≤ frame d ∧ (0 < max_frames d → frame d < max_frames d) ∧
  (length (history d) ≤ 100)%nat.

(** The two reasons for which [step] starts the demonstration again. *)
Definition demo_restarts (d : PatternDemo) : Prop :=
  (0 < max_frames d ∧ max_frames d - 1 ≤ frame d) ∨ pd_cells d ∈ history d.

(** ** Concrete grids and patterns for the instances *)

(** A 3x2 toroidal grid and the same grid in bounded mode. *)
Definition demo_cells : matrix := [[1; 0; 0]; [0; 0; 1]].
Definition demo_torus : Grid :=
  {| width := 3; height := 2; wrap_mode := "toroidal";
     cells := demo_cells; generation := 0 |}.
Definition demo_box : Grid := with_wrap_mode demo_torus "bounded".

(** The glider. *)
Definition glider : matrix := [[0; 1; 0]; [0; 0; 1]; [1; 1; 1]].

(** * Properties *)

(** ** Tactics and basic facts *)

Ltac bool_to_prop :=
  repeat match goal with
  | H : _ && _ = true |- _ => apply andb_prop in H; destruct H
  | H : _ || _ = false |- _ => apply orb_false_elim in H; destruct H
  | H : _ && _ = false |- _ => apply andb_false_iff in H; destruct H
  | H : negb _ = true |- _ => apply negb_true_iff in H
  | H : negb _ = false |- _ => apply negb_false_iff in H
  | H : (_ <=? _) = true |- _ => apply Z.leb_le in H
  | H : (_ <=? _) = false |- _ => apply Z.leb_gt in H
  | H : (_ <? _) = true |- _ => apply Z.ltb_lt in H
  | H : (_ <? _) = false |- _ => apply Z.ltb_ge in H
  | H : (_ =? _) = true |- _ => apply Z.eqb_eq in H
  | H : (_ =? _) = false |- _ => apply Z.eqb_neq in H
  end.

(** Closes [binary m] and similar goals on a concrete array. *)
Ltac solve_binary :=
  unfold binary;
  repeat match goal with
  | |- Forall _ [] => constructor
  | |- Forall _ (_ :: _) => constructor
  | |- _ ∨ _ => (left; reflexivity) || (right; reflexivity)
  end.

Lemma bind_Ok {A B} (a : A) (f : A → result B) : Ok a ≫= f = f a.
Proof. done. Qed.

Lemma grid_shape_nrows g : grid_shape g → nrows (cells g) = height g.
Proof. intros (_ & Hh & Hl & _). unfold nrows. lia. Qed.

Lemma grid_shape_ncols g : grid_shape g → ncols (cells g) = width g.
Proof.
  intros (Hw & Hh & Hl & Hr). unfold ncols.
  destruct (cells g) as [|r m]; simpl in *; [lia|].
  apply Forall_cons in Hr as [-> _]. lia.
Qed.

Lemma grid_shape_row g i r :
  grid_shape g → cells g !! i = Some r → length r = Z.to_nat (width g).
Proof.
  intros (_ & _ & _ & Hr) Hi.
  by apply (Forall_lookup_1 _ _ _ _ Hr Hi).
Qed.

Lemma np_index_in_range n i :
  0 ≤ i < n → np_index n i = Ok (Z.to_nat i).
Proof.
  intros H. unfold np_index.
  replace (_ && _) with true by (symmetry; apply andb_true_intro; lia).
  by replace (i <? 0) with false by lia.
Qed.

(** Inside the grid, indexing cannot fail. *)
Lemma np_get_in_range g x y :
  grid_shape g → 0 ≤ x < width g → 0 ≤ y < height g →
  np_get (cells g) y x = Ok (mat_read (cells g) y x).
Proof.
  intros Hg Hx Hy. unfold np_get, mat_read.
  rewrite (grid_shape_nrows g Hg), (grid_shape_ncols g Hg).
  rewrite !np_index_in_range by done. simpl.
  destruct Hg as (? & ? & Hl & Hr).
  destruct (lookup_lt_is_Some_2 (cells g) (Z.to_nat y)) as [r Hrow]; [lia|].
  rewrite Hrow. simpl.
  destruct (lookup_lt_is_Some_2 r (Z.to_nat x)) as [v Hv].
  { rewrite (Forall_lookup_1 _ _ _ _ Hr Hrow). lia. }
  by rewrite Hv.
Qed.

Lemma np_set_in_range g x y v :
  grid_shape g → 0 ≤ x < width g → 0 ≤ y < height g →
  np_set (cells g) y x v = Ok (mat_write (cells g) y x v).
Proof.
  intros Hg Hx Hy. unfold np_set, mat_write.
  rewrite (grid_shape_nrows g Hg), (grid_shape_ncols g Hg).
  by rewrite !np_index_in_range by done.
Qed.

Lemma normalise_toroidal g x y :
  is_toroidal g = true → 0 < width g → 0 < height g →
  normalise g x y = Ok (Some (x mod width g, y mod height g)).
Proof.
  intros Ht Hw Hh. unfold normalise, py_mod. rewrite Ht.
  replace (width g =? 0) with false by lia.
  by replace (height g =? 0) with false by lia.
Qed.

Lemma normalise_bounded g x y :
  is_toroidal g = false →
  normalise g x y = Ok (if in_bounds g x y then Some (x, y) else None).
Proof. intros Ht. unfold normalise. rewrite Ht. by destruct (in_bounds g x y). Qed.

Lemma is_toroidal_true g : is_toroidal g = true ↔ wrap_mode g = "toroidal"%string.
Proof. apply String.eqb_eq. Qed.

Lemma is_toroidal_false g : is_toroidal g = false ↔ wrap_mode g ≠ "toroidal"%string.
Proof. apply String.eqb_neq. Qed.

Lemma in_bounds_spec g x y :
  in_bounds g x y = true ↔ (0 ≤ x < width g ∧ 0 ≤ y < height g).
Proof.
  unfold in_bounds. rewrite !andb_true_iff, !Z.leb_le, !Z.ltb_lt. lia.
Qed.

(** ** C4: construction *)

(** C4 (as the code has it): [Grid.__init__] validates nothing itself; the
    only failure is the array allocation refusing a negative dimension.
    For every non-negative width and height, zero included, construction
    succeeds with generation 0 and a [height]-row, [width]-column array of
    dead cells; with a negative width or height it raises. *)
Theorem Grid_init_outcome (w h : Z) (mode : string) :
  (0 ≤ w ∧ 0 ≤ h ∧
   Grid_init w h mode =
     Ok {| width := w; height := h; wrap_mode := mode;
           cells := replicate (Z.to_nat h) (replicate (Z.to_nat w) 0);
           generation := 0 |}) ∨
  ((w < 0 ∨ h < 0) ∧ Grid_init w h mode = Raise ValueError).
Proof.
  unfold Grid_init, np_zeros.
  destruct ((h <? 0) || (w <? 0)) eqn:E; simpl.
  - right. split; [|done]. apply orb_prop in E as [E|E]; lia.
  - left. bool_to_prop. repeat split; lia || done.
Qed.

(** C4 (counterexample): a zero width is not rejected; the grid is built
    with five empty rows. *)
Lemma Grid_init_zero_width_accepted :
  Grid_init 0 5 "toroidal" =
    Ok {| width := 0; height := 5; wrap_mode := "toroidal";
          cells := [[]; []; []; []; []]; generation := 0 |}.
Proof. reflexivity. Qed.

(** ** C5: coordinate normalisation *)

(** C5: on a grid of positive dimensions, for every integer coordinate:
    in toroidal mode the three accessors work on the cell
    [(x mod width, y mod height)], whose coordinates lie in the grid;
    in any other mode a coordinate outside the grid makes [get_cell]
    answer dead and leaves the grid as it is under [set_cell] and
    [toggle_cell]. *)
Theorem cell_access_normalised (g : Grid) (x y : Z) :
  grid_shape g →
  (wrap_mode g = "toroidal"%string →
     let xm := x mod width g in
     let ym := y mod height g in
     0 ≤ xm < width g ∧ 0 ≤ ym < height g ∧
     get_cell g x y = Ok (negb (mat_read (cells g) ym xm =? 0)) ∧
     (∀ alive, set_cell g x y alive =
        Ok (with_cells g (mat_write (cells g) ym xm (if alive then 1 else 0)))) ∧
     toggle_cell g x y =
       Ok (with_cells g
             (mat_write (cells g) ym xm (u8 (1 - mat_read (cells g) ym xm))))) ∧
  (wrap_mode g ≠ "toroidal"%string →
   ¬ (0 ≤ x < width g ∧ 0 ≤ y < height g) →
     get_cell g x y = Ok false ∧
     (∀ alive, set_cell g x y alive = Ok g) ∧
     toggle_cell g x y = Ok g).
Proof.
  intros Hg. pose proof Hg as (Hw & Hh & _). split.
  - intros Ht%is_toroidal_true xm ym.
    assert (Hx : 0 ≤ xm < width g) by (apply Z.mod_pos_bound; lia).
    assert (Hy : 0 ≤ ym < height g) by (apply Z.mod_pos_bound; lia).
    unfold get_cell, set_cell, toggle_cell.
    rewrite normalise_toroidal by done. simpl. fold xm ym.
    rewrite np_get_in_range by done. simpl.
    repeat split; try lia.
    + intros alive. by rewrite np_set_in_range by done.
    + by rewrite np_set_in_range by done.
  - intros Ht%is_toroidal_false Hout.
    unfold get_cell, set_cell, toggle_cell.
    rewrite normalise_bounded by done.
    destruct (in_bounds g x y) eqn:E; [by apply in_bounds_spec in E|done].
Qed.

Lemma demo_torus_shape : grid_shape demo_torus.
Proof. repeat split; try done. repeat constructor. Qed.

Lemma demo_box_shape : grid_shape demo_box.
Proof. repeat split; try done. repeat constructor. Qed.

Lemma cell_access_normalised_witness :
  get_cell demo_torus (-1) (-1) = Ok true ∧ get_cell demo_box (-1) (-1) = Ok false.
Proof.
  split.
  - pose proof (cell_access_normalised demo_torus (-1) (-1) demo_torus_shape)
      as [H _].
    specialize (H eq_refl). simpl in H. apply H.
  - pose proof (cell_access_normalised demo_box (-1) (-1) demo_box_shape)
      as [_ H].
    apply H; [discriminate | vm_compute; intros [[H1 _] _]; by apply H1].
Defined.

(** ** C10: any mode other than 'toroidal' is the bounded mode *)

Lemma is_toroidal_with_wrap_mode g s :
  is_toroidal (with_wrap_mode g s) = String.eqb s "toroidal".
Proof. reflexivity. Qed.

(** C10: the wrap mode is never validated, and every operation only asks
    whether it equals 'toroidal'.  For a string [s] other than 'toroidal',
    construction has the outcome it has with 'bounded' (the new grid
    carrying [s]), and on every grid state and every argument [get_cell],
    [set_cell], [toggle_cell], [count_neighbors] and [get_region] return
    what they return in mode 'bounded'. *)
Theorem other_modes_behave_as_bounded (s : string) (g : Grid) :
  s ≠ "toroidal"%string →
  let gs := with_wrap_mode g s in
  let gb := with_wrap_mode g "bounded" in
  (∀ w h, Grid_init w h s =
          (λ g', with_wrap_mode g' s) <$> Grid_init w h "bounded") ∧
  (∀ w h, 0 ≤ w → 0 ≤ h → ∃ g', Grid_init w h s = Ok g' ∧ wrap_mode g' = s) ∧
  (∀ x y, get_cell gs x y = get_cell gb x y) ∧
  (∀ x y alive, set_cell gs x y alive =
                (λ g', with_wrap_mode g' s) <$> set_cell gb x y alive) ∧
  (∀ x y, toggle_cell gs x y =
          (λ g', with_wrap_mode g' s) <$> toggle_cell gb x y) ∧
  count_neighbors gs = count_neighbors gb ∧
  (∀ x y w h, get_region gs x y w h = get_region gb x y w h).
Proof.
  intros Hs gs gb.
  assert (Es : is_toroidal gs = false).
  { unfold gs. rewrite is_toroidal_with_wrap_mode. by apply String.eqb_neq. }
  assert (Eb : is_toroidal gb = false) by reflexivity.
  repeat split.
  - intros w h. unfold Grid_init. by destruct (np_zeros h w).
  - intros w h Hw Hh. unfold Grid_init, np_zeros.
    replace ((h <? 0) || (w <? 0)) with false
      by (symmetry; apply orb_false_intro; lia).
    simpl. eauto.
  - intros x y. unfold get_cell, normalise. by rewrite Es, Eb.
  - intros x y alive. unfold set_cell, normalise. rewrite Es, Eb.
    change (in_bounds gs x y) with (in_bounds gb x y).
    destruct (in_bounds gb x y); simpl; [|done].
    change (cells gs) with (cells gb). by destruct (np_set _ _ _ _).
  - intros x y. unfold toggle_cell, normalise. rewrite Es, Eb.
    change (in_bounds gs x y) with (in_bounds gb x y).
    destruct (in_bounds gb x y); simpl; [|done].
    change (cells gs) with (cells gb).
    destruct (np_get _ _ _); simpl; [|done]. by destruct (np_set _ _ _ _).
  - unfold count_neighbors. by rewrite Es, Eb.
  - intros x y w h. unfold get_region. by rewrite Es, Eb.
Qed.

Lemma other_modes_behave_as_bounded_witness :
  get_cell (with_wrap_mode demo_torus "Toroidal") (-1) (-1) =
  get_cell (with_wrap_mode demo_torus "bounded") (-1) (-1).
Proof.
  assert (H : "Toroidal"%string ≠ "toroidal"%string) by discriminate.
  pose proof (other_modes_behave_as_bounded "Toroidal" demo_torus H)
    as (_ & _ & Hget & _).
  apply Hget.
Defined.

(** ** Reading shaped arrays *)

Lemma shape_lookup h w m i :
  shape h w m → (i < h)%nat → ∃ r, m !! i = Some r ∧ length r = w.
Proof.
  intros [Hl Hr] Hi.
  destruct (lookup_lt_is_Some_2 m i) as [r Hrow]; [lia|].
  exists r. split; [done|]. by apply (Forall_lookup_1 _ _ _ _ Hr Hrow).
Qed.

Lemma mat_read_row m y x r :
  m !! Z.to_nat y = Some r → mat_read m y x = default 0 (r !! Z.to_nat x).
Proof. intros H. unfold mat_read. by rewrite H. Qed.

Lemma grid_shape_shape g :
  grid_shape g → shape (Z.to_nat (height g)) (Z.to_nat (width g)) (cells g).
Proof. by intros (_ & _ & Hl & Hr). Qed.

Lemma py_slice_window {A} (l : list A) (a n : Z) :
  0 ≤ a → 0 ≤ n → a + n ≤ Z.of_nat (length l) →
  py_slice l a (a + n) = take (Z.to_nat n) (drop (Z.to_nat a) l).
Proof.
  intros Ha Hn Hl. unfold py_slice, py_slice_bound.
  replace (a <? 0) with false by lia.
  replace (a + n <? 0) with false by lia.
  do 2 f_equal; lia.
Qed.

Lemma reads_slice2 H W h w P f (a c : Z) :
  reads H W P f →
  0 ≤ a → 0 ≤ c →
  a + Z.of_nat h ≤ Z.of_nat H → c + Z.of_nat w ≤ Z.of_nat W →
  reads h w (np_slice2 P a (a + Z.of_nat h) c (c + Z.of_nat w))
    (λ y x, f (a + y) (c + x)).
Proof.
  intros [[HPl HPr] HP] Ha Hc HaH HcW. unfold np_slice2.
  rewrite py_slice_window by lia. rewrite Nat2Z.id.
  assert (Hrows : ∀ i r,
    take h (drop (Z.to_nat a) P) !! i = Some r →
    (i < h)%nat ∧ P !! (Z.to_nat a + i)%nat = Some r ∧ length r = W).
  { intros i r Hi. apply lookup_take_Some in Hi as [Hi ?].
    rewrite lookup_drop in Hi. repeat split; [done..|].
    by apply (Forall_lookup_1 _ _ _ _ HPr Hi). }
  split; [split|].
  - rewrite length_fmap, length_take, length_drop. lia.
  - apply Forall_fmap, Forall_lookup. intros i r Hi. simpl.
    apply Hrows in Hi as (_ & _ & Hr).
    rewrite py_slice_window by lia.
    rewrite length_take, length_drop. lia.
  - intros y x Hy Hx.
    destruct (lookup_lt_is_Some_2 (take h (drop (Z.to_nat a) P)) (Z.to_nat y))
      as [r Hr].
    { rewrite length_take, length_drop. lia. }
    erewrite mat_read_row by (rewrite list_lookup_fmap, Hr; done).
    apply Hrows in Hr as (_ & Hr & Hlen).
    rewrite py_slice_window by lia.
    rewrite lookup_take_lt, lookup_drop by lia.
    rewrite <- HP by lia.
    replace (Z.to_nat a + Z.to_nat y)%nat with (Z.to_nat (a + y)) in Hr by lia.
    erewrite mat_read_row by done. f_equal. f_equal. lia.
Qed.

Lemma reads_zip_with (op : Z → Z → Z) h w a b f k :
  reads h w a f → reads h w b k →
  reads h w (zip_with (zip_with op) a b) (λ y x, op (f y x) (k y x)).
Proof.
  intros [Sa Ha] [Sb Hb].
  assert (Hrow : ∀ i, (i < h)%nat → ∃ ra rb,
    a !! i = Some ra ∧ b !! i = Some rb ∧ length ra = w ∧ length rb = w ∧
    zip_with (zip_with op) a b !! i = Some (zip_with op ra rb)).
  { intros i Hi.
    destruct (shape_lookup _ _ _ _ Sa Hi) as (ra & Hra & ?).
    destruct (shape_lookup _ _ _ _ Sb Hi) as (rb & Hrb & ?).
    exists ra, rb. rewrite lookup_zip_with, Hra, Hrb. done. }
  split; [split|].
  - destruct Sa as [? _], Sb as [? _]. rewrite length_zip_with. lia.
  - apply Forall_lookup. intros i r Hi.
    assert (i < h)%nat as Hih.
    { apply lookup_lt_Some in Hi. rewrite length_zip_with in Hi.
      destruct Sa as [? _]. lia. }
    destruct (Hrow i Hih) as (ra & rb & _ & _ & ? & ? & E).
    rewrite E in Hi. injection Hi as <-. rewrite length_zip_with. lia.
  - intros y x Hy Hx.
    destruct (Hrow (Z.to_nat y)) as (ra & rb & Hra & Hrb & La & Lb & E); [lia|].
    rewrite (mat_read_row _ _ _ _ E), <- Ha, <- Hb by done.
    rewrite (mat_read_row _ _ _ _ Hra), (mat_read_row _ _ _ _ Hrb).
    rewrite lookup_zip_with.
    destruct (lookup_lt_is_Some_2 ra (Z.to_nat x)) as [va ->]; [lia|].
    destruct (lookup_lt_is_Some_2 rb (Z.to_nat x)) as [vb ->]; [lia|].
    done.
Qed.

Lemma reads_iadd h w a b f k :
  reads h w a f → reads h w b k →
  reads h w (np_iadd a b) (λ y x, u8 (f y x + k y x)).
Proof. apply (reads_zip_with (λ a b, u8 (a + b))). Qed.

(** An array all of whose cells are read as 0 or 1 is [binary]. *)
Lemma reads_binary h w m f :
  reads h w m f → (∀ y x, f y x = 0 ∨ f y x = 1) → binary m.
Proof.
  intros [[Hl Hr] Hf] Hb.
  apply Forall_lookup. intros i r Hi. apply Forall_lookup. intros j v Hj.
  pose proof (lookup_lt_Some _ _ _ Hi). pose proof (lookup_lt_Some _ _ _ Hj).
  pose proof (Forall_lookup_1 _ _ _ _ Hr Hi) as Hlr. simpl in Hlr.
  specialize (Hf (Z.of_nat i) (Z.of_nat j)). unfold mat_read in Hf.
  rewrite !Nat2Z.id, Hi in Hf. simpl in Hf. rewrite Hj in Hf. simpl in Hf.
  rewrite Hf by lia. apply Hb.
Qed.

Lemma reads_ext h w m f k :
  reads h w m f →
  (∀ y x, 0 ≤ y < Z.of_nat h → 0 ≤ x < Z.of_nat w → f y x = k y x) →
  reads h w m k.
Proof. intros [S Hf] E. split; [done|]. intros. rewrite <- E by done. auto. Qed.

Lemma reads_self h w m : shape h w m → reads h w m (mat_read m).
Proof. by split. Qed.

(** ** Padding *)

Lemma wrap1_length {A} (l : list A) :
  l ≠ [] → length (wrap1 l) = S (S (length l)).
Proof.
  intros Hl. unfold wrap1. destruct l as [|a l]; [done|].
  destruct (last (a :: l)) eqn:E.
  - simpl. rewrite length_app. simpl. lia.
  - by apply last_None in E.
Qed.

Lemma wrap1_lookup {A} (l : list A) (j : Z) :
  l ≠ [] → 0 ≤ j ≤ Z.of_nat (length l) + 1 →
  wrap1 l !! Z.to_nat j = l !! Z.to_nat ((j - 1) mod Z.of_nat (length l)).
Proof.
  intros Hl Hj. unfold wrap1. destruct l as [|a l]; [done|].
  set (n := Z.of_nat (length (a :: l))) in *.
  assert (0 < n) by (unfold n; simpl; lia).
  destruct (last (a :: l)) as [z|] eqn:E; [|by apply last_None in E].
  destruct (decide (j = 0)) as [->|].
  - rewrite last_lookup in E. simpl Z.to_nat at 1. simpl lookup at 1.
    rewrite <- E. f_equal.
    replace ((0 - 1) mod n) with (n - 1).
    + unfold n. lia.
    + apply Z.mod_unique with (-1); lia.
  - replace (Z.to_nat j) with (S (Z.to_nat (j - 1))) by lia.
    rewrite lookup_cons.
    destruct (decide (j = n + 1)) as [->|].
    + replace (n + 1 - 1) with n by lia. rewrite Z.mod_same by lia.
      rewrite lookup_app_r by (unfold n; lia).
      replace (Z.to_nat n - length (a :: l))%nat with 0%nat by (unfold n; lia).
      done.
    + rewrite Z.mod_small by lia.
      apply lookup_app_l. unfold n in *. lia.
Qed.

Lemma wrap1_elem_of {A} (l : list A) (x : A) : x ∈ wrap1 l → x ∈ l.
Proof.
  unfold wrap1. destruct l as [|a l]; [done|].
  destruct (last (a :: l)) as [z|] eqn:El; [|done].
  apply last_Some_elem_of in El.
  rewrite elem_of_cons, elem_of_app, list_elem_of_singleton.
  intros [->|[?| ->]]; [done..|]. apply elem_of_cons. by left.
Qed.

Lemma reads_pad_wrap h w m :
  shape h w m → (0 < h)%nat → (0 < w)%nat →
  reads (S (S h)) (S (S w)) (wrap1 (wrap1 <$> m))
    (λ y x, mat_read m ((y - 1) mod Z.of_nat h) ((x - 1) mod Z.of_nat w)).
Proof.
  intros [Hl Hr] Hh Hw.
  assert (Hne : wrap1 <$> m ≠ []) by (destruct m; [simpl in Hl; lia|done]).
  assert (Hlen : length (wrap1 <$> m) = h) by (by rewrite length_fmap).
  assert (Hrow : ∀ r, r ∈ m → r ≠ [] ∧ length r = w).
  { intros r Hin. rewrite Forall_forall in Hr. specialize (Hr r Hin).
    split; [|done]. intros ->. simpl in Hr. lia. }
  split; [split|].
  - rewrite wrap1_length by done. lia.
  - apply Forall_lookup. intros i r Hi.
    apply list_elem_of_lookup_2 in Hi.
    apply wrap1_elem_of in Hi as Hin.
    apply list_elem_of_fmap in Hin as (r0 & -> & Hin).
    destruct (Hrow r0 Hin) as [? <-]. by apply wrap1_length.
  - intros y x Hy Hx. unfold mat_read.
    rewrite wrap1_lookup by (done || lia). rewrite Hlen.
    rewrite list_lookup_fmap.
    assert (0 ≤ (y - 1) mod Z.of_nat h < Z.of_nat h) by (apply Z.mod_pos_bound; lia).
    destruct (lookup_lt_is_Some_2 m (Z.to_nat ((y - 1) mod Z.of_nat h)))
      as [r Hrw]; [lia|].
    rewrite Hrw. simpl.
    destruct (Hrow r) as [? Hlr]; [by eapply list_elem_of_lookup_2|].
    rewrite wrap1_lookup by (done || lia). by rewrite Hlr.
Qed.

Lemma reads_pad_zero h w m :
  shape h w m → (0 < h)%nat →
  reads (S (S h)) (S (S w)) (np_pad_zero m)
    (λ y x, if (1 <=? y) && (y <=? Z.of_nat h) && (1 <=? x) && (x <=? Z.of_nat w)
            then mat_read m (y - 1) (x - 1) else 0).
Proof.
  intros [Hl Hr] Hh. unfold np_pad_zero.
  assert (Hc : Z.to_nat (ncols m + 2) = S (S w)).
  { unfold ncols. destruct m as [|r m]; [simpl in Hl; lia|].
    apply Forall_cons in Hr as [Hr _]. simpl. lia. }
  rewrite Hc. set (blank := replicate (S (S w)) 0).
  set (body := (λ r : list Z, 0 :: r ++ [0]) <$> m).
  assert (Hbl : length body = h) by (unfold body; by rewrite length_fmap).
  split; [split|].
  - simpl. rewrite length_app. simpl. lia.
  - constructor; [apply length_replicate|].
    apply Forall_app. split.
    + apply Forall_fmap, Forall_lookup. intros i r Hi. simpl.
      rewrite length_app. simpl.
      rewrite (Forall_lookup_1 _ _ _ _ Hr Hi). lia.
    + constructor; [apply length_replicate|constructor].
  - intros y x Hy Hx. unfold mat_read.
    destruct (decide (y = 0)) as [->|Hy0].
    { simpl. unfold blank. by rewrite lookup_replicate_2 by lia. }
    replace (Z.to_nat y) with (S (Z.to_nat (y - 1))) by lia.
    rewrite lookup_cons.
    destruct (decide (y = Z.of_nat h + 1)) as [->|Hy1].
    { rewrite lookup_app_r by lia.
      replace (_ - _)%nat with 0%nat by lia. simpl.
      replace (Z.of_nat h + 1 <=? Z.of_nat h) with false by lia.
      rewrite andb_false_r. simpl.
      unfold blank. by rewrite lookup_replicate_2 by lia. }
    rewrite lookup_app_l by lia.
    replace (1 <=? y) with true by lia.
    replace (y <=? Z.of_nat h) with true by lia. simpl.
    unfold body. rewrite list_lookup_fmap.
    destruct (lookup_lt_is_Some_2 m (Z.to_nat (y - 1))) as [r Hrw]; [lia|].
    rewrite Hrw. simpl.
    pose proof (Forall_lookup_1 _ _ _ _ Hr Hrw) as Hlr. simpl in Hlr.
    destruct (decide (x = 0)) as [->|Hx0]; [done|].
    replace (Z.to_nat x) with (S (Z.to_nat (x - 1))) by lia.
    rewrite lookup_cons.
    destruct (decide (x = Z.of_nat w + 1)) as [->|Hx1].
    { rewrite lookup_app_r by lia.
      replace (_ - _)%nat with 0%nat by lia.
      replace (Z.of_nat w + 1 <=? Z.of_nat w) with false by lia.
      by rewrite andb_false_r. }
    rewrite lookup_app_l by lia.
    replace (1 <=? x) with true by lia.
    by replace (x <=? Z.of_nat w) with true by lia.
Qed.

(** ** C6 and C1: neighbour counts and the rule *)

Lemma cell_value_binary g x y :
  grid_ok g → cell_value g x y = 0 ∨ cell_value g x y = 1.
Proof.
  intros [_ Hb]. unfold cell_value, mat_read.
  assert (∀ i j, default 0 (cells g !! i ≫= (.!! j)) = 0
               ∨ default 0 (cells g !! i ≫= (.!! j)) = 1) as H.
  { intros i j. destruct (cells g !! i) as [r|] eqn:Hr; simpl; [|by left].
    destruct (r !! j) as [v|] eqn:Hv; simpl; [|by left].
    apply (Forall_lookup_1 _ _ _ _ Hb) in Hr.
    apply (Forall_lookup_1 _ _ _ _ Hr Hv). }
  destruct (is_toroidal g); [apply H|].
  destruct (in_bounds g x y); [apply H|by left].
Qed.

(** The padded array holds, at [(y, x)], the cell that the coordinate rule
    designates for [(x - 1, y - 1)]. *)
Lemma padded_reads g :
  grid_shape g →
  ∃ padded,
    (if is_toroidal g then np_pad_wrap (cells g)
     else Ok (np_pad_zero (cells g))) = Ok padded ∧
    reads (S (S (Z.to_nat (height g)))) (S (S (Z.to_nat (width g)))) padded
      (λ y x, cell_value g (x - 1) (y - 1)).
Proof.
  intros Hg. pose proof Hg as (Hw & Hh & _).
  pose proof (grid_shape_shape g Hg) as Hs.
  unfold cell_value. destruct (is_toroidal g).
  - exists (wrap1 (wrap1 <$> cells g)). split.
    + unfold np_pad_wrap.
      rewrite (grid_shape_nrows g Hg), (grid_shape_ncols g Hg).
      replace (height g =? 0) with false by lia.
      by replace (width g =? 0) with false by lia.
    + eapply reads_ext; [apply reads_pad_wrap; [done|lia..]|].
      intros y x _ _. simpl. by rewrite !Z2Nat.id by lia.
  - exists (np_pad_zero (cells g)). split; [done|].
    eapply reads_ext; [apply reads_pad_zero; [done|lia]|].
    intros y x _ _. simpl. unfold in_bounds. rewrite !Z2Nat.id by lia.
    replace (0 <=? x - 1) with (1 <=? x) by lia.
    replace (x - 1 <? width g) with (x <=? width g) by lia.
    replace (0 <=? y - 1) with (1 <=? y) by lia.
    replace (y - 1 <? height g) with (y <=? height g) by lia.
    f_equal.
    destruct (1 <=? x), (x <=? width g), (1 <=? y), (y <=? height g); done.
Qed.

Lemma reads_zeros h w (m : matrix) :
  shape h w m →
  reads h w ((λ r : list Z, (λ _, 0) <$> r) <$> m) (λ _ _, 0).
Proof.
  intros [Hl Hr]. split; [split|].
  - by rewrite length_fmap.
  - apply Forall_fmap, Forall_lookup. intros i r Hi. simpl.
    rewrite length_fmap. apply (Forall_lookup_1 _ _ _ _ Hr Hi).
  - intros y x Hy Hx. unfold mat_read. rewrite list_lookup_fmap.
    destruct (m !! Z.to_nat y); simpl; [|done].
    rewrite list_lookup_fmap. by destruct (l !! Z.to_nat x).
Qed.

Lemma window_reads g padded (dy dx : Z) :
  grid_shape g →
  reads (S (S (Z.to_nat (height g)))) (S (S (Z.to_nat (width g)))) padded
    (λ y x, cell_value g (x - 1) (y - 1)) →
  -1 ≤ dy ≤ 1 → -1 ≤ dx ≤ 1 →
  reads (Z.to_nat (height g)) (Z.to_nat (width g))
    (np_slice2 padded (1 + dy) (1 + dy + height g) (1 + dx) (1 + dx + width g))
    (λ y x, cell_value g (x + dx) (y + dy)).
Proof.
  intros (Hw & Hh & _) Hr Hdy Hdx.
  rewrite <- (Z2Nat.id (height g)) at 2 by lia.
  rewrite <- (Z2Nat.id (width g)) at 2 by lia.
  eapply reads_ext; [eapply reads_slice2; [apply Hr|lia..]|].
  intros y x _ _. simpl. f_equal; lia.
Qed.

Lemma count_neighbors_reads g :
  grid_shape g →
  ∃ n, count_neighbors g = Ok n ∧
    reads (Z.to_nat (height g)) (Z.to_nat (width g)) n
      (λ y x, foldl (λ acc d, u8 (acc + cell_value g (x + d.1) (y + d.2)))
                0 moore).
Proof.
  intros Hg. pose proof Hg as (Hw & Hh & _).
  destruct (padded_reads g Hg) as (padded & Hp & Hr).
  unfold count_neighbors. rewrite Hp. simpl.
  eexists. split; [done|].
  repeat (apply reads_iadd; [|by apply window_reads; [done|done|lia..]]).
  apply reads_zeros. by apply grid_shape_shape.
Qed.

(** With cells that are 0 or 1 the [uint8] accumulator never wraps. *)
Lemma count_neighbors_moore g :
  grid_ok g →
  ∃ n, count_neighbors g = Ok n ∧
    reads (Z.to_nat (height g)) (Z.to_nat (width g)) n
      (λ y x, moore_sum g x y).
Proof.
  intros Hg. destruct (count_neighbors_reads g (proj1 Hg)) as (n & Hn & Hr).
  exists n. split; [done|].
  eapply reads_ext; [apply Hr|].
  intros y x _ _. unfold moore_sum, moore, u8. simpl.
  pose proof (λ a b, cell_value_binary g a b Hg) as Hb.
  pose proof (Hb (x + -1) (y + -1)). pose proof (Hb (x + 0) (y + -1)).
  pose proof (Hb (x + 1) (y + -1)). pose proof (Hb (x + -1) (y + 0)).
  pose proof (Hb (x + 1) (y + 0)). pose proof (Hb (x + -1) (y + 1)).
  pose proof (Hb (x + 0) (y + 1)). pose proof (Hb (x + 1) (y + 1)).
  repeat match goal with
  | |- context [?a mod 256] =>
      lazymatch a with
      | context [_ mod _] => fail
      | _ => rewrite (Z.mod_small a 256) by lia
      end
  end.
  lia.
Qed.

Lemma get_cell_in_range g x y :
  grid_shape g → 0 ≤ x < width g → 0 ≤ y < height g →
  get_cell g x y = Ok (negb (mat_read (cells g) y x =? 0)).
Proof.
  intros Hg Hx Hy. unfold get_cell.
  destruct (is_toroidal g) eqn:Ht.
  - rewrite normalise_toroidal by (done || lia). simpl.
    rewrite !Z.mod_small by lia. by rewrite np_get_in_range.
  - rewrite normalise_bounded by done.
    replace (in_bounds g x y) with true
      by (symmetry; apply in_bounds_spec; lia).
    simpl. by rewrite np_get_in_range.
Qed.

(** What [get_cell] answers is the truth value of [cell_value]. *)
Lemma get_cell_cell_value g x y :
  grid_shape g → get_cell g x y = Ok (negb (cell_value g x y =? 0)).
Proof.
  intros Hg. pose proof Hg as (Hw & Hh & _). unfold get_cell, cell_value.
  destruct (is_toroidal g) eqn:Ht.
  - rewrite normalise_toroidal by done. simpl.
    by rewrite np_get_in_range by (done || apply Z.mod_pos_bound; lia).
  - rewrite normalise_bounded by done.
    destruct (in_bounds g x y) eqn:E; [|done].
    apply in_bounds_spec in E as [? ?]. simpl. by rewrite np_get_in_range.
Qed.

Lemma cell_value_nonneg g x y : grid_ok g → 0 ≤ cell_value g x y.
Proof. intros Hg. destruct (cell_value_binary g x y Hg); lia. Qed.

(** C6: on a well-formed grid [count_neighbors] succeeds and its entry at
    row [y], column [x] is the sum of the eight Moore neighbours of
    [(x, y)], each neighbour read through the coordinate rule of the mode
    (wrapped to the opposite edge in toroidal mode, 0 off the grid
    otherwise).  In particular, in toroidal mode a live cell at [(0, y)]
    is counted for [(width-1, y)] and a live cell at [(width-1, y)] for
    [(0, y)]; in the other modes a coordinate off the grid counts 0. *)
Theorem count_neighbors_is_moore_sum (g : Grid) :
  grid_ok g →
  ∃ n, count_neighbors g = Ok n ∧
    shape (Z.to_nat (height g)) (Z.to_nat (width g)) n ∧
    (∀ x y, 0 ≤ x < width g → 0 ≤ y < height g →
       mat_read n y x = moore_sum g x y) ∧
    (wrap_mode g = "toroidal"%string → ∀ y, 0 ≤ y < height g →
       (mat_read (cells g) y 0 = 1 → 1 ≤ mat_read n y (width g - 1)) ∧
       (mat_read (cells g) y (width g - 1) = 1 → 1 ≤ mat_read n y 0)) ∧
    (wrap_mode g ≠ "toroidal"%string → ∀ x y,
       ¬ (0 ≤ x < width g ∧ 0 ≤ y < height g) → cell_value g x y = 0).
Proof.
  intros Hg. pose proof Hg as [(Hw & Hh & _) _].
  destruct (count_neighbors_moore g Hg) as (n & Hn & Hs & Hr).
  exists n. split; [done|]. split; [done|].
  assert (Hrd : ∀ x y, 0 ≤ x < width g → 0 ≤ y < height g →
                       mat_read n y x = moore_sum g x y).
  { intros x y Hx Hy. apply Hr; lia. }
  split; [done|]. split.
  - intros Ht%is_toroidal_true y Hy.
    pose proof (λ a b, cell_value_nonneg g a b Hg) as Hnn.
    split; intros Hlive.
    + rewrite Hrd by lia. unfold moore_sum, moore. simpl.
      assert (cell_value g (width g - 1 + 1) (y + 0) = 1) as E.
      { unfold cell_value. rewrite Ht.
        replace (width g - 1 + 1) with (width g) by lia.
        rewrite Z.mod_same, Z.add_0_r, Z.mod_small by lia. done. }
      pose proof (Hnn (width g - 1 + -1) (y + -1)).
      pose proof (Hnn (width g - 1 + 0) (y + -1)).
      pose proof (Hnn (width g - 1 + 1) (y + -1)).
      pose proof (Hnn (width g - 1 + -1) (y + 0)).
      pose proof (Hnn (width g - 1 + -1) (y + 1)).
      pose proof (Hnn (width g - 1 + 0) (y + 1)).
      pose proof (Hnn (width g - 1 + 1) (y + 1)).
      lia.
    + rewrite Hrd by lia. unfold moore_sum, moore. simpl.
      assert (cell_value g (0 + -1) (y + 0) = 1) as E.
      { unfold cell_value. rewrite Ht.
        replace ((0 + -1) mod width g) with (width g - 1)
          by (apply Z.mod_unique with (-1); lia).
        rewrite Z.add_0_r, Z.mod_small by lia. done. }
      pose proof (Hnn (0 + -1) (y + -1)).
      pose proof (Hnn (0 + 0) (y + -1)).
      pose proof (Hnn (0 + 1) (y + -1)).
      pose proof (Hnn (0 + 1) (y + 0)).
      pose proof (Hnn (0 + -1) (y + 1)).
      pose proof (Hnn (0 + 0) (y + 1)).
      pose proof (Hnn (0 + 1) (y + 1)).
      lia.
  - intros Ht%is_toroidal_false x y Hout. unfold cell_value. rewrite Ht.
    destruct (in_bounds g x y) eqn:E; [by apply in_bounds_spec in E|done].
Qed.

Lemma demo_torus_ok : grid_ok demo_torus.
Proof.
  split; [apply demo_torus_shape|].
  cbv [cells demo_torus demo_cells]. solve_binary.
Qed.

Lemma count_neighbors_is_moore_sum_witness :
  ∃ n, count_neighbors demo_torus = Ok n ∧ mat_read n 0 2 = 3.
Proof.
  destruct (count_neighbors_is_moore_sum demo_torus demo_torus_ok)
    as (n & Hn & _ & Hr & _).
  exists n. split; [done|]. by rewrite Hr by (simpl; lia).
Defined.

Lemma rule_spec c n :
  rule c n = 1 ↔ (c = 0 ∧ n = 3) ∨ (c = 1 ∧ (n = 2 ∨ n = 3)).
Proof.
  unfold rule.
  destruct (c =? 0) eqn:E0, (c =? 1) eqn:E1, (n =? 2) eqn:E2, (n =? 3) eqn:E3;
    simpl; bool_to_prop; split; intros; (done || lia).
Qed.

Lemma rule_binary c n : rule c n = 0 ∨ rule c n = 1.
Proof. unfold rule. destruct (_ || _); auto. Qed.

(** C1: on a well-formed grid [step] succeeds; the generation goes up by
    exactly 1, dimensions and mode stay, and a cell is alive afterwards
    exactly when, in the grid before the step, it was dead with 3 live
    neighbours or alive with 2 or 3, the neighbours being counted on the
    grid before the step. *)
Theorem step_applies_B3S23 (g : Grid) :
  grid_ok g →
  ∃ g', step g = Ok g' ∧
    generation g' = generation g + 1 ∧
    width g' = width g ∧ height g' = height g ∧
    wrap_mode g' = wrap_mode g ∧
    grid_ok g' ∧
    ∀ x y, 0 ≤ x < width g → 0 ≤ y < height g →
      (get_cell g' x y = Ok true ↔
         (get_cell g x y = Ok false ∧ moore_sum g x y = 3) ∨
         (get_cell g x y = Ok true ∧
            (moore_sum g x y = 2 ∨ moore_sum g x y = 3))).
Proof.
  intros Hg. pose proof Hg as [Hsh Hbin]. pose proof Hsh as (Hw & Hh & _).
  destruct (count_neighbors_moore g Hg) as (n & Hn & Hr).
  unfold step. rewrite Hn. simpl. eexists. split; [done|]. simpl.
  pose proof (reads_zip_with rule _ _ _ _ _ _
                (reads_self _ _ _ (grid_shape_shape g Hsh)) Hr) as Hnew.
  assert (Hsh' : grid_shape
    {| width := width g; height := height g; wrap_mode := wrap_mode g;
       cells := zip_with (zip_with rule) (cells g) n;
       generation := generation g + 1 |}).
  { destruct Hnew as [[? ?] _]. by repeat split. }
  split_and!; try done.
  { split; [done|]. eapply reads_binary; [apply Hnew|].
    intros. apply rule_binary. }
  intros x y Hx Hy. split.
  - rewrite (get_cell_in_range _ x y Hsh') by done. simpl.
    rewrite (get_cell_in_range g x y Hsh) by done.
    destruct Hnew as [_ Hnew]. rewrite Hnew by lia.
    intros Hlive. assert (rule (mat_read (cells g) y x) (moore_sum g x y) = 1) as E.
    { destruct (rule_binary (mat_read (cells g) y x) (moore_sum g x y)) as [E|E];
        [rewrite E in Hlive; done|done]. }
    apply rule_spec in E as [[-> ->]|[-> ?]]; [left|right]; done.
  - rewrite (get_cell_in_range _ x y Hsh') by done. simpl.
    rewrite (get_cell_in_range g x y Hsh) by done.
    destruct Hnew as [_ Hnew]. rewrite Hnew by lia.
    intros Hcase.
    assert (rule (mat_read (cells g) y x) (moore_sum g x y) = 1) as ->; [|done].
    apply rule_spec.
    destruct (cell_value_binary g x y Hg) as [E|E];
      unfold cell_value in E; destruct (is_toroidal g);
      rewrite ?Z.mod_small in E by lia;
      replace (in_bounds g x y) with true in E
        by (symmetry; apply in_bounds_spec; lia);
      rewrite E in *; simpl in Hcase;
      destruct Hcase as [[? ?]|[? ?]]; (done || auto).
Qed.

Lemma step_applies_B3S23_witness :
  ∃ g', step demo_torus = Ok g' ∧ generation g' = 1.
Proof.
  destruct (step_applies_B3S23 demo_torus demo_torus_ok)
    as (g' & Hstep & Hgen & _).
  exists g'. split; [done|]. by rewrite Hgen.
Defined.

(** ** Writing one cell *)

Lemma shape_mat_write h w m y x v :
  shape h w m → shape h w (mat_write m y x v).
Proof.
  intros [Hl Hr]. unfold mat_write. split; [by rewrite length_alter|].
  apply Forall_lookup. intros i r Hi.
  destruct (decide (i = Z.to_nat y)) as [->|Hne].
  - rewrite list_lookup_alter_eq in Hi.
    destruct (m !! Z.to_nat y) as [r0|] eqn:E; [|done].
    injection Hi as <-. rewrite length_insert.
    apply (Forall_lookup_1 _ _ _ _ Hr E).
  - rewrite list_lookup_alter_ne in Hi by done.
    apply (Forall_lookup_1 _ _ _ _ Hr Hi).
Qed.

Lemma mat_read_write_eq h w m y x v :
  shape h w m → 0 ≤ y < Z.of_nat h → 0 ≤ x < Z.of_nat w →
  mat_read (mat_write m y x v) y x = v.
Proof.
  intros Hs Hy Hx. unfold mat_read, mat_write.
  destruct (shape_lookup h w m (Z.to_nat y) Hs) as (r & Hr & Hlr); [lia|].
  rewrite list_lookup_alter_eq, Hr. simpl.
  by rewrite list_lookup_insert_eq by lia.
Qed.

Lemma mat_read_write_ne m y x v y' x' :
  0 ≤ y → 0 ≤ x → 0 ≤ y' → 0 ≤ x' → (y', x') ≠ (y, x) →
  mat_read (mat_write m y x v) y' x' = mat_read m y' x'.
Proof.
  intros Hy Hx Hy' Hx' Hne. unfold mat_read, mat_write.
  destruct (decide (Z.to_nat y = Z.to_nat y')) as [E|E].
  - rewrite <- E, list_lookup_alter_eq.
    destruct (m !! Z.to_nat y); simpl; [|done].
    rewrite list_lookup_insert_ne; [done|].
    intros E'. apply Hne. f_equal; lia.
  - by rewrite list_lookup_alter_ne.
Qed.

Lemma same_frame_refl g : same_frame g g.
Proof. by repeat split. Qed.

Lemma same_frame_trans g1 g2 g3 :
  same_frame g1 g2 → same_frame g2 g3 → same_frame g1 g3.
Proof. intros (?&?&?&?) (?&?&?&?). repeat split; congruence. Qed.

Lemma same_frame_normalise g g' x y :
  same_frame g g' → normalise g' x y = normalise g x y.
Proof.
  intros (Hw & Hh & Hm & _). unfold normalise, is_toroidal, in_bounds.
  by rewrite Hw, Hh, Hm.
Qed.

(** Where the coordinate rule sends a coordinate, if anywhere, lies in the
    grid. *)
Lemma normalise_total g x y :
  0 < width g → 0 < height g →
  normalise g x y = Ok None ∨
  ∃ cx cy, normalise g x y = Ok (Some (cx, cy)) ∧
           0 ≤ cx < width g ∧ 0 ≤ cy < height g.
Proof.
  intros Hw Hh. destruct (is_toroidal g) eqn:Ht.
  - right. rewrite normalise_toroidal by done.
    eexists _, _. split; [done|]. split; apply Z.mod_pos_bound; lia.
  - rewrite normalise_bounded by done.
    destruct (in_bounds g x y) eqn:E; [right|by left].
    apply in_bounds_spec in E. by eexists _, _.
Qed.

(** [set_cell] writes the designated cell and nothing else. *)
Lemma set_cell_spec g x y alive :
  grid_shape g →
  ∃ g', set_cell g x y alive = Ok g' ∧ same_frame g g' ∧ grid_shape g' ∧
    ∀ cx cy, 0 ≤ cx < width g → 0 ≤ cy < height g →
      (normalise g x y = Ok (Some (cx, cy)) →
         mat_read (cells g') cy cx = if alive then 1 else 0) ∧
      (normalise g x y ≠ Ok (Some (cx, cy)) →
         mat_read (cells g') cy cx = mat_read (cells g) cy cx).
Proof.
  intros Hg. pose proof Hg as (Hw & Hh & Hl & Hr). unfold set_cell.
  destruct (normalise_total g x y Hw Hh) as [->|(tx & ty & -> & Htx & Hty)].
  - exists g. simpl.
    split; [done|]. split; [apply same_frame_refl|]. split; [done|].
    intros cx cy _ _. by split.
  - simpl. rewrite np_set_in_range by done. simpl.
    eexists. split; [done|]. split; [by repeat split|].
    pose proof (shape_mat_write _ _ _ ty tx (if alive then 1 else 0)
                  (grid_shape_shape g Hg)) as [? ?].
    split; [by repeat split|].
    intros cx cy Hcx Hcy. simpl. split.
    + intros [= -> ->].
      eapply mat_read_write_eq; [by apply grid_shape_shape|lia..].
    + intros Hne. apply mat_read_write_ne; try lia. congruence.
Qed.

(** ** Loops *)

Lemma for_each_invariant {A S} (I : list A → S → Prop)
    (body : S → A → result S) (l : list A) (s0 : S) :
  I [] s0 →
  (∀ pre a s, a ∈ l → I pre s → ∃ s', body s a = Ok s' ∧ I (pre ++ [a]) s') →
  ∃ s', for_each l body s0 = Ok s' ∧ I l s'.
Proof.
  intros H0 Hstep.
  assert (∀ suf pre s, (∀ a, a ∈ suf → a ∈ l) → I pre s →
            ∃ s', for_each suf body s = Ok s' ∧ I (pre ++ suf) s')
    as Hgen; [|by apply (Hgen l [] s0)].
  induction suf as [|a suf IH]; intros pre s Hin Hs; simpl.
  - exists s. by rewrite app_nil_r.
  - destruct (Hstep pre a s) as (s1 & -> & H1); [apply Hin; left|done|].
    simpl.
    destruct (IH (pre ++ [a]) s1) as (s' & Hs' & HI);
      [intros b Hb; apply Hin; by right|done|].
    exists s'. split; [done|]. by rewrite <- app_assoc in HI.
Qed.

(** ** C7: pattern placement *)

Lemma stamped_ext g data x y (V V' : Z → Z → Prop) g' :
  (∀ py px, V py px ↔ V' py px) →
  stamped g data x y V g' → stamped g data x y V' g'.
Proof.
  intros HV (Hf & Hs & Hc). split; [done|]. split; [done|].
  intros cx cy Hx Hy. destruct (Hc cx cy Hx Hy) as (H1 & H2 & H3).
  split_and!; [| |done].
  - intros (py & px & Hv & Hl). apply H1. exists py, px. by rewrite HV.
  - intros Hn. apply H2. intros (py & px & Hv & Hl). apply Hn.
    exists py, px. by rewrite <- HV.
Qed.

Lemma stamped_start g data x y :
  grid_shape g → stamped g data x y (λ _ _, False) g.
Proof.
  intros Hg. split; [apply same_frame_refl|]. split; [done|].
  intros cx cy _ _. split_and!; [by intros (? & ? & [] & _)|done|by right].
Qed.

(** One iteration of the inner loop of [load_pattern]. *)
Lemma stamped_visit g data x y (V : Z → Z → Prop) g' (py px : Z) :
  stamped g data x y V g' →
  ∃ g'',
    (if negb (data py px =? 0) then set_cell g' (x + px) (y + py) true
     else Ok g') = Ok g'' ∧
    stamped g data x y (λ qy qx, V qy qx ∨ (qy = py ∧ qx = px)) g''.
Proof.
  intros (Hf & Hs & Hc).
  destruct (data py px =? 0) eqn:E; simpl; bool_to_prop.
  - exists g'. split; [done|]. split; [done|]. split; [done|].
    intros cx cy Hx Hy. destruct (Hc cx cy Hx Hy) as (H1 & H2 & H3).
    split_and!; [| |done].
    + intros (qy & qx & [Hv|[-> ->]] & Hl); [apply H1; eauto|].
      by destruct Hl.
    + intros Hn. apply H2. intros (qy & qx & Hv & Hl). apply Hn. eauto.
  - destruct (set_cell_spec g' (x + px) (y + py) true Hs)
      as (g'' & Hset & Hf' & Hs' & Hw).
    exists g''. split; [done|].
    split; [by eapply same_frame_trans|]. split; [done|].
    intros cx cy Hx Hy. destruct (Hc cx cy Hx Hy) as (H1 & H2 & H3).
    pose proof Hf as (Ew & Eh & _).
    destruct (Hw cx cy) as [Hhit Hmiss]; [lia..|].
    rewrite (same_frame_normalise g g') in Hhit, Hmiss by done.
    destruct (decide (normalise g (x + px) (y + py) = Ok (Some (cx, cy))))
      as [Hn|Hn].
    + split_and!; [auto| |auto]. intros Hnone. exfalso. apply Hnone.
      exists py, px. split; [by right|]. by split.
    + rewrite Hmiss by done. split_and!; [| |done].
      * intros (qy & qx & [Hv|[-> ->]] & Hl); [apply H1; eauto|].
        by destruct Hl.
      * intros Hnone. apply H2. intros (qy & qx & Hv & Hl).
        apply Hnone. eauto.
Qed.

(** The two loops of [load_pattern], for a pattern read through [data]. *)
Lemma stamp_loops g (data : matrix) x y :
  grid_shape g →
  ∃ g',
    for_each (range (nrows data)) (λ g py,
      for_each (range (ncols data)) (λ g px,
        if negb (mat_read data py px =? 0)
        then set_cell g (x + px) (y + py) true
        else Ok g) g) g = Ok g' ∧
    stamped g (mat_read data) x y
      (λ py px, 0 ≤ py < nrows data ∧ 0 ≤ px < ncols data) g'.
Proof.
  intros Hg.
  destruct (for_each_invariant
    (λ rows g', stamped g (mat_read data) x y
       (λ py px, py ∈ rows ∧ 0 ≤ px < ncols data) g')
    (λ g py,
      for_each (range (ncols data)) (λ g px,
        if negb (mat_read data py px =? 0)
        then set_cell g (x + px) (y + py) true
        else Ok g) g)
    (range (nrows data)) g) as (g' & Hrun & Hinv).
  - eapply stamped_ext; [|by apply stamped_start].
    intros py px. split; [done|]. intros [H _]. by apply elem_of_nil in H.
  - intros rows py g1 _ H1.
    destruct (for_each_invariant
      (λ cols g', stamped g (mat_read data) x y
         (λ qy qx, (qy ∈ rows ∧ 0 ≤ qx < ncols data) ∨ (qy = py ∧ qx ∈ cols)) g')
      (λ g px,
        if negb (mat_read data py px =? 0)
        then set_cell g (x + px) (y + py) true
        else Ok g)
      (range (ncols data)) g1) as (g2 & Hrun & Hinv).
    + eapply stamped_ext; [|apply H1].
      intros qy qx. split; [by left|].
      intros [H|[_ H]]; [done|by apply elem_of_nil in H].
    + intros cols px g2 _ H2.
      destruct (stamped_visit _ _ _ _ _ _ py px H2) as (g3 & Hv & H3).
      exists g3. split; [done|]. eapply stamped_ext; [|apply H3].
      intros qy qx. simpl. rewrite elem_of_app, list_elem_of_singleton.
      tauto.
    + exists g2. split; [done|]. eapply stamped_ext; [|apply Hinv].
      intros qy qx. simpl. rewrite elem_of_app, list_elem_of_singleton.
      unfold range. rewrite elem_of_seqZ. intuition (subst; lia || auto).
  - exists g'. split; [done|]. eapply stamped_ext; [|apply Hinv].
    intros py px. simpl. unfold range. rewrite elem_of_seqZ. intuition lia.
Qed.

(** ** Quarter turns *)

Lemma reads_flip0 h w m f :
  reads h w m f →
  reads h w (np_flip0 m) (λ y x, f (Z.of_nat h - 1 - y) x).
Proof.
  intros [[Hl Hr] Hf]. unfold np_flip0. split; [split|].
  - by rewrite length_reverse.
  - by apply Forall_reverse.
  - intros y x Hy Hx. rewrite <- Hf by lia. unfold mat_read.
    rewrite reverse_lookup by lia. do 3 f_equal. lia.
Qed.

Lemma reads_flip1 h w m f :
  reads h w m f →
  reads h w (np_flip1 m) (λ y x, f y (Z.of_nat w - 1 - x)).
Proof.
  intros [[Hl Hr] Hf]. unfold np_flip1. split; [split|].
  - by rewrite length_fmap.
  - apply Forall_fmap, Forall_lookup. intros i r Hi. simpl.
    rewrite length_reverse. apply (Forall_lookup_1 _ _ _ _ Hr Hi).
  - intros y x Hy Hx. rewrite <- Hf by lia. unfold mat_read.
    rewrite list_lookup_fmap.
    destruct (lookup_lt_is_Some_2 m (Z.to_nat y)) as [r Hrw]; [lia|].
    rewrite Hrw. simpl.
    pose proof (Forall_lookup_1 _ _ _ _ Hr Hrw) as Hlr. simpl in Hlr.
    rewrite reverse_lookup by lia. do 2 f_equal. lia.
Qed.

Lemma reads_transpose h w m f :
  reads h w m f → (0 < h)%nat →
  reads w h (np_transpose m) (λ y x, f x y).
Proof.
  intros [[Hl Hr] Hf] Hh. unfold np_transpose.
  assert (length (hd [] m) = w) as ->.
  { destruct m as [|r m]; [simpl in Hl; lia|].
    by apply Forall_cons in Hr as [? _]. }
  split; [split|].
  - by rewrite length_fmap, length_seq.
  - apply Forall_fmap, Forall_lookup. intros i j Hi. simpl.
    by rewrite length_fmap.
  - intros y x Hy Hx. rewrite <- Hf by lia. unfold mat_read.
    rewrite list_lookup_fmap, lookup_seq_lt by lia. simpl.
    rewrite list_lookup_fmap.
    destruct (lookup_lt_is_Some_2 m (Z.to_nat x)) as [r Hrw]; [lia|].
    rewrite Hrw. simpl.
    pose proof (Forall_lookup_1 _ _ _ _ Hr Hrw) as Hlr. simpl in Hlr.
    destruct (lookup_lt_is_Some_2 r (Z.to_nat y)) as [v Hv]; [lia|].
    by rewrite Hv.
Qed.

Lemma shape_nrows h w m : shape h w m → nrows m = Z.of_nat h.
Proof. intros [<- _]. done. Qed.

Lemma shape_ncols h w m : shape h w m → (0 < h)%nat → ncols m = Z.of_nat w.
Proof.
  intros [Hl Hr] Hh. unfold ncols.
  destruct m as [|r m]; [simpl in Hl; lia|].
  apply Forall_cons in Hr as [<- _]. done.
Qed.

(** What [load_pattern] stamps is the pattern turned clockwise. *)
Lemma rot90_turned h w p rotation :
  shape h w p → (0 < h)%nat → (0 < w)%nat →
  rotation ∈ [0; 90; 180; 270] →
  reads (Z.to_nat (turned_rows p rotation)) (Z.to_nat (turned_cols p rotation))
    (np_rot90 p (- ((rotation / 90) mod 4))) (turned p rotation).
Proof.
  intros Hs Hh Hw Hrot.
  pose proof (reads_self _ _ _ Hs) as Hr.
  unfold turned_rows, turned_cols, turned.
  rewrite (shape_nrows _ _ _ Hs), (shape_ncols _ _ _ Hs Hh).
  rewrite !elem_of_cons in Hrot.
  destruct Hrot as [->|[->|[->|[->|Hrot]]]]; [..|by apply elem_of_nil in Hrot];
    simpl; rewrite !Nat2Z.id.
  - done.
  - change (np_rot90 p _) with (np_flip1 (np_transpose p)).
    eapply reads_ext; [apply reads_flip1, reads_transpose; done|]. done.
  - change (np_rot90 p _) with (np_flip1 (np_flip0 p)).
    eapply reads_ext; [apply reads_flip1, reads_flip0; done|]. done.
  - change (np_rot90 p _) with (np_transpose (np_flip1 p)).
    eapply reads_ext; [apply reads_transpose; [apply reads_flip1|]; done|].
    done.
Qed.

(** A pattern without cells stays without cells when turned. *)
Lemma rot90_empty h w p rotation :
  shape h w p → (h = 0 ∨ w = 0)%nat →
  rotation ∈ [0; 90; 180; 270] →
  (nrows (np_rot90 p (- ((rotation / 90) mod 4))) = 0 ∨
   ncols (np_rot90 p (- ((rotation / 90) mod 4))) = 0) ∧
  (turned_rows p rotation = 0 ∨ turned_cols p rotation = 0).
Proof.
  intros Hs Hdeg Hrot.
  assert (ncols p = 0) as Hc.
  { destruct Hs as [Hl Hr]. unfold ncols.
    destruct p as [|r p]; [done|].
    apply Forall_cons in Hr as [Hr _]. simpl in *. lia. }
  assert (np_transpose p = []) as Ht.
  { unfold np_transpose. unfold ncols in Hc.
    by replace (length (hd [] p)) with 0%nat by lia. }
  assert (np_transpose (np_flip1 p) = []) as Ht'.
  { unfold np_transpose, np_flip1.
    replace (length (hd [] (reverse <$> p))) with 0%nat; [done|].
    unfold ncols in Hc. destruct p as [|r p]; [done|]. simpl in *.
    rewrite length_reverse. lia. }
  assert (ncols (np_flip1 (np_flip0 p)) = 0) as H180.
  { unfold ncols, np_flip1, np_flip0.
    destruct (reverse <$> reverse p) as [|r q] eqn:E; [done|]. simpl.
    assert (r ∈ reverse <$> reverse p) as Hin by (rewrite E; left).
    apply list_elem_of_fmap in Hin as (r0 & -> & Hin).
    rewrite elem_of_reverse in Hin. rewrite length_reverse.
    destruct Hs as [Hl Hr]. rewrite Forall_forall in Hr.
    specialize (Hr r0 Hin). simpl in Hr.
    destruct Hdeg as [->| ->]; [|lia].
    destruct p; [by apply elem_of_nil in Hin|done]. }
  unfold turned_rows, turned_cols.
  rewrite !elem_of_cons in Hrot.
  destruct Hrot as [->|[->|[->|[->|Hrot]]]]; [..|by apply elem_of_nil in Hrot];
    simpl.
  - split; by right.
  - change (np_rot90 p _) with (np_flip1 (np_transpose p)). rewrite Ht.
    split; by left.
  - change (np_rot90 p _) with (np_flip1 (np_flip0 p)). split; by right.
  - change (np_rot90 p _) with (np_transpose (np_flip1 p)). rewrite Ht'.
    split; by left.
Qed.

(** C7: [load_pattern] on a grid of positive dimensions, with a
    rectangular pattern and a rotation of 0, 90, 180 or 270 degrees,
    succeeds and changes only cells; for every cell of the grid: a cell
    alive before is alive afterwards, a cell on which a live cell of the
    clockwise-turned pattern lands under the coordinate rule of [set_cell]
    is alive (1) afterwards, and a cell on which no live pattern cell lands
    keeps its value, whatever the pattern's dead cells cover. *)
Theorem load_pattern_is_a_stamp (g : Grid) (p : matrix) (h w : nat)
    (x y rotation : Z) :
  grid_shape g → shape h w p → rotation ∈ [0; 90; 180; 270] →
  ∃ g', load_pattern g p x y rotation = Ok g' ∧
    same_frame g g' ∧ grid_shape g' ∧
    ∀ cx cy, 0 ≤ cx < width g → 0 ≤ cy < height g →
      (mat_read (cells g) cy cx ≠ 0 → mat_read (cells g') cy cx ≠ 0) ∧
      (covered g p x y rotation cx cy → mat_read (cells g') cy cx = 1) ∧
      (¬ covered g p x y rotation cx cy →
         mat_read (cells g') cy cx = mat_read (cells g) cy cx).
Proof.
  intros Hg Hs Hrot. unfold load_pattern.
  set (data := np_rot90 p (- ((rotation / 90) mod 4))).
  destruct (stamp_loops g data x y Hg) as (g' & Hrun & Hf & Hg' & Hc).
  exists g'. split; [done|]. split; [done|]. split; [done|].
  assert (Hcov : ∀ cx cy, covered g p x y rotation cx cy ↔
    ∃ py px, (0 ≤ py < nrows data ∧ 0 ≤ px < ncols data) ∧
             lands g (mat_read data) x y py px cx cy).
  { intros cx cy. unfold covered, lands.
    destruct (decide (h = 0 ∨ w = 0)%nat) as [Hdeg|Hpos].
    - destruct (rot90_empty h w p rotation Hs Hdeg Hrot) as [Hd Ht].
      fold data in Hd. split.
      + intros (py & px & ? & ? & _). lia.
      + intros (py & px & [? ?] & _). lia.
    - pose proof (rot90_turned h w p rotation Hs) as Hr.
      fold data in Hr. destruct Hr as [Hsh Hrd]; [lia..|done|].
      assert (0 < turned_rows p rotation) as Hpr.
      { unfold turned_rows.
        rewrite (shape_nrows _ _ _ Hs), (shape_ncols _ _ _ Hs) by lia.
        destruct (_ || _); lia. }
      pose proof (shape_nrows _ _ _ Hsh) as Hnr.
      pose proof (shape_ncols _ _ _ Hsh) as Hnc.
      rewrite Z2Nat.id in Hnr by lia.
      assert (0 ≤ turned_cols p rotation).
      { unfold turned_cols, nrows, ncols. destruct (_ || _); lia. }
      rewrite Z2Nat.id in Hnc by lia. rewrite Hnr, Hnc by lia.
      split; intros (py & px & H1 & H2).
      + destruct H2 as (Hpx & Hne & Hn). exists py, px.
        rewrite Hrd by lia. done.
      + destruct H1 as [Hpy Hpx], H2 as [Hne Hn]. exists py, px.
        rewrite Hrd in Hne by lia. done. }
  intros cx cy Hx Hy. destruct (Hc cx cy Hx Hy) as (H1 & H2 & H3).
  split_and!.
  - intros Hlive. destruct H3 as [->| ->]; [lia|done].
  - intros Hcv. apply H1. by apply Hcov.
  - intros Hcv. apply H2. by rewrite <- Hcov.
Qed.

Lemma load_pattern_is_a_stamp_witness :
  ∃ g', load_pattern demo_torus glider 2 1 90 = Ok g'
        ∧ mat_read (cells g') 0 0 ≠ 0.
Proof.
  assert (Hs : shape 3 3 glider) by (split; [done|repeat constructor]).
  assert (Hr : 90 ∈ [0; 90; 180; 270]) by (right; left).
  destruct (load_pattern_is_a_stamp demo_torus glider 3 3 2 1 90
              demo_torus_shape Hs Hr) as (g' & Hrun & _ & _ & Hc).
  exists g'. split; [done|].
  destruct (Hc 0 0) as (Hkeep & _); [simpl; lia..|].
  by apply Hkeep.
Defined.

(** ** C8: region extraction *)

(** C8 (the code at the failing input): the region requested from a 3x3
    array is the square of side 3 at [(-5, -5)], which lies off the array,
    so the trimmed region has no live cell and the claim promises the 1x1
    dead array.  The lower bounds are clamped to 0 but the upper bounds
    come out as -2, which the slice [grid_cells[0:-2, 0:-2]] counts from
    the end: the live cell at the origin is returned. *)
Theorem extract_region_negative_stop :
  extract_region [[1; 0; 0]; [0; 0; 0]; [0; 0; 0]] (-5) (-5) 3 3 = Ok [[1]].
Proof. reflexivity. Qed.

(** ** C3 and C9: the counterexamples *)

(** C3 (counterexample): an RLE text of three dead cells on a declared
    3x2 canvas decodes to that canvas, and a plaintext of dead markers to
    an array of the size of the text; neither is the 1x1 array. *)
Lemma dead_patterns_keep_their_size :
  fst <$> parse_rle (lit "x = 3, y = 2" ++ [LF] ++ lit "3b!")
    = Ok [[0; 0; 0]; [0; 0; 0]] ∧
  fst <$> parse_cells (lit "..." ++ [LF] ++ lit "..")
    = Ok [[0; 0; 0]; [0; 0; 0]].
Proof. split; reflexivity. Qed.

(** C9 (counterexample): a description made of one word of 71 characters
    gives a bare '#C' line followed by a line of 74 characters, and a name
    of 80 characters a '#N' line of 83. *)
Lemma long_words_are_not_wrapped :
  len <$> to_rle_lines [[1]] [] [] (replicate 71 "a"%char) = [2; 74; 27; 2] ∧
  len <$> to_rle_lines [[1]] (replicate 80 "a"%char) [] [] = [83; 27; 2].
Proof. split; reflexivity. Qed.

(** ** C9: line lengths *)

Lemma len_app {A} (l k : list A) : len (l ++ k) = len l + len k.
Proof. unfold len. rewrite length_app. lia. Qed.

Lemma len_nonneg {A} (l : list A) : 0 ≤ len l.
Proof. unfold len. lia. Qed.

Lemma wrap_fold (s : pystr) (lines : list pystr) (cur : pystr) :
  Forall (λ l, len l ≤ 70) lines → len cur < 70 →
  let st := foldl wrap_step (lines, cur) s in
  Forall (λ l, len l ≤ 70) st.1 ∧ len st.2 < 70 ∧
  concat st.1 ++ st.2 = concat lines ++ cur ++ s.
Proof.
  revert lines cur. induction s as [|c s IH]; intros lines cur Hl Hc; simpl.
  - by rewrite app_nil_r.
  - assert (wrap_step (lines, cur) c =
            if 70 <=? len (cur ++ [c]) then (lines ++ [cur ++ [c]], [])
            else (lines, cur ++ [c])) as -> by done.
    destruct (70 <=? len (cur ++ [c])) eqn:E; bool_to_prop.
    + rewrite len_app in E. change (len [c]) with 1 in E.
      destruct (IH (lines ++ [cur ++ [c]]) []) as (H1 & H2 & H3).
      * apply Forall_app. split; [done|]. constructor; [|done].
        rewrite len_app. change (len [c]) with 1. lia.
      * done.
      * split; [done|]. split; [done|]. rewrite H3.
        rewrite concat_app. simpl. by rewrite !app_nil_r, <- !app_assoc.
    + destruct (IH lines (cur ++ [c])) as (H1 & H2 & H3); [done..|].
      split; [done|]. split; [done|]. rewrite H3. by rewrite <- !app_assoc.
Qed.

(** The body is cut into lines of at most 70 characters, and nothing is
    lost or added in the cutting. *)
Lemma wrap_body_spec (s : pystr) :
  Forall (λ l, len l ≤ 70) (wrap_body s) ∧ concat (wrap_body s) = s.
Proof.
  unfold wrap_body.
  destruct (wrap_fold s [] []) as (H1 & H2 & H3); [done..|].
  simpl in H3. destruct (foldl wrap_step ([], []) s) as [lines cur].
  simpl in *. destruct cur as [|c cur]; simpl.
  - by rewrite app_nil_r in H3.
  - split.
    + apply Forall_app. split; [done|]. constructor; [lia|done].
    + rewrite concat_app. simpl. by rewrite app_nil_r.
Qed.

Lemma comment_line_snoc ws w :
  comment_line (ws ++ [w]) = comment_line ws ++ lit " " ++ w.
Proof.
  unfold comment_line. rewrite fmap_app, concat_app. simpl.
  by rewrite ?app_nil_r, <- ?app_assoc.
Qed.

Lemma comment_line_bare ws : comment_line ws = lit "#C" → ws = [].
Proof.
  destruct ws as [|w ws]; [done|]. unfold comment_line. simpl.
  intros H. apply (f_equal length) in H. simpl in H. lia.
Qed.

Lemma describe_fold (words : list pystr) (groups : list (list pystr))
    (cur : list pystr) :
  let st := foldl describe_step (comment_line <$> groups, comment_line cur)
                  words in
  ∃ groups' cur',
    st = (comment_line <$> groups', comment_line cur') ∧
    concat groups' ++ cur' = concat groups ++ cur ++ words ∧
    (Forall (λ w, len w ≤ 67) words →
     Forall (λ l, len l ≤ 70) (comment_line <$> groups) →
     len (comment_line cur) ≤ 70 →
     Forall (λ l, len l ≤ 70) (comment_line <$> groups') ∧
     len (comment_line cur') ≤ 70).
Proof.
  revert groups cur.
  induction words as [|w words IH]; intros groups cur; simpl.
  - exists groups, cur. by rewrite app_nil_r.
  - assert (describe_step (comment_line <$> groups, comment_line cur) w =
            if 70 <? len (comment_line cur) + len w + 1
            then ((comment_line <$> groups) ++ [comment_line cur],
                  lit "#C " ++ w)
            else (comment_line <$> groups, comment_line cur ++ lit " " ++ w))
      as -> by done.
    destruct (70 <? len (comment_line cur) + len w + 1) eqn:E; bool_to_prop.
    + replace (lit "#C " ++ w) with (comment_line [w])
        by (unfold comment_line; simpl; rewrite app_nil_r; done).
      replace ((comment_line <$> groups) ++ [comment_line cur])
        with (comment_line <$> (groups ++ [cur])) by (by rewrite fmap_app).
      destruct (IH (groups ++ [cur]) [w]) as (g' & c' & -> & Hc & Hlen).
      exists g', c'. split; [done|]. split.
      * rewrite Hc, concat_app. simpl. by rewrite app_nil_r, <- !app_assoc.
      * intros Hw Hg Hcur. apply Forall_cons in Hw as [Hw Hws].
        apply Hlen; [done| |].
        -- rewrite fmap_app. apply Forall_app. split; [done|].
           by constructor.
        -- unfold comment_line. simpl. rewrite app_nil_r.
           unfold len in *. simpl. lia.
    + rewrite <- comment_line_snoc.
      destruct (IH groups (cur ++ [w])) as (g' & c' & -> & Hc & Hlen).
      exists g', c'. split; [done|]. split.
      * rewrite Hc. by rewrite <- !app_assoc.
      * intros Hw Hg Hcur. apply Forall_cons in Hw as [Hw Hws].
        apply Hlen; [done..|].
        rewrite comment_line_snoc, !len_app.
        change (len (lit " ")) with 1. lia.
Qed.

(** The description is laid out in '#C' lines of whole words, in order;
    the lines have at most 70 characters when no word has more than 67. *)
Lemma wrap_description_spec (description : pystr) :
  ∃ groups,
    wrap_description description = comment_line <$> groups ∧
    concat groups = py_split description ∧
    (Forall (λ w, len w ≤ 67) (py_split description) →
     Forall (λ l, len l ≤ 70) (wrap_description description)).
Proof.
  unfold wrap_description.
  destruct (describe_fold (py_split description) [] [])
    as (groups & cur & Hst & Hc & Hlen).
  simpl in Hst, Hc. change (comment_line []) with (lit "#C") in *.
  rewrite Hst. simpl. unfold pystr_eqb. case_bool_decide as E.
  - apply comment_line_bare in E as ->. rewrite app_nil_r in Hc.
    exists groups. split; [done|]. split; [done|].
    intros Hw. by apply Hlen.
  - exists (groups ++ [cur]). split; [by rewrite fmap_app|]. split.
    + rewrite concat_app. simpl. by rewrite app_nil_r.
    + intros Hw. destruct (Hlen Hw) as [H1 H2]; [done..|].
      apply Forall_app. split; [done|]. by constructor.
Qed.

(** C9 (as the code has it): the body of the output is cut into lines of
    at most 70 characters whatever the tokens, and cutting loses nothing.
    The description is laid out in '#C' lines made of whole words, which
    have at most 70 characters provided no word has more than 67; a longer
    word is not split.  The '#N' and '#O' lines are not wrapped.  So every
    line of the output has at most 70 characters when the name, the author
    and every word of the description have at most 67 and the header line
    fits. *)
Theorem to_rle_line_lengths (pattern : matrix)
    (name author description : pystr) :
  Forall (λ l, len l ≤ 70) (wrap_body (rle_body pattern)) ∧
  concat (wrap_body (rle_body pattern)) = rle_body pattern ∧
  (∃ groups,
     wrap_description description = comment_line <$> groups ∧
     concat groups = py_split description) ∧
  (Forall (λ w, len w ≤ 67) (py_split description) →
   Forall (λ l, len l ≤ 70) (wrap_description description)) ∧
  (len name ≤ 67 → len author ≤ 67 →
   Forall (λ w, len w ≤ 67) (py_split description) →
   len (rle_header pattern) ≤ 70 →
   Forall (λ l, len l ≤ 70) (to_rle_lines pattern name author description)).
Proof.
  destruct (wrap_body_spec (rle_body pattern)) as [Hb1 Hb2].
  destruct (wrap_description_spec description) as (groups & Hg1 & Hg2 & Hg3).
  split; [done|]. split; [done|]. split; [by exists groups|].
  split; [done|].
  intros Hn Ha Hw Hh. unfold to_rle_lines.
  repeat apply Forall_app_2.
  - destruct name; simpl; [done|]. constructor; [|done].
    unfold len in *. simpl in *. lia.
  - destruct author; simpl; [done|]. constructor; [|done].
    unfold len in *. simpl in *. lia.
  - destruct description; simpl; [done|]. by apply Hg3.
  - by constructor.
  - done.
Qed.

Lemma to_rle_line_lengths_witness :
  Forall (λ l, len l ≤ 70)
    (to_rle_lines glider (lit "Glider") (lit "R. K. Guy")
       (lit "The smallest spaceship.")).
Proof.
  pose proof (to_rle_line_lengths glider (lit "Glider") (lit "R. K. Guy")
                (lit "The smallest spaceship.")) as (_ & _ & _ & _ & H).
  apply H; [by vm_compute..| |by vm_compute].
  vm_compute. repeat constructor; by vm_compute.
Defined.

(** ** Decoding never fails on ASCII text *)

Lemma np_set_shape h w m y x v :
  shape h w m → 0 ≤ y < Z.of_nat h → 0 ≤ x < Z.of_nat w →
  np_set m y x v = Ok (mat_write m y x v).
Proof.
  intros Hs Hy Hx. unfold np_set.
  rewrite (shape_nrows _ _ _ Hs), (shape_ncols _ _ _ Hs) by lia.
  by rewrite !np_index_in_range by done.
Qed.

Lemma reads_mat_write h w m f y x v :
  reads h w m f → 0 ≤ y < Z.of_nat h → 0 ≤ x < Z.of_nat w →
  reads h w (mat_write m y x v)
    (λ r c, if (r =? y) && (c =? x) then v else f r c).
Proof.
  intros [Hs Hf] Hy Hx. split; [by apply shape_mat_write|].
  intros r c Hr Hc.
  destruct ((r =? y) && (c =? x)) eqn:E; bool_to_prop.
  - subst. by eapply mat_read_write_eq.
  - rewrite mat_read_write_ne by (lia || (intros [= ? ?]; lia)). by apply Hf.
  - rewrite mat_read_write_ne by (lia || (intros [= ? ?]; lia)). by apply Hf.
Qed.

(** A run of [n] live cells from the cursor: the cursor moves by [n], and
    the cells of the run that are on the canvas are marked. *)
Lemma mark_run_reads (n : nat) (W H x y : Z) data f :
  0 ≤ x → 0 ≤ y →
  reads (Z.to_nat H) (Z.to_nat W) data f →
  ∃ data', mark_run n W H x y data = Ok (x + Z.of_nat n, data') ∧
    reads (Z.to_nat H) (Z.to_nat W) data'
      (λ r c, if (r =? y) && (x <=? c) && (c <? x + Z.of_nat n) then 1
              else f r c).
Proof.
  revert x data f. induction n as [|n IH]; intros x data f Hx Hy Hr.
  - exists data. simpl. rewrite Z.add_0_r. split; [done|].
    eapply reads_ext; [apply Hr|]. intros r c _ _. simpl.
    destruct (r =? y); simpl; [|done].
    destruct (x <=? c) eqn:E1, (c <? x) eqn:E2; bool_to_prop; try done. lia.
  - simpl.
    destruct ((y <? H) && (x <? W)) eqn:E.
    + bool_to_prop.
      rewrite (np_set_shape _ _ _ _ _ _ (proj1 Hr)) by lia. simpl.
      destruct (IH (x + 1) _ _ ltac:(lia) Hy
                  (reads_mat_write _ _ _ _ y x 1 Hr ltac:(lia) ltac:(lia)))
        as (data' & Hm & Hr').
      exists data'. split.
      * rewrite Hm. do 2 f_equal. lia.
      * eapply reads_ext; [apply Hr'|]. intros r c _ _. simpl.
        replace (x + 1 + Z.of_nat n) with (x + Z.of_nat (S n)) by lia.
        destruct (r =? y) eqn:E1, (c =? x) eqn:E2, (x + 1 <=? c) eqn:E3,
          (x <=? c) eqn:E4, (c <? x + Z.of_nat (S n)) eqn:E5;
          simpl; bool_to_prop; try done; lia.
    + simpl.
      destruct (IH (x + 1) data f ltac:(lia) Hy Hr) as (data' & Hm & Hr').
      exists data'. split.
      * rewrite Hm. do 2 f_equal. lia.
      * split; [apply Hr'|]. intros r c Hrr Hc. destruct Hr' as [_ Hr'].
        rewrite Hr' by done.
        replace (x + 1 + Z.of_nat n) with (x + Z.of_nat (S n)) by lia.
        apply andb_false_iff in E.
        destruct (r =? y) eqn:E1, (x + 1 <=? c) eqn:E3,
          (x <=? c) eqn:E4, (c <? x + Z.of_nat (S n)) eqn:E5;
          simpl; bool_to_prop; try done; try lia.
        all: destruct E; bool_to_prop; lia.
Qed.

Lemma py_int_decimal (s : pystr) :
  forallb is_decimal s = true → s ≠ [] →
  ∃ n, py_int s = Ok n ∧ 0 ≤ n.
Proof.
  intros Hd Hne. unfold py_int, pystr_eqb. rewrite Hd.
  rewrite bool_decide_eq_false_2 by done. simpl.
  eexists. split; [done|].
  assert (∀ acc, 0 ≤ acc →
            0 ≤ foldl (λ acc c, 10 * acc + (code c - 48)) acc s) as H;
    [|by apply H].
  clear Hne. induction s as [|c s IH]; intros acc Hacc; simpl; [done|].
  simpl in Hd. bool_to_prop. apply IH; [done|].
  unfold is_decimal in *. bool_to_prop. lia.
Qed.

Lemma pending_count_decimal (s : pystr) :
  forallb is_decimal s = true → ∃ n, pending_count s = Ok n ∧ 0 ≤ n.
Proof.
  intros Hd. unfold pending_count. destruct s as [|c s]; simpl.
  - exists 1. split; [done|lia].
  - by apply py_int_decimal.
Qed.

Lemma ascii_isdigit c : is_ascii c = true → py_isdigit c = is_decimal c.
Proof.
  unfold is_ascii, py_isdigit. intros H. bool_to_prop.
  replace (code c =? 178) with false by lia.
  replace (code c =? 179) with false by lia.
  replace (code c =? 185) with false by lia.
  by rewrite !orb_false_r.
Qed.

Lemma decode_total (W H : Z) (chars : pystr) (st : rle_state) :
  forallb is_ascii chars = true → decoding W H st →
  ∃ st', decode W H chars st = Ok st' ∧ decoding W H st'.
Proof.
  revert st. induction chars as [|c chars IH]; intros st Ha Hst; simpl.
  - by exists st.
  - simpl in Ha. bool_to_prop.
    pose proof Hst as (Hx & Hy & Hd & Hs).
    rewrite ascii_isdigit by done.
    destruct (is_decimal c) eqn:Ed.
    { apply IH; [done|]. unfold decoding. simpl. split_and!; try done.
      rewrite forallb_app, Hd. simpl. by rewrite Ed. }
    destruct (pending_count_decimal _ Hd) as (n & Hn & Hn0).
    destruct (Ascii.eqb c "b") eqn:Eb.
    { rewrite Hn. simpl. apply IH; [done|].
      unfold decoding. simpl. split_and!; done || lia. }
    destruct (Ascii.eqb c "o") eqn:Eo.
    { rewrite Hn. simpl.
      destruct (mark_run_reads (Z.to_nat n) W H (cur_x st) (cur_y st) _ _
                  Hx Hy (reads_self _ _ _ Hs)) as (data' & -> & Hr).
      simpl. apply IH; [done|].
      unfold decoding. simpl. split_and!; try done; try lia. apply Hr. }
    destruct (Ascii.eqb c "$") eqn:Es.
    { rewrite Hn. simpl. apply IH; [done|].
      unfold decoding. simpl. split_and!; done || lia. }
    destruct (Ascii.eqb c "!") eqn:Ee.
    { by exists st. }
    by apply IH.
Qed.

(** ** Scanning the lines *)

Lemma forallb_Forall {A} (f : A → bool) (l : list A) :
  forallb f l = true ↔ Forall (λ x, f x = true) l.
Proof.
  induction l as [|a l IH]; simpl; [by split|].
  rewrite andb_true_iff, Forall_cons, IH. done.
Qed.

Lemma take_drop_while {A} (f : A → bool) (l : list A) :
  take_while f l ++ drop_while f l = l.
Proof. induction l as [|a l IH]; simpl; [done|]. destruct (f a); simpl; by f_equal. Qed.

Lemma take_while_forall {A} (f : A → bool) (l : list A) :
  forallb f (take_while f l) = true.
Proof.
  induction l as [|a l IH]; simpl; [done|].
  destruct (f a) eqn:E; simpl; [by rewrite E|done].
Qed.

Lemma Forall_drop_while {A} (P : A → Prop) (f : A → bool) (l : list A) :
  Forall P l → Forall P (drop_while f l).
Proof.
  induction 1 as [|a l Ha Hl IH]; simpl; [done|].
  destruct (f a); [done|by constructor].
Qed.

Lemma Forall_py_strip (P : ascii → Prop) (s : pystr) :
  Forall P s → Forall P (py_strip s).
Proof.
  intros H. unfold py_strip, py_rstrip, py_lstrip.
  by apply Forall_reverse, Forall_drop_while, Forall_reverse, Forall_drop_while.
Qed.

Lemma Forall_py_split_on (P : ascii → Prop) (sep : ascii) (s : pystr) :
  Forall P s → Forall (Forall P) (py_split_on sep s).
Proof.
  induction 1 as [|c s Hc Hs IH]; simpl; [by repeat constructor|].
  destruct (Ascii.eqb c sep); [by constructor|].
  destruct (py_split_on sep s) as [|l ls]; [by repeat constructor|].
  apply Forall_cons in IH as [? ?]. constructor; [by constructor|done].
Qed.

Lemma match_assign_decimal key s d rest :
  match_assign key s = Some (d, rest) →
  forallb is_decimal d = true ∧ d ≠ [].
Proof.
  unfold match_assign. destruct s as [|c s1]; [done|].
  destruct (Ascii.eqb c key); [|done].
  destruct (drop_while is_space s1) as [|e s2]; [done|].
  destruct (Ascii.eqb e "="); [|done].
  destruct (take_while is_decimal (drop_while is_space s2)) as [|a d'] eqn:E;
    [done|].
  simpl. intros [= <- <-]. split; [|done].
  rewrite <- E. apply take_while_forall.
Qed.

Lemma last_y_match_cons c s :
  last_y_match (c :: s) =
    match last_y_match s with
    | Some d => Some d
    | None => fst <$> match_assign "y" (c :: s)
    end.
Proof. done. Qed.

Lemma last_y_match_decimal s d :
  last_y_match s = Some d → forallb is_decimal d = true ∧ d ≠ [].
Proof.
  induction s as [|c s IH]; [done|]. rewrite last_y_match_cons.
  destruct (last_y_match s) as [d'|]; [intros [= <-]; by apply IH|].
  destruct (match_assign "y" (c :: s)) as [[d1 r]|] eqn:E; [|done].
  simpl. intros [= <-]. by eapply match_assign_decimal.
Qed.

Lemma header_search_decimal s d1 d2 :
  header_search s = Some (d1, d2) →
  (forallb is_decimal d1 = true ∧ d1 ≠ []) ∧
  (forallb is_decimal d2 = true ∧ d2 ≠ []).
Proof.
  assert (∀ t, header_match_at t = Some (d1, d2) →
            (forallb is_decimal d1 = true ∧ d1 ≠ []) ∧
            (forallb is_decimal d2 = true ∧ d2 ≠ [])) as Hat.
  { intros t. unfold header_match_at.
    destruct (match_assign "x" t) as [[e1 r]|] eqn:E1; [|done].
    destruct (last_y_match r) as [e2|] eqn:E2; [|done].
    intros [= <- <-]. split; [by eapply match_assign_decimal|].
    by eapply last_y_match_decimal. }
  induction s as [|c s IH].
  - change (header_search []) with
      (match header_match_at [] with Some m => Some m | None => None end).
    destruct (header_match_at []) eqn:E; [|done]. intros [= ->]. by apply Hat in E.
  - change (header_search (c :: s)) with
      (match header_match_at (c :: s) with
       | Some m => Some m | None => header_search s end).
    destruct (header_match_at (c :: s)) eqn:E; [|done].
    intros [= ->]. by apply Hat in E.
Qed.

(** One line of an RLE text is always digested; the sizes read are not
    negative, and the body lines kept are stripped input lines. *)
Lemma scan_line_total (P : ascii → Prop) st line :
  Forall P line → 0 ≤ scan_width st → 0 ≤ scan_height st →
  Forall (Forall P) (scan_lines st) →
  ∃ st', scan_line st line = Ok st' ∧
    0 ≤ scan_width st' ∧ 0 ≤ scan_height st' ∧
    Forall (Forall P) (scan_lines st').
Proof.
  intros Hl Hw Hh Hls. unfold scan_line.
  destruct (is_empty (py_strip line)); [by exists st|].
  destruct (startswith (py_strip line) (lit "#")); [by eexists|].
  destruct (startswith (py_strip line) (lit "x")).
  - destruct (header_search (py_strip line)) as [[d1 d2]|] eqn:E;
      [|by exists st].
    apply header_search_decimal in E as [[H1 H1'] [H2 H2']].
    destruct (py_int_decimal d1 H1 H1') as (w & -> & ?).
    destruct (py_int_decimal d2 H2 H2') as (h & -> & ?).
    simpl. by eexists.
  - eexists. split; [done|]. simpl. split_and!; try done.
    apply Forall_app. split; [done|]. constructor; [|done].
    by apply Forall_py_strip.
Qed.

Lemma rle_scan_text_total (P : ascii → Prop) (content : pystr) :
  Forall P content →
  ∃ sc, rle_scan_text content = Ok sc ∧
    1 ≤ scan_width sc ∧ 1 ≤ scan_height sc ∧
    Forall (Forall P) (scan_lines sc).
Proof.
  intros Hc. unfold rle_scan_text.
  pose proof (Forall_py_split_on P LF _ (Forall_py_strip P _ Hc)) as Hlines.
  destruct (for_each_invariant
    (λ _ st, 0 ≤ scan_width st ∧ 0 ≤ scan_height st ∧
             Forall (Forall P) (scan_lines st))
    scan_line (py_split_on LF (py_strip content)) scan_start)
    as (st & -> & Hw & Hh & Hls).
  - by repeat split.
  - intros _ line st Hin (Hw & Hh & Hls).
    rewrite Forall_forall in Hlines.
    by apply scan_line_total; [apply Hlines|..].
  - simpl.
    destruct ((scan_width st =? 0) || (scan_height st =? 0)) eqn:E.
    + eexists. split; [done|]. simpl. split_and!; done || lia.
    + bool_to_prop. exists st. split; [done|]. split_and!; done || lia.
Qed.

(** ** Bounding boxes *)

Lemma where_none (k : nat) (mask : list bool) :
  existsb id mask = false →
  omap pick_true (zip (seq k (length mask)) mask) = [].
Proof.
  revert k. induction mask as [|b mask IH]; intros k H; simpl in *; [done|].
  apply orb_false_elim in H as [Hb H]. unfold id in Hb. subst b.
  unfold pick_true at 1. simpl. by apply IH.
Qed.

Lemma where_cons (k : nat) (b : bool) (mask : list bool) :
  omap pick_true (zip (seq k (length (b :: mask))) (b :: mask)) =
  (if b then [Z.of_nat k] else [])
  ++ omap pick_true (zip (seq (S k) (length mask)) mask).
Proof. by destruct b. Qed.

Lemma first_last_cons (x : Z) (l : list Z) :
  first_last (x :: l) = Ok (x, default x (last l)).
Proof.
  unfold first_last. destruct l as [|a l]; [done|].
  change (last (x :: a :: l)) with (last (a :: l)).
  destruct (last (a :: l)) eqn:E; [done|]. by apply last_None in E.
Qed.

(** The first and the last index picked by [np.where] are the least and
    the greatest index of a true entry. *)
Lemma where_first_last (k : nat) (mask : list bool) :
  existsb id mask = true →
  ∃ i j : nat,
    first_last (omap pick_true (zip (seq k (length mask)) mask))
      = Ok (Z.of_nat (k + i), Z.of_nat (k + j)) ∧
    mask !! i = Some true ∧ mask !! j = Some true ∧
    ∀ t, mask !! t = Some true → (i ≤ t ≤ j)%nat.
Proof.
  revert k. induction mask as [|b mask IH]; intros k H; [done|].
  rewrite where_cons. simpl in H. destruct b.
  - simpl app. rewrite first_last_cons.
    destruct (existsb id mask) eqn:E.
    + destruct (IH (S k) eq_refl) as (i & j & Hfl & Hi & Hj & Hb).
      exists 0%nat, (S j). split_and!; try done.
      * destruct (omap pick_true (zip (seq (S k) (length mask)) mask))
          as [|a l] eqn:El; [done|].
        rewrite first_last_cons in Hfl. injection Hfl as _ Hl.
        destruct l as [|a' l].
        -- simpl in *. do 3 f_equal; lia.
        -- change (last (a :: a' :: l)) with (last (a' :: l)).
           destruct (last (a' :: l)) eqn:E'; [|by apply last_None in E'].
           simpl in *. do 3 f_equal; lia.
      * intros [|t] Ht; [lia|]. simpl in Ht. apply Hb in Ht. lia.
    + rewrite where_none by done.
      exists 0%nat, 0%nat. split_and!; try done.
      * simpl. do 3 f_equal; lia.
      * intros [|t] Ht; [lia|]. simpl in Ht. exfalso.
        apply list_elem_of_lookup_2 in Ht.
        assert (existsb id mask = true); [|congruence].
        apply existsb_exists. exists true. split; [|done].
        by apply list_elem_of_In.
  - simpl app. unfold id in H at 1. simpl in H.
    destruct (IH (S k) H) as (i & j & Hfl & Hi & Hj & Hb).
    exists (S i), (S j). split_and!; try done.
    + rewrite Hfl. do 3 f_equal; lia.
    + intros [|t] Ht; [done|]. simpl in Ht. apply Hb in Ht. lia.
Qed.

Lemma np_where_first_last (mask : list bool) :
  existsb id mask = true →
  ∃ i j : nat,
    first_last (np_where mask) = Ok (Z.of_nat i, Z.of_nat j) ∧
    mask !! i = Some true ∧ mask !! j = Some true ∧
    ∀ t, mask !! t = Some true → (i ≤ t ≤ j)%nat.
Proof. apply (where_first_last 0). Qed.

Lemma any_rows_dead (m : matrix) :
  all_dead m → existsb id (any_rows m) = false.
Proof.
  unfold any_rows. induction 1 as [|r m Hr Hm IH]; [done|].
  rewrite fmap_cons. cbn [existsb]. rewrite IH, orb_false_r. unfold id.
  induction Hr as [|v r Hv Hr IHr]; [done|]. simpl. by rewrite Hv.
Qed.

(** A canvas without live cell is returned as it is. *)
Lemma trim_canvas_dead (m : matrix) : all_dead m → trim_canvas m = Ok m.
Proof. intros H. unfold trim_canvas. by rewrite any_rows_dead. Qed.

(** Trimming cannot fail. *)
Lemma trim_canvas_total (m : matrix) : ∃ m', trim_canvas m = Ok m'.
Proof.
  unfold trim_canvas.
  destruct (existsb id (any_rows m)) eqn:Er; [|by eexists].
  destruct (existsb id (any_cols m)) eqn:Ec; [|by eexists]. simpl.
  destruct (np_where_first_last _ Er) as (i & j & -> & _).
  destruct (np_where_first_last _ Ec) as (i' & j' & -> & _).
  simpl. by eexists.
Qed.

(** ** C3: content without live cells *)

Lemma enumerate_elem {A} (l : list A) (i : Z) (a : A) :
  (i, a) ∈ enumerate l → 0 ≤ i < len l ∧ l !! Z.to_nat i = Some a.
Proof.
  unfold enumerate. intros H. apply list_elem_of_lookup_1 in H as [k Hk].
  apply lookup_zip_with_Some in Hk as (i' & a' & [= <- <-] & Hi & Ha).
  apply lookup_seqZ in Hi as [-> Hlt]. rewrite Z.add_0_l, Nat2Z.id.
  split; [lia|done].
Qed.

Lemma len_le_max (l : pystr) (ls : list pystr) :
  l ∈ ls → len l ≤ foldr Z.max 0 (len <$> ls).
Proof.
  induction ls as [|a ls IH]; [by intros ?%elem_of_nil|].
  rewrite elem_of_cons, fmap_cons. cbn [foldr]. intros [->|H]; [lia|].
  specialize (IH H). lia.
Qed.

(** The marking loops of [parse_cells] stay on the canvas. *)
Lemma cells_marking (pattern_lines : list pystr) (data0 : matrix) :
  let h := Z.to_nat (len pattern_lines) in
  let w := Z.to_nat (foldr Z.max 0 (len <$> pattern_lines)) in
  shape h w data0 →
  ∃ data,
    for_each (enumerate pattern_lines) (λ data '(y, line),
      for_each (enumerate line) (λ data '(x, char),
        if alive_marker char then np_set data y x 1 else Ok data) data) data0
      = Ok data ∧
    shape h w data ∧
    (Forall (Forall (λ c, alive_marker c = false)) pattern_lines →
     data = data0).
Proof.
  intros h w Hs.
  apply (for_each_invariant (λ _ data, shape h w data ∧
    (Forall (Forall (λ c, alive_marker c = false)) pattern_lines →
     data = data0))); [done|].
  intros _ [y line] data [Hy Hline]%enumerate_elem [Hd Hz].
  apply list_elem_of_lookup_2 in Hline as Hin.
  apply (for_each_invariant (λ _ data, shape h w data ∧
    (Forall (Forall (λ c, alive_marker c = false)) pattern_lines →
     data = data0))); [done|].
  intros _ [x char] data' [Hx Hchar]%enumerate_elem [Hd' Hz'].
  destruct (alive_marker char) eqn:E; [|by exists data'].
  pose proof (len_le_max _ _ Hin).
  rewrite (np_set_shape h w) by (done || unfold h, w; lia).
  eexists. split; [done|]. split; [by apply shape_mat_write|].
  intros Hnone. exfalso.
  rewrite Forall_forall in Hnone. specialize (Hnone line Hin).
  apply list_elem_of_lookup_2 in Hchar.
  rewrite Forall_forall in Hnone. specialize (Hnone char Hchar). congruence.
Qed.

Lemma shape_zeros (h w : nat) : shape h w (replicate h (replicate w 0)).
Proof.
  split; [apply length_replicate|].
  apply Forall_replicate, length_replicate.
Qed.

Lemma all_dead_zeros (h w : nat) : all_dead (replicate h (replicate w 0)).
Proof. by apply Forall_replicate, Forall_replicate. Qed.

Lemma np_zeros_nonneg (h w : Z) :
  0 ≤ h → 0 ≤ w →
  np_zeros h w = Ok (replicate (Z.to_nat h) (replicate (Z.to_nat w) 0)).
Proof.
  intros Hh Hw. unfold np_zeros.
  by replace ((h <? 0) || (w <? 0)) with false
    by (symmetry; apply orb_false_intro; lia).
Qed.

(** The canvas of an ASCII text is always built, with the size settled by
    the scan. *)
Lemma rle_canvas_total (content : pystr) :
  forallb is_ascii content = true →
  ∃ sc data,
    rle_scan_text content = Ok sc ∧
    1 ≤ scan_width sc ∧ 1 ≤ scan_height sc ∧
    rle_canvas content = Ok data ∧
    shape (Z.to_nat (scan_height sc)) (Z.to_nat (scan_width sc)) data.
Proof.
  intros Ha%forallb_Forall.
  destruct (rle_scan_text_total _ content Ha) as (sc & Hsc & Hw & Hh & Hls).
  unfold rle_canvas. rewrite Hsc. simpl.
  rewrite np_zeros_nonneg by lia. simpl.
  destruct (decode_total (scan_width sc) (scan_height sc)
              (concat (scan_lines sc))
              {| cur_x := 0; cur_y := 0; run_count := [];
                 canvas := replicate (Z.to_nat (scan_height sc))
                             (replicate (Z.to_nat (scan_width sc)) 0) |})
    as (st & -> & _ & _ & _ & Hs).
  - apply forallb_Forall. by apply Forall_concat.
  - unfold decoding. simpl. split_and!; try done. apply shape_zeros.
  - simpl. by exists sc, (canvas st).
Qed.

(** C3 (as the code has it): neither parser raises, [parse_rle] on ASCII
    text and [parse_cells] on any text.  [parse_rle] decodes onto a
    canvas of the declared size (100x100 without a usable header), at
    least 1x1, and when the canvas holds no live cell it returns that
    canvas whole, not a 1x1 array.  [parse_cells] returns the 1x1 dead
    array when the text has no pattern line; with pattern lines it returns
    an array with one row per line and the width of the longest line,
    which is all dead when no line holds an alive marker. *)
Theorem degenerate_content_outcome (content : pystr) :
  (forallb is_ascii content = true →
   ∃ sc canvas data,
     rle_scan_text content = Ok sc ∧
     1 ≤ scan_width sc ∧ 1 ≤ scan_height sc ∧
     rle_canvas content = Ok canvas ∧
     shape (Z.to_nat (scan_height sc)) (Z.to_nat (scan_width sc)) canvas ∧
     parse_rle content = Ok (data, scan_meta sc) ∧
     (all_dead canvas → data = canvas)) ∧
  (∃ data,
     parse_cells content = Ok (data, (cells_scan content).1) ∧
     let pattern_lines := (cells_scan content).2 in
     (pattern_lines = [] → data = [[0]]) ∧
     (pattern_lines ≠ [] →
        shape (length pattern_lines)
              (Z.to_nat (foldr Z.max 0 (len <$> pattern_lines))) data ∧
        (Forall (Forall (λ c, alive_marker c = false)) pattern_lines →
         all_dead data))).
Proof.
  split.
  - intros Ha.
    destruct (rle_canvas_total content Ha) as (sc & canvas & Hsc & Hw & Hh & Hc & Hs).
    unfold parse_rle. rewrite Hsc, Hc. simpl.
    destruct (trim_canvas_total canvas) as [data Ht].
    exists sc, canvas, data. rewrite Ht. simpl. split_and!; try done.
    intros Hd. rewrite trim_canvas_dead in Ht by done. congruence.
  - unfold parse_cells. destruct (cells_scan content) as [m pl]. simpl.
    destruct pl as [|l pl].
    + exists [[0]]. by split.
    + change (is_empty (l :: pl)) with false. cbv iota.
      set (lines := l :: pl).
      rewrite np_zeros_nonneg
        by (apply len_nonneg || (simpl; pose proof (len_nonneg l); lia)).
      rewrite bind_Ok.
      destruct (cells_marking lines _ (shape_zeros _ _)) as (data & -> & Hs & Hz).
      exists data. rewrite bind_Ok. split; [done|]. split; [done|]. intros _.
      split.
      * unfold len in Hs at 1. by rewrite Nat2Z.id in Hs.
      * intros Hnone. rewrite (Hz Hnone). apply all_dead_zeros.
Qed.

(** The restriction to ASCII matters to [parse_rle]: [str.isdigit] accepts
    the superscript two, which [int] then refuses. *)
Lemma parse_rle_superscript_digit :
  parse_rle ("178"%char :: lit "b!") = Raise ValueError.
Proof. by vm_compute. Qed.

Lemma degenerate_content_outcome_witness :
  ∃ data meta, parse_rle (lit "x = 3, y = 2" ++ [LF] ++ lit "3b!")
               = Ok (data, meta).
Proof.
  pose proof (degenerate_content_outcome
                (lit "x = 3, y = 2" ++ [LF] ++ lit "3b!")) as [H _].
  destruct (H eq_refl) as (sc & canvas & data & _ & _ & _ & _ & _ & Hp & _).
  by exists data, (scan_meta sc).
Defined.

(** ** Decimal numerals *)

Lemma code_digit_char (d : Z) : 0 ≤ d < 10 → code (digit_char d) = 48 + d.
Proof.
  intros Hd. unfold code, digit_char.
  assert (Z.to_N (48 + d) < 256)%N as Hlt.
  { apply N2Z.inj_lt. rewrite Z2N.id; lia. }
  rewrite (N_ascii_embedding _ Hlt). rewrite Z2N.id; lia.
Qed.

Lemma digit_char_decimal (d : Z) : 0 ≤ d < 10 → is_decimal (digit_char d) = true.
Proof.
  intros Hd. unfold is_decimal. rewrite code_digit_char by done.
  apply andb_true_intro. lia.
Qed.

Lemma dec_value_snoc (s : pystr) (c : ascii) :
  dec_value (s ++ [c]) = 10 * dec_value s + (code c - 48).
Proof. unfold dec_value. by rewrite foldl_app. Qed.

Lemma digits_of_spec (fuel : nat) (n : Z) :
  0 ≤ n < 2 ^ Z.of_nat fuel → (0 < fuel)%nat →
  dec_value (digits_of fuel n) = n ∧
  forallb is_decimal (digits_of fuel n) = true ∧
  digits_of fuel n ≠ [].
Proof.
  revert n. induction fuel as [|fuel IH]; intros n Hn Hf.
  - lia.
  - simpl. destruct (n <? 10) eqn:E; bool_to_prop.
    + split_and!; [|simpl; by rewrite digit_char_decimal by lia|done].
      unfold dec_value. simpl. rewrite code_digit_char by lia. lia.
    + assert (0 ≤ n / 10 < 2 ^ Z.of_nat fuel) as Hq.
      { split; [apply Z.div_pos; lia|].
        apply Z.div_lt_upper_bound; [lia|].
        rewrite Nat2Z.inj_succ, Z.pow_succ_r in Hn by lia. lia. }
      assert (0 < fuel)%nat as Hf'.
      { destruct fuel; [|lia]. simpl in Hq.
        assert (1 ≤ n / 10) by (apply Z.div_le_lower_bound; lia). lia. }
      destruct (IH _ Hq Hf') as (Hv & Hd & Hne).
      pose proof (Z.mod_pos_bound n 10 ltac:(lia)).
      split_and!.
      * rewrite dec_value_snoc, Hv, code_digit_char by lia.
        pose proof (Z.div_mod n 10 ltac:(lia)). lia.
      * rewrite forallb_app, Hd. simpl. by rewrite digit_char_decimal by lia.
      * by destruct (digits_of fuel (n / 10)).
Qed.

(** A number that is not negative is printed as a non-empty string of
    decimal digits, which [int] reads back. *)
Lemma py_str_spec (n : Z) :
  0 ≤ n →
  forallb is_decimal (py_str n) = true ∧ py_str n ≠ [] ∧
  py_int (py_str n) = Ok n.
Proof.
  intros Hn. unfold py_str. replace (n <? 0) with false by lia.
  destruct (digits_of_spec (S (Z.to_nat (Z.log2 n))) n) as (Hv & Hd & Hne).
  { split; [done|]. destruct (decide (n = 0)) as [->|]; [done|].
    rewrite Nat2Z.inj_succ, Z2Nat.id by apply Z.log2_nonneg.
    apply Z.log2_spec. lia. }
  { lia. }
  split; [done|]. split; [done|].
  unfold py_int, pystr_eqb. rewrite Hd.
  rewrite bool_decide_eq_false_2 by done. simpl. by f_equal.
Qed.

(** ** Encoding a row, and decoding it again *)

(** The run counted from [x] is the longest stretch of cells equal to
    [row[x]]. *)
Lemma run_loop_spec (fuel : nat) (row : list Z) (W x cell run : Z) :
  1 ≤ run → x + run ≤ W →
  (∀ i, x ≤ i < x + run → row_at row i = cell) →
  W - (x + run) ≤ Z.of_nat fuel →
  let run' := run_loop fuel row W x cell run in
  run ≤ run' ∧ x + run' ≤ W ∧
  (∀ i, x ≤ i < x + run' → row_at row i = cell) ∧
  (x + run' = W ∨ row_at row (x + run') ≠ cell).
Proof.
  revert run. induction fuel as [|fuel IH]; intros run H1 HW Hrun Hf; simpl.
  - split_and!; [lia|done|done|left; lia].
  - destruct ((x + run <? W) && (row_at row (x + run) =? cell)) eqn:E.
    + bool_to_prop. destruct (IH (run + 1)) as (? & ? & ? & ?); [lia..| |lia|].
      * intros i Hi. destruct (decide (i = x + run)) as [->|]; [done|].
        apply Hrun. lia.
      * split_and!; done || lia.
    + split_and!; [lia|done|done|].
      apply andb_false_iff in E as [E|E]; bool_to_prop; [left; lia|by right].
Qed.

Lemma encode_row_loop_S (fuel : nat) (row : list Z) (W x : Z)
    (parts : list pystr) :
  encode_row_loop (S fuel) row W x parts =
  if x <? W then
    let cell := row_at row x in
    let char := if cell =? 0 then lit "b" else lit "o" in
    let run := run_loop (Z.to_nat W) row W x cell 1 in
    if (cell =? 0) && (W <=? x + run) then parts
    else
      let part := if 1 <? run then py_str run ++ char else char in
      encode_row_loop fuel row W (x + run) (parts ++ [part])
  else parts.
Proof. done. Qed.

Lemma encode_row_loop_acc (fuel : nat) (row : list Z) (W x : Z)
    (parts : list pystr) :
  encode_row_loop fuel row W x parts
  = parts ++ encode_row_loop fuel row W x [].
Proof.
  revert x parts. induction fuel as [|fuel IH]; intros x parts; simpl.
  - by rewrite app_nil_r.
  - destruct (x <? W); [|by rewrite app_nil_r].
    destruct (_ && _); [by rewrite app_nil_r|].
    rewrite IH. rewrite (IH _ [_]). by rewrite app_assoc.
Qed.

Lemma decode_digits (W H : Z) (ds rest : pystr) (st : rle_state) :
  forallb is_decimal ds = true →
  decode W H (ds ++ rest) st
  = decode W H rest {| cur_x := cur_x st; cur_y := cur_y st;
                       run_count := run_count st ++ ds;
                       canvas := canvas st |}.
Proof.
  revert st. induction ds as [|c ds IH]; intros st Hd.
  - simpl. rewrite app_nil_r. by destruct st.
  - simpl in Hd. bool_to_prop. simpl.
    unfold py_isdigit. replace (is_decimal c) with true. simpl.
    rewrite IH by done. simpl. by rewrite <- app_assoc.
Qed.

Lemma decode_b (W H : Z) (rest : pystr) (st : rle_state) :
  decode W H ("b"%char :: rest) st =
  count ← pending_count (run_count st);
  decode W H rest {| cur_x := cur_x st + count; cur_y := cur_y st;
                     run_count := []; canvas := canvas st |}.
Proof. done. Qed.

Lemma decode_o (W H : Z) (rest : pystr) (st : rle_state) :
  decode W H ("o"%char :: rest) st =
  count ← pending_count (run_count st);
  '(x, data) ← mark_run (Z.to_nat count) W H (cur_x st) (cur_y st) (canvas st);
  decode W H rest {| cur_x := x; cur_y := cur_y st; run_count := [];
                     canvas := data |}.
Proof. done. Qed.

Lemma decode_dollar (W H : Z) (rest : pystr) (st : rle_state) :
  decode W H ("$"%char :: rest) st =
  count ← pending_count (run_count st);
  decode W H rest {| cur_x := 0; cur_y := cur_y st + count;
                     run_count := []; canvas := canvas st |}.
Proof. done. Qed.

Lemma decode_bang (W H : Z) (rest : pystr) (st : rle_state) :
  decode W H ("!"%char :: rest) st = Ok st.
Proof. done. Qed.

(** The count written in front of a tag is the count read back. *)
Lemma pending_count_token (n : Z) :
  1 ≤ n →
  forallb is_decimal (if 1 <? n then py_str n else []) = true ∧
  pending_count (if 1 <? n then py_str n else []) = Ok n.
Proof.
  intros Hn. destruct (1 <? n) eqn:E; bool_to_prop.
  - destruct (py_str_spec n) as (Hd & Hne & Hi); [lia|].
    split; [done|]. unfold pending_count.
    by destruct (py_str n).
  - split; [done|]. unfold pending_count. simpl. f_equal. lia.
Qed.

Lemma token_split (n : Z) (tag : pystr) :
  (if 1 <? n then py_str n ++ tag else tag)
  = (if 1 <? n then py_str n else []) ++ tag.
Proof. by destruct (1 <? n). Qed.

Lemma row_at_binary (row : list Z) (i : Z) :
  Forall (λ v, v = 0 ∨ v = 1) row → row_at row i = 0 ∨ row_at row i = 1.
Proof.
  intros Hb. unfold row_at.
  destruct (row !! Z.to_nat i) as [v|] eqn:E; [|by left].
  apply (Forall_lookup_1 _ _ _ _ Hb E).
Qed.

(** Decoding what [to_rle] writes for the cells of a row from column [x]
    on fills these cells in, on a canvas where they were still dead. *)
Lemma decode_row_loop (W H : Z) (row : list Z) (y : Z) (rest : pystr) :
  Forall (λ v, v = 0 ∨ v = 1) row → 0 ≤ y →
  ∀ (fuel : nat) (x : Z) data f,
    0 ≤ x ≤ W → W - x ≤ Z.of_nat fuel →
    reads (Z.to_nat H) (Z.to_nat W) data f →
    (∀ c, x ≤ c < W → f y c = 0) →
    ∃ x' data',
      decode W H (concat (encode_row_loop fuel row W x []) ++ rest)
        {| cur_x := x; cur_y := y; run_count := []; canvas := data |}
      = decode W H rest
          {| cur_x := x'; cur_y := y; run_count := []; canvas := data' |} ∧
      0 ≤ x' ∧
      reads (Z.to_nat H) (Z.to_nat W) data'
        (λ r c, if (r =? y) && (x <=? c) then row_at row c else f r c).
Proof.
  intros Hbin Hy.
  assert (Hstop : ∀ x data f,
    reads (Z.to_nat H) (Z.to_nat W) data f →
    (∀ c, x ≤ c < W → row_at row c = f y c) →
    reads (Z.to_nat H) (Z.to_nat W) data
      (λ r c, if (r =? y) && (x <=? c) then row_at row c else f r c)).
  { intros x data f Hr Hz. eapply reads_ext; [apply Hr|].
    intros r c Hrr Hc. simpl.
    destruct ((r =? y) && (x <=? c)) eqn:E; [|done].
    bool_to_prop. subst r. symmetry. apply Hz. lia. }
  induction fuel as [|fuel IH]; intros x data f Hx Hf Hr Hz.
  { exists x, data. simpl. split; [done|]. split; [lia|].
    apply Hstop; [done|]. intros c Hc. lia. }
  simpl encode_row_loop.
  destruct (x <? W) eqn:Ex; bool_to_prop; cycle 1.
  { exists x, data. simpl. split; [done|]. split; [lia|].
    apply Hstop; [done|]. intros c Hc. lia. }
  set (cell := row_at row x).
  set (run := run_loop (Z.to_nat W) row W x cell 1).
  destruct (run_loop_spec (Z.to_nat W) row W x cell 1)
    as (Hr1 & HrW & Hsame & Hend); [lia|lia| |lia|].
  { intros i Hi. replace i with x by lia. done. }
  fold run in Hr1, HrW, Hsame, Hend.
  destruct ((cell =? 0) && (W <=? x + run)) eqn:Eb.
  { bool_to_prop. exists x, data. simpl. split; [done|]. split; [lia|].
    apply Hstop; [done|]. intros c Hc.
    rewrite Hsame by lia. rewrite Hz by lia. lia. }
  rewrite encode_row_loop_acc. simpl app.
  rewrite token_split, <- !app_assoc.
  destruct (pending_count_token run Hr1) as [Hd Hcount].
  rewrite decode_digits by done. simpl run_count.
  destruct (cell =? 0) eqn:Ec; simpl in Eb.
  - bool_to_prop.
    simpl app. rewrite decode_b.
    simpl run_count. rewrite Hcount, bind_Ok. simpl cur_x. simpl cur_y.
    simpl canvas.
    destruct (IH (x + run) data f) as (x' & data' & Hdec & Hx' & Hr');
      [lia|lia|done| |].
    { intros c Hc. apply Hz. lia. }
    exists x', data'. split; [done|]. split; [done|].
    eapply reads_ext; [apply Hr'|]. intros r c Hrr Hc. simpl.
    destruct (r =? y) eqn:E1; simpl; [|done]. bool_to_prop. subst r.
    destruct (x + run <=? c) eqn:E2, (x <=? c) eqn:E3; bool_to_prop;
      try done; try lia.
    rewrite Hsame by lia. rewrite Hz by lia. lia.
  - clear Eb. bool_to_prop.
    assert (cell = 1) as Hone.
    { pose proof (row_at_binary row x Hbin) as Hb. fold cell in Hb. lia. }
    simpl app. rewrite decode_o.
    simpl run_count. rewrite Hcount, bind_Ok. simpl cur_x. simpl cur_y.
    simpl canvas.
    destruct (mark_run_reads (Z.to_nat run) W H x y data f)
      as (data1 & Hm & Hr1'); [lia|done|done|].
    rewrite Hm, bind_Ok. rewrite Z2Nat.id in * by lia.
    destruct (IH (x + run) data1 _ ltac:(lia) ltac:(lia) Hr1')
      as (x' & data' & Hdec & Hx' & Hr').
    { intros c Hc. simpl.
      replace (c <? x + run) with false by lia.
      rewrite andb_false_r. apply Hz. lia. }
    exists x', data'. split; [done|]. split; [done|].
    eapply reads_ext; [apply Hr'|]. intros r c Hrr Hc. simpl.
    destruct (r =? y) eqn:E1; simpl; [|done]. bool_to_prop. subst r.
    destruct (x + run <=? c) eqn:E2, (x <=? c) eqn:E3, (c <? x + run) eqn:E4;
      bool_to_prop; try done; try lia.
    rewrite Hsame by lia. simpl. lia.
Qed.

Lemma decode_row (W H : Z) (row : list Z) (y : Z) (rest : pystr) data f :
  Forall (λ v, v = 0 ∨ v = 1) row → 0 ≤ y → 0 ≤ W →
  reads (Z.to_nat H) (Z.to_nat W) data f →
  (∀ c, 0 ≤ c < W → f y c = 0) →
  ∃ x' data',
    decode W H (encode_row W row ++ rest)
      {| cur_x := 0; cur_y := y; run_count := []; canvas := data |}
    = decode W H rest
        {| cur_x := x'; cur_y := y; run_count := []; canvas := data' |} ∧
    reads (Z.to_nat H) (Z.to_nat W) data'
      (λ r c, if r =? y then row_at row c else f r c).
Proof.
  intros Hbin Hy HW Hr Hz.
  destruct (decode_row_loop W H row y rest Hbin Hy (Z.to_nat W) 0 data f)
    as (x' & data' & Hdec & _ & Hr'); [lia|lia|done|done|].
  exists x', data'. split; [done|].
  eapply reads_ext; [apply Hr'|]. intros r c _ Hc. simpl.
  replace (0 <=? c) with true by lia. by rewrite andb_true_r.
Qed.

(** Decoding the rows that [to_rle] joins with '$' and closes with '!',
    from the start of row [y] on a canvas still dead from that row on. *)
Lemma decode_rows (W H : Z) (rows : matrix) :
  0 ≤ W → Forall (Forall (λ v, v = 0 ∨ v = 1)) rows → rows ≠ [] →
  ∀ y data f,
    0 ≤ y →
    reads (Z.to_nat H) (Z.to_nat W) data f →
    (∀ r c, y ≤ r → 0 ≤ c < W → f r c = 0) →
    ∃ st,
      decode W H (py_join (lit "$") (encode_row W <$> rows) ++ lit "!")
        {| cur_x := 0; cur_y := y; run_count := []; canvas := data |}
      = Ok st ∧
      reads (Z.to_nat H) (Z.to_nat W) (canvas st)
        (λ r c, if y <=? r then mat_read rows (r - y) c else f r c).
Proof.
  intros HW Hbin Hne.
  induction rows as [|row rows IH]; [done|]. intros y data f Hy Hr Hz.
  apply Forall_cons in Hbin as [Hrow Hrows].
  assert (Hhead : ∀ c, mat_read (row :: rows) 0 c = row_at row c) by done.
  assert (Htail : ∀ r c, y < r →
            mat_read (row :: rows) (r - y) c = mat_read rows (r - (y + 1)) c).
  { intros r c Hlt. unfold mat_read.
    replace (Z.to_nat (r - y)) with (S (Z.to_nat (r - (y + 1)))) by lia.
    done. }
  destruct rows as [|row2 rows].
  - change (py_join (lit "$") (encode_row W <$> [row])) with (encode_row W row).
    destruct (decode_row W H row y (lit "!") data f) as (x' & data' & -> & Hr');
      [done..| |].
    { intros c Hc. apply Hz; lia. }
    eexists. split; [apply decode_bang|]. simpl canvas.
    eapply reads_ext; [apply Hr'|]. intros r c Hrr Hc. simpl.
    destruct (r =? y) eqn:E1, (y <=? r) eqn:E2; bool_to_prop; try done;
      try lia.
    + subst. by rewrite Z.sub_diag, Hhead.
    + rewrite Hz by lia. by rewrite Htail by lia.
  - change (py_join (lit "$") (encode_row W <$> row :: row2 :: rows))
      with (encode_row W row ++ lit "$" ++
            py_join (lit "$") (encode_row W <$> row2 :: rows)).
    rewrite <- !app_assoc.
    destruct (decode_row W H row y
                (lit "$" ++ py_join (lit "$") (encode_row W <$> row2 :: rows)
                 ++ lit "!") data f) as (x' & data' & -> & Hr'); [done..| |].
    { intros c Hc. apply Hz; lia. }
    simpl app. rewrite decode_dollar. simpl run_count.
    change (pending_count []) with (Ok 1). rewrite bind_Ok.
    simpl cur_y. simpl canvas.
    destruct (IH Hrows ltac:(done) (y + 1) data' _ ltac:(lia) Hr')
      as (st & Hdec & Hst).
    { intros r c Hrr Hc. simpl. replace (r =? y) with false by lia.
      apply Hz; lia. }
    exists st. split; [done|].
    eapply reads_ext; [apply Hst|]. intros r c Hrr Hc. simpl.
    destruct (r =? y) eqn:E1, (y <=? r) eqn:E2, (y + 1 <=? r) eqn:E3;
      bool_to_prop; try done; try lia.
    + subst. by rewrite Z.sub_diag, Hhead.
    + by rewrite Htail by lia.
Qed.

(** Two arrays of one shape that read the same are equal. *)
Lemma reads_inj h w a b f : reads h w a f → reads h w b f → a = b.
Proof.
  intros [[Hla Hra] Hfa] [[Hlb Hrb] Hfb].
  apply list_eq_same_length with h; [done..|].
  intros i ra rb Hi Ha Hb.
  pose proof (Forall_lookup_1 _ _ _ _ Hra Ha) as Hwa.
  pose proof (Forall_lookup_1 _ _ _ _ Hrb Hb) as Hwb. simpl in *.
  apply list_eq_same_length with w; [done..|].
  intros j va vb Hj Hva Hvb.
  specialize (Hfa (Z.of_nat i) (Z.of_nat j) ltac:(lia) ltac:(lia)).
  specialize (Hfb (Z.of_nat i) (Z.of_nat j) ltac:(lia) ltac:(lia)).
  unfold mat_read in *. rewrite !Nat2Z.id in *.
  rewrite Ha in Hfa. rewrite Hb in Hfb. simpl in *.
  rewrite Hva in Hfa. rewrite Hvb in Hfb. simpl in *. congruence.
Qed.

(** ** The encoded body *)

Lemma body_char_decimal (s : pystr) :
  forallb is_decimal s = true → Forall (λ c, body_char c = true) s.
Proof.
  intros H%forallb_Forall. eapply Forall_impl; [apply H|].
  intros c Hc. unfold body_char. by rewrite Hc.
Qed.

Lemma encode_row_loop_chars (fuel : nat) (row : list Z) (W x : Z) :
  0 ≤ x →
  Forall (Forall (λ c, body_char c = true)) (encode_row_loop fuel row W x []).
Proof.
  revert x. induction fuel as [|fuel IH]; intros x Hx; simpl; [done|].
  destruct (x <? W) eqn:Ex; [|done]. bool_to_prop.
  set (cell := row_at row x).
  set (run := run_loop (Z.to_nat W) row W x cell 1).
  destruct (run_loop_spec (Z.to_nat W) row W x cell 1)
    as (Hr1 & _); [lia|lia| |lia|].
  { intros i Hi. replace i with x by lia. done. }
  fold run in Hr1.
  destruct ((cell =? 0) && (W <=? x + run)); [done|].
  rewrite encode_row_loop_acc. constructor; [|apply IH; lia].
  rewrite token_split. apply Forall_app. split.
  - apply body_char_decimal. by apply pending_count_token.
  - destruct (cell =? 0); by repeat constructor.
Qed.

Lemma existsb_nonzero_row_at (row : list Z) :
  existsb nonzero row = true →
  ∃ i, 0 ≤ i < len row ∧ row_at row i ≠ 0.
Proof.
  intros (v & Hin & Hv)%existsb_exists.
  apply list_elem_of_In, list_elem_of_lookup_1 in Hin as [i Hi].
  exists (Z.of_nat i). pose proof (lookup_lt_Some _ _ _ Hi).
  split; [unfold len; lia|]. unfold row_at. rewrite Nat2Z.id, Hi. simpl.
  unfold nonzero in Hv. bool_to_prop. done.
Qed.

(** A row with a live cell is not encoded as the empty string. *)
Lemma encode_row_live (row : list Z) :
  existsb nonzero row = true → encode_row (len row) row ≠ [].
Proof.
  intros (i & Hi & Hlive)%existsb_nonzero_row_at. unfold encode_row.
  set (W := len row) in *.
  assert (∃ fuel, Z.to_nat W = S fuel) as [fuel EW]
    by (exists (Z.to_nat W - 1)%nat; lia).
  rewrite EW at 1. rewrite encode_row_loop_S. cbv zeta.
  replace (0 <? W) with true by lia.
  set (cell := row_at row 0).
  set (run := run_loop (Z.to_nat W) row W 0 cell 1).
  destruct (run_loop_spec (Z.to_nat W) row W 0 cell 1)
    as (Hr1 & HrW & Hsame & _); [lia|lia| |lia|].
  { intros j Hj. replace j with 0 by lia. done. }
  fold run in Hr1, HrW, Hsame.
  destruct ((cell =? 0) && (W <=? 0 + run)) eqn:E.
  - bool_to_prop. exfalso. apply Hlive. rewrite Hsame by lia. done.
  - rewrite encode_row_loop_acc. simpl app. rewrite token_split.
    destruct (if 1 <? run then py_str run else []); destruct (cell =? 0); done.
Qed.

Lemma drop_trailing_empty_id (parts : list pystr) (lst : pystr) :
  lst ≠ [] → drop_trailing_empty (parts ++ [lst]) = parts ++ [lst].
Proof.
  intros Hne. unfold drop_trailing_empty.
  rewrite reverse_snoc. destruct lst; [done|]. simpl.
  by rewrite <- reverse_snoc, reverse_involutive.
Qed.

Lemma Forall_py_join (P : ascii → Prop) (sep : pystr) (parts : list pystr) :
  Forall P sep → Forall (Forall P) parts → Forall P (py_join sep parts).
Proof.
  intros Hsep. induction 1 as [|p ps Hp Hps IH]; [done|]. simpl.
  destruct ps; [done|]. by repeat apply Forall_app_2.
Qed.

(** ** Stripping, splitting and joining *)

Lemma py_strip_id (s : pystr) :
  (∀ c, head s = Some c → is_space c = false) →
  (∀ c, last s = Some c → is_space c = false) →
  py_strip s = s.
Proof.
  intros Hh Hl. unfold py_strip, py_lstrip, py_rstrip.
  assert (drop_while is_space s = s) as ->.
  { destruct s as [|c s]; [done|]. simpl. by rewrite Hh. }
  destruct (reverse s) as [|c r] eqn:E.
  - apply (f_equal reverse) in E. rewrite reverse_involutive in E. by subst.
  - simpl. rewrite Hl.
    + by rewrite <- E, reverse_involutive.
    + rewrite <- (reverse_involutive s), E, reverse_cons.
      by rewrite last_snoc.
Qed.

Lemma py_strip_solid (s : pystr) :
  Forall (λ c, is_space c = false) s → py_strip s = s.
Proof.
  intros H. rewrite Forall_forall in H. apply py_strip_id; intros c Hc; apply H.
  - destruct s; [done|]. injection Hc as ->. left.
  - by apply last_Some_elem_of.
Qed.

Lemma py_split_on_whole (sep : ascii) (l : pystr) :
  Forall (λ c, c ≠ sep) l → py_split_on sep l = [l].
Proof.
  induction 1 as [|c l Hc Hl IH]; [done|]. simpl.
  rewrite (proj2 (Ascii.eqb_neq c sep)) by done. by rewrite IH.
Qed.

Lemma py_split_on_app (sep : ascii) (l rest : pystr) :
  Forall (λ c, c ≠ sep) l →
  py_split_on sep (l ++ sep :: rest) = l :: py_split_on sep rest.
Proof.
  induction 1 as [|c l Hc Hl IH]; simpl.
  - by rewrite Ascii.eqb_refl.
  - rewrite (proj2 (Ascii.eqb_neq c sep)) by done. by rewrite IH.
Qed.

(** Splitting at the separator undoes joining with it. *)
Lemma py_split_on_join (sep : ascii) (lines : list pystr) :
  lines ≠ [] → Forall (Forall (λ c, c ≠ sep)) lines →
  py_split_on sep (py_join [sep] lines) = lines.
Proof.
  intros Hne Hl. induction Hl as [|l ls Hl Hls IH]; [done|].
  destruct ls as [|l2 ls].
  - simpl. by apply py_split_on_whole.
  - change (py_join [sep] (l :: l2 :: ls))
      with (l ++ sep :: py_join [sep] (l2 :: ls)).
    rewrite py_split_on_app by done. by rewrite IH.
Qed.

Lemma py_join_cons (sep : pystr) (a : pystr) (ps : list pystr) :
  ps ≠ [] → py_join sep (a :: ps) = a ++ sep ++ py_join sep ps.
Proof. by destruct ps. Qed.

Lemma py_join_last (sep : pystr) (lines : list pystr) (l : pystr) (c : ascii) :
  last l = Some c → last (py_join sep (lines ++ [l])) = Some c.
Proof.
  intros Hl. induction lines as [|a lines IH]; [done|].
  rewrite <- app_comm_cons, py_join_cons by (by destruct lines).
  by rewrite !last_app, IH.
Qed.

Lemma Forall_concat_inv {A} (P : A → Prop) (ls : list (list A)) :
  Forall P (concat ls) → Forall (Forall P) ls.
Proof.
  induction ls as [|l ls IH]; simpl; [done|].
  intros [? ?]%Forall_app. constructor; auto.
Qed.

Lemma wrap_fold_nonempty (s : pystr) (lines : list pystr) (cur : pystr) :
  Forall (λ l, l ≠ []) lines →
  Forall (λ l, l ≠ []) (foldl wrap_step (lines, cur) s).1.
Proof.
  revert lines cur. induction s as [|c s IH]; intros lines cur Hl; [done|].
  simpl.
  assert (wrap_step (lines, cur) c =
          if 70 <=? len (cur ++ [c]) then (lines ++ [cur ++ [c]], [])
          else (lines, cur ++ [c])) as -> by done.
  destruct (70 <=? len (cur ++ [c])); apply IH; [|done].
  apply Forall_app. split; [done|]. constructor; [|done]. by destruct cur.
Qed.

Lemma wrap_body_nonempty (s : pystr) : Forall (λ l, l ≠ []) (wrap_body s).
Proof.
  unfold wrap_body. pose proof (wrap_fold_nonempty s [] [] ltac:(done)) as H.
  destruct (foldl wrap_step ([], []) s) as [lines cur]. simpl in *.
  destruct cur; simpl; [done|]. apply Forall_app. split; [done|].
  by constructor.
Qed.

(** ** Reading back the lines that [to_rle] writes *)

Lemma decimal_plain (c : ascii) :
  is_decimal c = true →
  is_space c = false ∧ c ≠ LF ∧ c ≠ "#"%char ∧ c ≠ "x"%char ∧ c ≠ "y"%char.
Proof.
  unfold is_decimal, is_space. intros H. bool_to_prop.
  split_and!; [|by intros ->..].
  apply orb_false_intro; [|lia].
  apply orb_false_intro; [|lia].
  apply orb_false_intro; apply andb_false_iff; lia.
Qed.

Lemma body_char_plain (c : ascii) :
  body_char c = true →
  is_space c = false ∧ c ≠ LF ∧ c ≠ "#"%char ∧ c ≠ "x"%char.
Proof.
  unfold body_char. rewrite !orb_true_iff.
  intros [[[[H|H]|H]|H]|H].
  - by destruct (decimal_plain c H) as (? & ? & ? & ? & _).
  - apply Ascii.eqb_eq in H as ->. by split_and!.
  - apply Ascii.eqb_eq in H as ->. by split_and!.
  - apply Ascii.eqb_eq in H as ->. by split_and!.
  - apply Ascii.eqb_eq in H as ->. by split_and!.
Qed.

Lemma take_drop_while_app {A} (f : A → bool) (ds rest : list A) :
  forallb f ds = true →
  (∀ c, head rest = Some c → f c = false) →
  take_while f (ds ++ rest) = ds ∧ drop_while f (ds ++ rest) = rest.
Proof.
  intros Hd Hr. induction ds as [|d ds IH]; simpl.
  - destruct rest as [|c rest]; [done|]. simpl. by rewrite Hr.
  - simpl in Hd. bool_to_prop. replace (f d) with true.
    destruct IH as [-> ->]; done.
Qed.

Lemma last_y_match_none (s : pystr) :
  Forall (λ c, c ≠ "y"%char) s → last_y_match s = None.
Proof.
  induction 1 as [|c s Hc Hs IH]; [done|].
  rewrite last_y_match_cons, IH. unfold match_assign.
  by rewrite (proj2 (Ascii.eqb_neq c "y")) by done.
Qed.

Lemma last_y_match_skip (c : ascii) (s d : pystr) :
  last_y_match s = Some d → last_y_match (c :: s) = Some d.
Proof. intros H. by rewrite last_y_match_cons, H. Qed.

Lemma py_str_head (n : Z) (rest : pystr) :
  0 ≤ n → ∃ d ds, py_str n ++ rest = d :: ds ∧ is_decimal d = true.
Proof.
  intros Hn. destruct (py_str_spec n Hn) as (Hd & Hne & _).
  destruct (py_str n) as [|d ds]; [done|]. simpl in Hd. bool_to_prop.
  by exists d, (ds ++ rest).
Qed.

Lemma match_assign_written (key : ascii) (n : Z) (rest : pystr) :
  0 ≤ n → (∀ c, head rest = Some c → is_decimal c = false) →
  match_assign key (key :: lit " = " ++ py_str n ++ rest)
  = Some (py_str n, rest).
Proof.
  intros Hn Hrest. destruct (py_str_spec n Hn) as (Hd & Hne & _).
  unfold match_assign. rewrite Ascii.eqb_refl.
  change (drop_while is_space (lit " = " ++ py_str n ++ rest))
    with ("="%char :: " "%char :: py_str n ++ rest).
  change (Ascii.eqb "=" "=") with true. cbv iota.
  change (drop_while is_space (" "%char :: py_str n ++ rest))
    with (drop_while is_space (py_str n ++ rest)).
  destruct (py_str_head n rest Hn) as (d & ds & E & Hdec).
  assert (drop_while is_space (py_str n ++ rest) = py_str n ++ rest) as ->.
  { rewrite E. simpl. by rewrite (proj1 (decimal_plain d Hdec)). }
  destruct (take_drop_while_app is_decimal (py_str n) rest Hd Hrest)
    as [-> ->].
  by destruct (py_str n).
Qed.

(** The header line that [to_rle] writes is matched by the expression of
    [parse_rle], with the two numbers it was written from. *)
Lemma header_search_written (w h : Z) :
  0 ≤ w → 0 ≤ h →
  header_search (lit "x = " ++ py_str w ++ lit ", y = " ++ py_str h
                 ++ lit ", rule = B3/S23")
  = Some (py_str w, py_str h).
Proof.
  intros Hw Hh.
  destruct (py_str_spec h Hh) as (Hdh & Hneh & _).
  set (tail := lit ", rule = B3/S23").
  set (Y := lit " = " ++ py_str h ++ tail).
  assert (match_assign "y" ("y"%char :: Y) = Some (py_str h, tail)) as Hy.
  { apply match_assign_written; [done|]. by intros c [= <-]. }
  assert (last_y_match (lit ", y = " ++ py_str h ++ tail) = Some (py_str h))
    as Hlast.
  { change (lit ", y = " ++ py_str h ++ tail)
      with (","%char :: " "%char :: "y"%char :: Y).
    do 2 apply last_y_match_skip.
    rewrite last_y_match_cons, Hy.
    rewrite last_y_match_none; [done|]. unfold Y.
    change (lit " = " ++ py_str h ++ tail)
      with (" "%char :: "="%char :: " "%char :: py_str h ++ tail).
    repeat (constructor; [done|]). apply Forall_app. split.
    - apply forallb_Forall in Hdh. eapply Forall_impl; [apply Hdh|].
      intros c Hc. by apply decimal_plain.
    - by repeat constructor. }
  change (lit "x = " ++ py_str w ++ lit ", y = " ++ py_str h ++ tail)
    with ("x"%char :: lit " = " ++ py_str w ++ lit ", y = " ++ py_str h ++ tail).
  unfold header_search. fold header_search. unfold header_match_at.
  rewrite match_assign_written; [|done|by intros c [= <-]].
  by rewrite Hlast.
Qed.

Lemma scan_line_header (st : rle_scan) (m : matrix) :
  scan_line st (rle_header m)
  = Ok {| scan_meta := scan_meta st; scan_width := ncols m;
          scan_height := nrows m; scan_lines := scan_lines st |}.
Proof.
  assert (0 ≤ ncols m ∧ 0 ≤ nrows m) as [Hw Hh] by (unfold ncols, nrows; lia).
  unfold scan_line.
  assert (py_strip (rle_header m) = rle_header m) as ->.
  { apply py_strip_id; unfold rle_header.
    - by intros c [= <-].
    - rewrite !app_assoc, last_app. by intros c [= <-]. }
  change (is_empty (rle_header m)) with false.
  change (startswith (rle_header m) (lit "#")) with false.
  change (startswith (rle_header m) (lit "x")) with true. cbv iota.
  unfold rle_header. rewrite header_search_written by done.
  destruct (py_str_spec _ Hw) as (_ & _ & ->).
  destruct (py_str_spec _ Hh) as (_ & _ & ->). done.
Qed.

Lemma scan_line_body (st : rle_scan) (line : pystr) :
  line ≠ [] → Forall (λ c, body_char c = true) line →
  scan_line st line
  = Ok {| scan_meta := scan_meta st; scan_width := scan_width st;
          scan_height := scan_height st;
          scan_lines := scan_lines st ++ [line] |}.
Proof.
  intros Hne Hb. unfold scan_line.
  rewrite py_strip_solid
    by (eapply Forall_impl; [apply Hb|]; intros c Hc; by apply body_char_plain).
  destruct line as [|c line]; [done|].
  apply Forall_cons in Hb as [Hc _].
  destruct (body_char_plain c Hc) as (_ & _ & Hhash & Hx).
  simpl. rewrite (proj2 (Ascii.eqb_neq c "#")) by done.
  by rewrite (proj2 (Ascii.eqb_neq c "x")) by done.
Qed.

Lemma scan_body_lines (lines : list pystr) (st : rle_scan) :
  Forall (λ l, l ≠ []) lines →
  Forall (Forall (λ c, body_char c = true)) lines →
  for_each lines scan_line st
  = Ok {| scan_meta := scan_meta st; scan_width := scan_width st;
          scan_height := scan_height st;
          scan_lines := scan_lines st ++ lines |}.
Proof.
  revert st. induction lines as [|l lines IH]; intros st Hne Hb.
  - simpl. rewrite app_nil_r. by destruct st.
  - apply Forall_cons in Hne as [Hl Hne]. apply Forall_cons in Hb as [Hlb Hb].
    simpl. rewrite scan_line_body by done. rewrite bind_Ok, IH by done.
    simpl. by rewrite <- app_assoc.
Qed.

(** ** Trimming an array whose border is alive *)

Lemma py_slice_full {A} (l : list A) : py_slice l 0 (len l) = l.
Proof.
  rewrite <- (Z.add_0_l (len l)).
  rewrite py_slice_window by (unfold len; lia).
  unfold len. rewrite Nat2Z.id. simpl. apply take_ge. lia.
Qed.

Lemma np_slice2_full h w (m : matrix) :
  shape h w m → np_slice2 m 0 (Z.of_nat h) 0 (Z.of_nat w) = m.
Proof.
  intros [Hl Hr]. unfold np_slice2.
  rewrite <- Hl. fold (len m). rewrite py_slice_full.
  rewrite <- (list_fmap_id m) at 2. apply Forall_fmap_ext_1.
  eapply Forall_impl; [apply Hr|]. intros r Hlr. simpl in *.
  rewrite <- Hlr. apply py_slice_full.
Qed.

Lemma List_last_default {A} (l : list A) (d : A) :
  List.last l d = default d (last l).
Proof.
  induction l as [|a l IH]; [done|]. destruct l as [|b l]; [done|].
  change (List.last (a :: b :: l) d) with (List.last (b :: l) d).
  by rewrite last_cons_cons.
Qed.

Lemma existsb_ext_in {A} (f g : A → bool) (l : list A) :
  Forall (λ a, f a = g a) l → existsb f l = existsb g l.
Proof. induction 1 as [|a l Ha Hl IH]; simpl; congruence. Qed.

Lemma existsb_lookup (mask : list bool) (i : nat) :
  mask !! i = Some true → existsb id mask = true.
Proof.
  intros H. apply existsb_exists. exists true. split; [|done].
  by apply list_elem_of_In, list_elem_of_lookup_2 with i.
Qed.

(** The masks of an array whose four border lines are alive are set at
    both ends. *)
Lemma border_masks h w (m : matrix) :
  shape h w m → no_dead_border m = true →
  (0 < h)%nat ∧ (0 < w)%nat ∧
  any_rows m !! 0%nat = Some true ∧ any_rows m !! (h - 1)%nat = Some true ∧
  any_cols m !! 0%nat = Some true ∧ any_cols m !! (w - 1)%nat = Some true.
Proof.
  intros [Hl Hr] Hb. unfold no_dead_border in Hb.
  apply andb_prop in Hb as [Hb Hright]. apply andb_prop in Hb as [Hb Hleft].
  apply andb_prop in Hb as [Htop Hbottom].
  assert (∃ r0 m', m = r0 :: m') as (r0 & m' & Em)
    by (destruct m; [done|by eexists _, _]).
  assert (hd [] m = r0) as Hr0 by (by subst m).
  assert (0 < h)%nat as Hh by (subst h m; simpl; lia).
  assert (0 < w)%nat as Hw.
  { apply existsb_exists in Hleft as (r & Hin & Hv).
    apply list_elem_of_In in Hin. rewrite Forall_forall in Hr.
    rewrite <- (Hr r Hin). destruct r; [done|simpl; lia]. }
  assert (length (hd [] m) = w) as Hhd.
  { rewrite Hr0. rewrite Em in Hr. by apply Forall_cons in Hr as [? _]. }
  split; [done|]. split; [done|]. unfold any_rows, any_cols. rewrite Hhd.
  split_and!.
  - rewrite list_lookup_fmap. rewrite Hr0 in Htop.
    rewrite Em at 1. simpl. by rewrite Htop.
  - rewrite list_lookup_fmap.
    rewrite List_last_default, last_lookup in Hbottom.
    replace (h - 1)%nat with (Init.Nat.pred (length m)) by lia.
    destruct (m !! Init.Nat.pred (length m)); simpl in *; [|done].
    by rewrite Hbottom.
  - rewrite list_lookup_fmap, lookup_seq_lt by done. simpl. f_equal.
    rewrite <- Hleft. apply existsb_ext_in, Forall_forall.
    intros r _. by destruct r.
  - rewrite list_lookup_fmap, lookup_seq_lt by lia. simpl. f_equal.
    rewrite <- Hright. apply existsb_ext_in.
    eapply Forall_impl; [apply Hr|]. intros r Hlr. simpl in *.
    rewrite List_last_default, last_lookup.
    by replace (Init.Nat.pred (length r)) with (w - 1)%nat by lia.
Qed.

(** Such an array is its own bounding box. *)
Lemma trim_canvas_id h w (m : matrix) :
  shape h w m → no_dead_border m = true → trim_canvas m = Ok m.
Proof.
  intros Hs Hb.
  destruct (border_masks h w m Hs Hb) as (Hh & Hw & Hr0 & Hr1 & Hc0 & Hc1).
  unfold trim_canvas.
  rewrite (existsb_lookup _ _ Hr0), (existsb_lookup _ _ Hc0). simpl.
  destruct (np_where_first_last _ (existsb_lookup _ _ Hr0))
    as (i & j & -> & Hi & Hj & Hbr).
  destruct (np_where_first_last _ (existsb_lookup _ _ Hc0))
    as (i' & j' & -> & Hi' & Hj' & Hbc).
  simpl.
  apply lookup_lt_Some in Hj, Hj'.
  unfold any_rows in Hj. rewrite length_fmap in Hj.
  unfold any_cols in Hj'. rewrite length_fmap, length_seq in Hj'.
  destruct Hs as [Hl Hrw].
  assert (length (hd [] m) = w) as Hhd.
  { destruct m as [|r0 m']; [simpl in Hl; lia|].
    by apply Forall_cons in Hrw as [? _]. }
  pose proof (Hbr _ Hr0). pose proof (Hbr _ Hr1).
  pose proof (Hbc _ Hc0). pose proof (Hbc _ Hc1).
  replace (Z.of_nat i) with 0 by lia.
  replace (Z.of_nat i') with 0 by lia.
  replace (Z.of_nat j + 1) with (Z.of_nat h) by lia.
  replace (Z.of_nat j' + 1) with (Z.of_nat w) by lia.
  f_equal. by apply np_slice2_full.
Qed.

(** ** C2: the round trip *)

Lemma reads_replicate (h w : nat) :
  reads h w (replicate h (replicate w 0)) (λ _ _, 0).
Proof.
  split; [apply shape_zeros|]. intros y x Hy Hx. unfold mat_read.
  rewrite lookup_replicate_2 by lia. simpl.
  by rewrite lookup_replicate_2 by lia.
Qed.

(** The body written for an array whose last row is alive: every row
    encoded, none dropped. *)
Lemma rle_body_written h w (m : matrix) :
  shape h w m → no_dead_border m = true →
  rle_body m
  = py_join (lit "$") (encode_row (Z.of_nat w) <$> m) ++ lit "!".
Proof.
  intros Hs Hb. pose proof (border_masks h w m Hs Hb) as (Hh & Hw & _).
  unfold rle_body. rewrite (shape_ncols _ _ _ Hs Hh). f_equal. f_equal.
  unfold no_dead_border in Hb.
  apply andb_prop in Hb as [Hb _]. apply andb_prop in Hb as [Hb _].
  apply andb_prop in Hb as [_ Hbottom].
  destruct Hs as [Hl Hr].
  destruct m as [|r0 m'] using rev_ind; [simpl in Hl; lia|]. clear IHm'.
  rewrite fmap_app. simpl. apply drop_trailing_empty_id.
  rewrite List_last_default, last_snoc in Hbottom. simpl in Hbottom.
  apply Forall_app in Hr as [_ [Hr0 _]%Forall_cons]. simpl in Hr0.
  rewrite <- Hr0. by apply encode_row_live.
Qed.

Lemma rle_body_chars h w (m : matrix) :
  shape h w m → no_dead_border m = true →
  Forall (λ c, body_char c = true) (rle_body m).
Proof.
  intros Hs Hb. rewrite (rle_body_written h w m Hs Hb).
  apply Forall_app. split; [|by repeat constructor].
  apply Forall_py_join; [by repeat constructor|].
  apply Forall_fmap, Forall_forall. intros r _. simpl.
  unfold encode_row. apply Forall_concat, encode_row_loop_chars. lia.
Qed.

(** The text written by [to_rle] without metadata is scanned back into
    the declared size and the lines of the body. *)
Lemma rle_scan_text_written h w (m : matrix) :
  shape h w m → no_dead_border m = true →
  rle_scan_text (to_rle m [] [] [])
  = Ok {| scan_meta := no_metadata; scan_width := Z.of_nat w;
          scan_height := Z.of_nat h;
          scan_lines := wrap_body (rle_body m) |}.
Proof.
  intros Hs Hb. pose proof (border_masks h w m Hs Hb) as (Hh & Hw & _).
  pose proof (rle_body_chars h w m Hs Hb) as Hchars.
  destruct (wrap_body_spec (rle_body m)) as [_ Hcat].
  pose proof (wrap_body_nonempty (rle_body m)) as Hne.
  assert (Forall (Forall (λ c, body_char c = true)) (wrap_body (rle_body m)))
    as Hlines by (apply Forall_concat_inv; by rewrite Hcat).
  set (lines := wrap_body (rle_body m)) in *.
  assert (∃ init lst, lines = init ++ [lst]) as (init & lst & Elines).
  { destruct lines as [|l ls] using rev_ind; [|by eexists _, _].
    simpl in Hcat. rewrite (rle_body_written h w m Hs Hb) in Hcat.
    by destruct (py_join _ _). }
  assert (Forall (λ c, c ≠ LF) (rle_header m)) as Hhead.
  { unfold rle_header. repeat apply Forall_app_2; try by repeat constructor.
    - destruct (py_str_spec (ncols m)) as (Hd & _); [unfold ncols; lia|].
      apply forallb_Forall in Hd. eapply Forall_impl; [apply Hd|].
      intros c Hc. by apply decimal_plain.
    - destruct (py_str_spec (nrows m)) as (Hd & _); [unfold nrows; lia|].
      apply forallb_Forall in Hd. eapply Forall_impl; [apply Hd|].
      intros c Hc. by apply decimal_plain. }
  unfold rle_scan_text, to_rle, to_rle_lines. simpl app. fold lines.
  assert (py_strip (py_join [LF] (rle_header m :: lines))
          = py_join [LF] (rle_header m :: lines)) as ->.
  { apply py_strip_id.
    - rewrite py_join_cons by (rewrite Elines; by destruct init).
      by intros c [= <-].
    - rewrite Elines, app_comm_cons.
      assert (lst ≠ []) as Hlst.
      { rewrite Elines in Hne. by apply Forall_app in Hne as [_ [? _]%Forall_cons]. }
      destruct (last lst) as [c0|] eqn:El; [|by apply last_None in El].
      rewrite (py_join_last _ _ _ _ El). intros c [= <-].
      apply last_Some_elem_of in El.
      rewrite Elines in Hlines.
      apply Forall_app in Hlines as [_ [Hl _]%Forall_cons].
      rewrite Forall_forall in Hl. by apply body_char_plain, Hl. }
  rewrite py_split_on_join; [|done|].
  2:{ constructor; [done|]. eapply Forall_impl; [apply Hlines|].
      intros l Hl. eapply Forall_impl; [apply Hl|].
      intros c Hc. by apply body_char_plain. }
  simpl for_each. rewrite scan_line_header, bind_Ok.
  rewrite scan_body_lines by done. rewrite bind_Ok. simpl.
  rewrite (shape_ncols _ _ _ Hs Hh), (shape_nrows _ _ _ Hs).
  replace (Z.of_nat w =? 0) with false by lia.
  by replace (Z.of_nat h =? 0) with false by lia.
Qed.

(** Decoding the body gives the array back on the canvas. *)
Lemma rle_canvas_written h w (m : matrix) :
  shape h w m → binary m → no_dead_border m = true →
  rle_canvas (to_rle m [] [] []) = Ok m.
Proof.
  intros Hs Hbin Hb. pose proof (border_masks h w m Hs Hb) as (Hh & Hw & _).
  unfold rle_canvas. rewrite (rle_scan_text_written h w m Hs Hb), bind_Ok.
  simpl scan_lines. simpl scan_width. simpl scan_height.
  destruct (wrap_body_spec (rle_body m)) as [_ ->].
  rewrite np_zeros_nonneg, bind_Ok by lia.
  rewrite (rle_body_written h w m Hs Hb).
  destruct (decode_rows (Z.of_nat w) (Z.of_nat h) m ltac:(lia) Hbin
              ltac:(destruct m; [by destruct Hs as [? _]; simpl in *; lia|done])
              0 _ (λ _ _, 0) ltac:(lia) (reads_replicate _ _) ltac:(done))
    as (st & -> & Hst).
  rewrite bind_Ok. f_equal.
  rewrite !Nat2Z.id in Hst. apply (reads_inj h w _ _ (mat_read m)); [|by split].
  eapply reads_ext; [apply Hst|]. intros r c Hr Hc. simpl.
  replace (0 <=? r) with true by lia. by rewrite Z.sub_0_r.
Qed.

(** C2: for every rectangular array of cells 0 and 1 whose first and last
    row and first and last column each hold a live cell, parsing the text
    that [to_rle] writes for it (no metadata) succeeds and returns the
    array itself, hence an array of the same population. *)
Theorem rle_round_trip (h w : nat) (m : matrix) :
  shape h w m → binary m → no_dead_border m = true →
  parse_rle (to_rle m [] [] []) = Ok (m, no_metadata) ∧
  ∀ data meta, parse_rle (to_rle m [] [] []) = Ok (data, meta) →
    data = m ∧ np_sum data = np_sum m.
Proof.
  intros Hs Hbin Hb.
  assert (parse_rle (to_rle m [] [] []) = Ok (m, no_metadata)) as Hparse.
  { unfold parse_rle.
    rewrite (rle_scan_text_written h w m Hs Hb), bind_Ok.
    rewrite (rle_canvas_written h w m Hs Hbin Hb), bind_Ok.
    by rewrite (trim_canvas_id h w m Hs Hb). }
  split; [done|]. intros data meta. rewrite Hparse. by intros [= <- <-].
Qed.

Lemma rle_round_trip_witness :
  parse_rle (to_rle glider [] [] []) = Ok (glider, no_metadata).
Proof.
  assert (shape 3 3 glider) as Hs by (split; [done|repeat constructor]).
  assert (binary glider) as Hbin by (cbv [glider]; solve_binary).
  apply (rle_round_trip 3 3 glider Hs Hbin eq_refl).
Defined.

(** ** Region extraction away from the failing case *)

Lemma py_slice_lookup {A} (l : list A) (a b : Z) :
  0 ≤ a → 0 ≤ b ≤ len l →
  length (py_slice l a b) = Z.to_nat (b - a) ∧
  ∀ i : nat, Z.of_nat i < b - a →
    py_slice l a b !! i = l !! (Z.to_nat a + i)%nat.
Proof.
  intros Ha Hb. unfold py_slice, py_slice_bound. fold (len l).
  replace (a <? 0) with false by lia. replace (b <? 0) with false by lia.
  rewrite (Z.min_l b) by lia.
  destruct (decide (a ≤ len l)) as [Hle|Hgt].
  - rewrite Z.min_l by done. split.
    + rewrite length_take, length_drop. unfold len in *. lia.
    + intros i Hi. rewrite lookup_take_lt by lia. by rewrite lookup_drop.
  - rewrite Z.min_r by lia. split.
    + rewrite length_take, length_drop. unfold len in *. lia.
    + intros i Hi. lia.
Qed.

(** A slice with bounds inside the array reads the array at an offset. *)
Lemma reads_slice2_clamped h w (m : matrix) (y1 y2 x1 x2 : Z) :
  shape h w m →
  0 ≤ y1 → 0 ≤ y2 ≤ Z.of_nat h → 0 ≤ x1 → 0 ≤ x2 ≤ Z.of_nat w →
  reads (Z.to_nat (y2 - y1)) (Z.to_nat (x2 - x1)) (np_slice2 m y1 y2 x1 x2)
    (λ r c, mat_read m (y1 + r) (x1 + c)).
Proof.
  intros [Hl Hr] Hy1 Hy2 Hx1 Hx2. unfold np_slice2.
  destruct (py_slice_lookup m y1 y2) as [Hlen Hlook]; [done|unfold len; lia|].
  assert (Hrow : ∀ i r, py_slice m y1 y2 !! i = Some r →
            m !! (Z.to_nat y1 + i)%nat = Some r ∧ length r = w).
  { intros i r Hi. pose proof (lookup_lt_Some _ _ _ Hi) as Hlt.
    rewrite Hlook in Hi by lia. split; [done|].
    apply (Forall_lookup_1 _ _ _ _ Hr Hi). }
  split; [split|].
  - by rewrite length_fmap.
  - apply Forall_fmap, Forall_lookup. intros i r Hi. simpl.
    apply Hrow in Hi as [_ Hlr].
    by destruct (py_slice_lookup r x1 x2) as [-> _]; [done|unfold len; lia|].
  - intros r c Hrr Hc. unfold mat_read at 1. rewrite list_lookup_fmap.
    destruct (lookup_lt_is_Some_2 (py_slice m y1 y2) (Z.to_nat r)) as [row Hrw];
      [lia|].
    rewrite Hrw. simpl. apply Hrow in Hrw as [Hm Hlr].
    destruct (py_slice_lookup row x1 x2) as [_ Hlk]; [done|unfold len; lia|].
    rewrite Hlk by lia. unfold mat_read.
    replace (Z.to_nat (y1 + r)) with (Z.to_nat y1 + Z.to_nat r)%nat by lia.
    rewrite Hm. simpl. do 2 f_equal. lia.
Qed.

Lemma existsb_nonzero_read (row : list Z) :
  existsb nonzero row = true ↔
  ∃ c : nat, (c < length row)%nat ∧ default 0 (row !! c) ≠ 0.
Proof.
  split.
  - intros (v & Hin & Hv)%existsb_exists.
    apply list_elem_of_In, list_elem_of_lookup_1 in Hin as [c Hc].
    exists c. split; [by eapply lookup_lt_Some|]. rewrite Hc. simpl.
    unfold nonzero in Hv. by bool_to_prop.
  - intros (c & Hc & Hv). apply existsb_exists.
    destruct (lookup_lt_is_Some_2 row c Hc) as [v Hlk]. rewrite Hlk in Hv.
    exists v. split; [by eapply list_elem_of_In, list_elem_of_lookup_2|].
    unfold nonzero. apply negb_true_iff, Z.eqb_neq. done.
Qed.

Lemma any_rows_true h w (m : matrix) (i : nat) :
  shape h w m →
  any_rows m !! i = Some true ↔
  (i < h)%nat ∧ ∃ c, 0 ≤ c < Z.of_nat w ∧ mat_read m (Z.of_nat i) c ≠ 0.
Proof.
  intros [Hl Hr]. unfold any_rows, mat_read.
  rewrite list_lookup_fmap, !Nat2Z.id. split.
  - destruct (m !! i) as [row|] eqn:E; [|done]. simpl. intros [= Hex].
    apply existsb_nonzero_read in Hex as (c & Hc & Hv).
    pose proof (Forall_lookup_1 _ _ _ _ Hr E) as Hlr. simpl in Hlr.
    split; [apply lookup_lt_Some in E; lia|].
    exists (Z.of_nat c). rewrite Nat2Z.id. split; [lia|done].
  - intros (Hi & c & Hc & Hv).
    destruct (lookup_lt_is_Some_2 m i) as [row E]; [lia|].
    rewrite E in *. simpl in *. f_equal. apply existsb_nonzero_read.
    pose proof (Forall_lookup_1 _ _ _ _ Hr E) as Hlr. simpl in Hlr.
    exists (Z.to_nat c). split; [lia|done].
Qed.

Lemma any_cols_true h w (m : matrix) (j : nat) :
  shape h w m →
  any_cols m !! j = Some true ↔
  (j < w)%nat ∧ ∃ r, 0 ≤ r < Z.of_nat h ∧ mat_read m r (Z.of_nat j) ≠ 0.
Proof.
  intros [Hl Hr]. unfold any_cols. rewrite list_lookup_fmap. split.
  - destruct (seq 0 (length (hd [] m)) !! j) as [j'|] eqn:E; [|done].
    apply lookup_seq in E as [-> Hj]. simpl. intros [= Hex].
    apply existsb_exists in Hex as (row & Hin & Hv).
    apply list_elem_of_In, list_elem_of_lookup_1 in Hin as [i Hi].
    pose proof (lookup_lt_Some _ _ _ Hi).
    assert (length (hd [] m) = w) as Hhd.
    { destruct m as [|r0 m']; [simpl in *; lia|].
      by apply Forall_cons in Hr as [? _]. }
    split; [lia|]. exists (Z.of_nat i). split; [lia|].
    unfold mat_read. rewrite !Nat2Z.id, Hi. simpl.
    unfold nonzero in Hv. by bool_to_prop.
  - intros (Hj & r & Hrr & Hv).
    assert (length (hd [] m) = w) as ->.
    { destruct m as [|r0 m']; [simpl in *; lia|].
      by apply Forall_cons in Hr as [? _]. }
    rewrite lookup_seq_lt by done. simpl. f_equal.
    destruct (lookup_lt_is_Some_2 m (Z.to_nat r)) as [row E]; [lia|].
    apply existsb_exists. exists row.
    split; [by eapply list_elem_of_In, list_elem_of_lookup_2|].
    unfold mat_read in Hv. rewrite E, Nat2Z.id in Hv. simpl in Hv.
    unfold nonzero. by apply negb_true_iff, Z.eqb_neq.
Qed.

Lemma existsb_none (mask : list bool) :
  (∀ i, mask !! i ≠ Some true) → existsb id mask = false.
Proof.
  intros H. destruct (existsb id mask) eqn:E; [|done]. exfalso.
  apply existsb_exists in E as (b & Hin & Hb). unfold id in Hb. subst b.
  apply list_elem_of_In, list_elem_of_lookup_1 in Hin as [i Hi].
  by apply (H i).
Qed.

Lemma shape_canonical h w (m : matrix) :
  shape h w m → shape (Z.to_nat (nrows m)) (Z.to_nat (ncols m)) m.
Proof.
  intros [Hl Hr]. unfold nrows, ncols. rewrite !Nat2Z.id. split; [done|].
  destruct m as [|r0 m']; [done|]. simpl.
  pose proof Hr as [Hr0 _]%Forall_cons. by rewrite Hr0.
Qed.

(** X11 (C8 away from its failing case): when the requested rectangle does not
    end before the origin ([x + width] and [y + height] are not negative),
    [extract_region] returns the 1x1 dead array if the clamped rectangle
    holds no live cell, and otherwise the bounding box of its live cells:
    every live cell of the rectangle lies in the box, the box is read from
    the array at the offset of its corner, and its first and last row and
    column each hold a live cell. *)
Lemma extract_region_bounding_box h w (m : matrix) (x y width height : Z) :
  shape h w m → 0 ≤ x + width → 0 ≤ y + height →
  let x1 := Z.max 0 x in
  let y1 := Z.max 0 y in
  let x2 := Z.min (ncols m) (x + width) in
  let y2 := Z.min (nrows m) (y + height) in
  let inside r c := y1 ≤ r < y2 ∧ x1 ≤ c < x2 in
  ∃ out, extract_region m x y width height = Ok out ∧
    ((∀ r c, inside r c → mat_read m r c = 0) → out = [[0]]) ∧
    (∀ r0 c0, inside r0 c0 → mat_read m r0 c0 ≠ 0 →
       ∃ top bottom left right,
         inside top left ∧ inside bottom right ∧
         reads (Z.to_nat (bottom - top + 1)) (Z.to_nat (right - left + 1)) out
           (λ r c, mat_read m (top + r) (left + c)) ∧
         (∀ r c, inside r c → mat_read m r c ≠ 0 →
            top ≤ r ≤ bottom ∧ left ≤ c ≤ right) ∧
         (∃ c, inside top c ∧ mat_read m top c ≠ 0) ∧
         (∃ c, inside bottom c ∧ mat_read m bottom c ≠ 0) ∧
         (∃ r, inside r left ∧ mat_read m r left ≠ 0) ∧
         (∃ r, inside r right ∧ mat_read m r right ≠ 0)).
Proof.
  intros Hs0 Hxw Hyh x1 y1 x2 y2 inside.
  pose proof (shape_canonical _ _ _ Hs0) as Hs.
  unfold extract_region. fold x1 y1 x2 y2.
  assert (0 ≤ nrows m ∧ 0 ≤ ncols m) as [HH HW] by (unfold nrows, ncols; lia).
  assert (0 ≤ y1 ∧ 0 ≤ x1 ∧ 0 ≤ y2 ≤ Z.of_nat (Z.to_nat (nrows m)) ∧
          0 ≤ x2 ≤ Z.of_nat (Z.to_nat (ncols m))) as (Hy1 & Hx1 & Hy2 & Hx2)
    by lia.
  clearbody x1 y1 x2 y2. clear Hxw Hyh Hs0.
  pose proof (reads_slice2_clamped _ _ m y1 y2 x1 x2 Hs Hy1 Hy2 Hx1 Hx2)
    as [Hrs Hrd].
  set (region := np_slice2 m y1 y2 x1 x2) in *.
  pose proof (λ i, any_rows_true _ _ region i Hrs) as Hrows.
  pose proof (λ j, any_cols_true _ _ region j Hrs) as Hcols.
  clear Hs Hy2 Hx2.
  assert (Hlive_row : ∀ r c, inside r c → mat_read m r c ≠ 0 →
            any_rows region !! Z.to_nat (r - y1) = Some true).
  { intros r c [Hr Hc] Hv. apply Hrows. split; [lia|].
    exists (c - x1). split; [lia|]. rewrite Hrd by lia.
    by replace (y1 + Z.of_nat (Z.to_nat (r - y1))) with r by lia;
       replace (x1 + (c - x1)) with c by lia. }
  assert (Hlive_col : ∀ r c, inside r c → mat_read m r c ≠ 0 →
            any_cols region !! Z.to_nat (c - x1) = Some true).
  { intros r c [Hr Hc] Hv. apply Hcols. split; [lia|].
    exists (r - y1). split; [lia|]. rewrite Hrd by lia.
    by replace (x1 + Z.of_nat (Z.to_nat (c - x1))) with c by lia;
       replace (y1 + (r - y1)) with r by lia. }
  destruct (existsb id (any_rows region)) eqn:Er;
    destruct (existsb id (any_cols region)) eqn:Ec; simpl;
    try (exists [[0]]; split; [done|]; split; [done|];
         intros r0 c0 Hin Hv; exfalso;
         pose proof (existsb_lookup _ _ (Hlive_row _ _ Hin Hv));
         pose proof (existsb_lookup _ _ (Hlive_col _ _ Hin Hv));
         congruence).
  destruct (np_where_first_last _ Er) as (i & j & -> & Hi & Hj & Hbr).
  destruct (np_where_first_last _ Ec) as (i' & j' & -> & Hi' & Hj' & Hbc).
  simpl. eexists. split; [done|].
  apply Hrows in Hi as (Hih & ci & Hci & Hvi).
  apply Hrows in Hj as (Hjh & cj & Hcj & Hvj).
  apply Hcols in Hi' as (Hiw & ri & Hri & Hvi').
  apply Hcols in Hj' as (Hjw & rj & Hrj & Hvj').
  rewrite Hrd in Hvi, Hvj, Hvi', Hvj' by lia.
  split.
  { intros Hdead. exfalso. apply Hvi, Hdead. unfold inside. lia. }
  intros r0 c0 Hin0 Hv0.
  pose proof (Hbr _ (Hlive_row _ _ Hin0 Hv0)) as Hij.
  pose proof (Hbc _ (Hlive_col _ _ Hin0 Hv0)) as Hij'.
  exists (y1 + Z.of_nat i), (y1 + Z.of_nat j),
         (x1 + Z.of_nat i'), (x1 + Z.of_nat j').
  split_and!; try (unfold inside; lia).
  - replace (Z.of_nat j + 1)
      with (Z.of_nat i + Z.of_nat (Z.to_nat (Z.of_nat j - Z.of_nat i + 1)))
      by lia.
    replace (Z.of_nat j' + 1)
      with (Z.of_nat i' + Z.of_nat (Z.to_nat (Z.of_nat j' - Z.of_nat i' + 1)))
      by lia.
    replace (y1 + Z.of_nat j - (y1 + Z.of_nat i) + 1)
      with (Z.of_nat j - Z.of_nat i + 1) by lia.
    replace (x1 + Z.of_nat j' - (x1 + Z.of_nat i') + 1)
      with (Z.of_nat j' - Z.of_nat i' + 1) by lia.
    eapply reads_ext.
    + eapply reads_slice2; [split; [apply Hrs|apply Hrd]|lia..].
    + intros r c Hr Hc. simpl. f_equal; lia.
  - intros r c Hin Hv.
    pose proof (Hbr _ (Hlive_row _ _ Hin Hv)).
    pose proof (Hbc _ (Hlive_col _ _ Hin Hv)).
    destruct Hin. lia.
  - exists (x1 + ci). split; [unfold inside; lia|done].
  - exists (x1 + cj). split; [unfold inside; lia|done].
  - exists (y1 + ri). split; [unfold inside; lia|done].
  - exists (y1 + rj). split; [unfold inside; lia|done].
Qed.

(** * Further properties of the engine and of its callers *)

(** ** The grid *)

Lemma sumZ_zeros {A} (r : list A) : sumZ ((λ _, 0) <$> r) = 0.
Proof. unfold sumZ. induction r as [|a r IH]; simpl; [done|exact IH]. Qed.

Lemma np_sum_zeros (m : matrix) :
  np_sum ((λ r : list Z, (λ _, 0) <$> r) <$> m) = 0.
Proof.
  unfold np_sum. induction m as [|r m IH]; [done|].
  rewrite !fmap_cons. unfold sumZ at 1. simpl foldr.
  fold (sumZ (sumZ <$> ((λ r0 : list Z, (λ _ : Z, 0) <$> r0) <$> m))).
  by rewrite sumZ_zeros, IH.
Qed.

Lemma mat_read_binary (m : matrix) (y x : Z) :
  binary m → mat_read m y x = 0 ∨ mat_read m y x = 1.
Proof.
  intros Hb. unfold mat_read.
  destruct (m !! Z.to_nat y) as [r|] eqn:Hr; simpl; [|by left].
  destruct (r !! Z.to_nat x) as [v|] eqn:Hv; simpl; [|by left].
  apply (Forall_lookup_1 _ _ _ _ Hb) in Hr.
  apply (Forall_lookup_1 _ _ _ _ Hr Hv).
Qed.

Lemma mat_read_dead (m : matrix) (y x : Z) :
  all_dead m → mat_read m y x = 0.
Proof.
  intros Hb. unfold mat_read.
  destruct (m !! Z.to_nat y) as [r|] eqn:Hr; simpl; [|done].
  destruct (r !! Z.to_nat x) as [v|] eqn:Hv; simpl; [|done].
  apply (Forall_lookup_1 _ _ _ _ Hb) in Hr.
  apply (Forall_lookup_1 _ _ _ _ Hr Hv).
Qed.

Lemma all_dead_binary (m : matrix) : all_dead m → binary m.
Proof.
  intros H. eapply Forall_impl; [apply H|]. intros r Hr. simpl in *.
  eapply Forall_impl; [apply Hr|]. intros v ->. by left.
Qed.

Lemma cell_value_dead g x y : all_dead (cells g) → cell_value g x y = 0.
Proof.
  intros Hd. unfold cell_value.
  destruct (is_toroidal g); [by apply mat_read_dead|].
  destruct (in_bounds g x y); [by apply mat_read_dead|done].
Qed.

Lemma with_cells_same g : with_cells g (cells g) = g.
Proof. by destruct g. Qed.

Lemma clear_shape g : grid_shape g → grid_shape (clear g).
Proof.
  intros Hg. pose proof Hg as (Hw & Hh & _).
  destruct (reads_zeros _ _ _ (grid_shape_shape g Hg)) as [[? ?] _].
  by repeat split.
Qed.

(** X1: [clear] on a grid of positive dimensions leaves a well-formed grid
    of the same dimensions and mode, with generation 0 and population 0,
    on which [get_cell] answers dead at every coordinate, in range or
    not. *)
Theorem clear_leaves_no_live_cell (g : Grid) :
  grid_shape g →
  grid_ok (clear g) ∧
  width (clear g) = width g ∧ height (clear g) = height g ∧
  wrap_mode (clear g) = wrap_mode g ∧
  generation (clear g) = 0 ∧ population (clear g) = 0 ∧
  ∀ x y, get_cell (clear g) x y = Ok false.
Proof.
  intros Hg. pose proof Hg as (Hw & Hh & _).
  pose proof (reads_zeros _ _ _ (grid_shape_shape g Hg)) as Hr.
  pose proof (clear_shape g Hg) as Hs.
  split_and!; try done.
  - split; [done|]. eapply reads_binary; [apply Hr|]. by left.
  - apply np_sum_zeros.
  - intros x y. rewrite get_cell_cell_value by done.
    destruct Hr as [_ Hr].
    assert (cell_value (clear g) x y = 0) as ->; [|done].
    unfold cell_value. change (is_toroidal (clear g)) with (is_toroidal g).
    change (in_bounds (clear g) x y) with (in_bounds g x y).
    change (height (clear g)) with (height g).
    change (width (clear g)) with (width g).
    destruct (is_toroidal g).
    + apply Hr.
      * pose proof (Z.mod_pos_bound y (height g)). lia.
      * pose proof (Z.mod_pos_bound x (width g)). lia.
    + destruct (in_bounds g x y) eqn:E; [|done].
      apply in_bounds_spec in E. apply Hr; lia.
Qed.

Lemma clear_leaves_no_live_cell_witness :
  population (clear demo_torus) = 0 ∧ get_cell (clear demo_torus) 7 (-3) = Ok false.
Proof.
  destruct (clear_leaves_no_live_cell demo_torus demo_torus_shape)
    as (_ & _ & _ & _ & _ & Hp & Hc).
  split; [done|apply Hc].
Defined.

(** X2: [set_cell] then [get_cell].  On a grid of positive dimensions
    [set_cell] succeeds.  When the coordinate rule drops the coordinate
    (off the grid in a mode other than toroidal) the grid comes back
    unchanged; otherwise [get_cell] at the same coordinate answers the
    value written.  [get_cell] at any coordinate that the rule does not
    send to the same cell answers as before. *)
Theorem set_cell_then_get_cell (g : Grid) (x y : Z) (alive : bool) :
  grid_shape g →
  ∃ g', set_cell g x y alive = Ok g' ∧ grid_shape g' ∧
    (normalise g x y = Ok None → g' = g) ∧
    (normalise g x y ≠ Ok None → get_cell g' x y = Ok alive) ∧
    (∀ x' y', normalise g x' y' ≠ normalise g x y →
       get_cell g' x' y' = get_cell g x' y').
Proof.
  intros Hg. pose proof Hg as (Hw & Hh & _).
  destruct (set_cell_spec g x y alive Hg) as (g' & Hset & Hf & Hg' & Hc).
  exists g'. split; [done|]. split; [done|].
  assert (Hget : ∀ g0 a b, grid_shape g0 → same_frame g g0 →
    get_cell g0 a b =
      match normalise g a b with
      | Ok (Some (cx, cy)) => Ok (negb (mat_read (cells g0) cy cx =? 0))
      | Ok None => Ok false
      | Raise e => Raise e
      end).
  { intros g0 a b Hg0 Hf0. unfold get_cell.
    rewrite (same_frame_normalise g g0) by done.
    destruct (normalise_total g a b Hw Hh) as [->|(cx & cy & -> & Hcx & Hcy)];
      [done|].
    simpl. destruct Hf0 as (Ew & Eh & _).
    by rewrite np_get_in_range by (done || lia). }
  split_and!.
  - intros Hn. unfold set_cell in Hset. rewrite Hn in Hset. simpl in Hset.
    congruence.
  - intros Hn. rewrite (Hget g' x y Hg' Hf).
    destruct (normalise_total g x y Hw Hh) as [E|(cx & cy & E & Hcx & Hcy)];
      [done|].
    rewrite E. destruct (Hc cx cy Hcx Hcy) as [Hnew _].
    rewrite Hnew by done. by destruct alive.
  - intros x' y' Hne.
    rewrite (Hget g' x' y' Hg' Hf), (Hget g x' y' Hg (same_frame_refl g)).
    destruct (normalise_total g x' y' Hw Hh) as [E|(cx & cy & E & Hcx & Hcy)];
      rewrite E; [done|].
    destruct (Hc cx cy Hcx Hcy) as [_ Hkeep]. rewrite Hkeep; [done|].
    intros E'. apply Hne. by rewrite E, E'.
Qed.

Lemma set_cell_then_get_cell_witness :
  ∃ g', set_cell demo_torus 7 (-3) true = Ok g' ∧ get_cell g' 7 (-3) = Ok true.
Proof.
  destruct (set_cell_then_get_cell demo_torus 7 (-3) true demo_torus_shape)
    as (g' & Hs & _ & _ & Hg & _).
  exists g'. split; [done|]. apply Hg. by vm_compute.
Defined.

Lemma mat_write_back h w (m : matrix) (y x a : Z) :
  shape h w m → 0 ≤ y < Z.of_nat h → 0 ≤ x < Z.of_nat w →
  mat_write (mat_write m y x a) y x (mat_read m y x) = m.
Proof.
  intros Hs Hy Hx. apply (reads_inj h w _ _ (mat_read m)); [|by apply reads_self].
  eapply reads_ext.
  - apply reads_mat_write; [|done..].
    apply reads_mat_write; [|done..]. by apply reads_self.
  - intros r c Hr Hc. simpl.
    destruct ((r =? y) && (c =? x)) eqn:E; [|done].
    bool_to_prop. by subst.
Qed.

(** X3: [toggle_cell] undoes itself.  On a well-formed grid a call
    succeeds and keeps the grid well formed; where the coordinate
    designates a cell, [get_cell] there answers the opposite afterwards;
    and a second call at the same coordinate gives back the very grid one
    started from. *)
Theorem toggle_cell_twice (g : Grid) (x y : Z) :
  grid_ok g →
  ∃ g', toggle_cell g x y = Ok g' ∧ grid_ok g' ∧
    (normalise g x y ≠ Ok None →
       ∃ b, get_cell g x y = Ok b ∧ get_cell g' x y = Ok (negb b)) ∧
    toggle_cell g' x y = Ok g.
Proof.
  intros [Hg Hb]. pose proof Hg as (Hw & Hh & _).
  pose proof (grid_shape_shape g Hg) as Hs.
  unfold toggle_cell at 1, get_cell at 1.
  destruct (normalise_total g x y Hw Hh) as [E|(tx & ty & E & Htx & Hty)];
    rewrite E; simpl.
  { exists g. split; [done|]. split; [done|]. split; [done|].
    unfold toggle_cell. by rewrite E. }
  rewrite np_get_in_range by done. simpl.
  rewrite np_set_in_range by done. simpl.
  set (v := mat_read (cells g) ty tx).
  remember (with_cells g (mat_write (cells g) ty tx (u8 (1 - v)))) as g'
    eqn:Hdef.
  assert (Hcells : cells g' = mat_write (cells g) ty tx (u8 (1 - v)))
    by (by subst g').
  assert (Hframe : same_frame g g') by (subst g'; by repeat split).
  assert (Hv' : u8 (1 - v) = 1 - v ∧ u8 (1 - (1 - v)) = v).
  { destruct (mat_read_binary (cells g) ty tx Hb) as [E0|E0];
      fold v in E0; rewrite E0; done. }
  destruct Hv' as [Hv1 Hv2].
  pose proof (shape_mat_write _ _ _ ty tx (u8 (1 - v)) Hs) as Hs'.
  assert (Hg' : grid_shape g').
  { destruct Hs', Hframe as (Ew & Eh & _).
    unfold grid_shape. rewrite Hcells, Ew, Eh. by repeat split. }
  assert (Hn' : normalise g' x y = Ok (Some (tx, ty))).
  { by rewrite (same_frame_normalise g g'). }
  assert (Hrd : mat_read (cells g') ty tx = 1 - v).
  { rewrite Hcells. transitivity (u8 (1 - v)); [|done].
    eapply mat_read_write_eq; [apply Hs|lia..]. }
  destruct Hframe as (Ew & Eh & _).
  exists g'. split; [done|]. split_and!.
  - split; [done|]. rewrite Hcells.
    eapply reads_binary.
    + apply reads_mat_write; [by apply reads_self|lia..].
    + intros r c. simpl. rewrite Hv1.
      destruct (_ && _); [|by apply mat_read_binary].
      destruct (mat_read_binary (cells g) ty tx Hb) as [E0|E0];
        fold v in E0; rewrite E0; auto.
  - intros _. exists (negb (v =? 0)). split; [done|].
    unfold get_cell. rewrite Hn'. simpl.
    rewrite np_get_in_range by (done || lia). simpl. rewrite Hrd.
    destruct (mat_read_binary (cells g) ty tx Hb) as [E0|E0];
      fold v in E0; rewrite E0; done.
  - unfold toggle_cell. rewrite Hn'. simpl.
    rewrite np_get_in_range by (done || lia). simpl.
    rewrite np_set_in_range by (done || lia). simpl.
    rewrite Hrd, Hv2, Hcells. unfold v.
    rewrite (mat_write_back _ _ _ _ _ _ Hs) by lia.
    subst g'. unfold with_cells. simpl. by destruct g.
Qed.

Lemma toggle_cell_twice_witness :
  ∃ g', toggle_cell demo_torus 7 (-3) = Ok g' ∧
        toggle_cell g' 7 (-3) = Ok demo_torus.
Proof.
  destruct (toggle_cell_twice demo_torus 7 (-3) demo_torus_ok)
    as (g' & H1 & _ & _ & H2).
  by exists g'.
Defined.

(** One call of [step] on a well-formed grid. *)
Lemma step_reads g :
  grid_ok g →
  ∃ c, step g = Ok {| width := width g; height := height g;
                      wrap_mode := wrap_mode g; cells := c;
                      generation := generation g + 1 |} ∧
    reads (Z.to_nat (height g)) (Z.to_nat (width g)) c
      (λ y x, rule (mat_read (cells g) y x) (moore_sum g x y)).
Proof.
  intros Hg. pose proof Hg as [Hsh _].
  destruct (count_neighbors_moore g Hg) as (n & Hn & Hr).
  unfold step. rewrite Hn. simpl. eexists. split; [done|].
  apply (reads_zip_with rule); [|done].
  apply reads_self. by apply grid_shape_shape.
Qed.

(** X4: [step] keeps a grid well formed, so any number of calls in a row
    succeed: after [n] calls the grid is well formed, the generation has
    gone up by [n], and dimensions and mode are unchanged. *)
Theorem steps_never_fail (n : nat) (g : Grid) :
  grid_ok g →
  ∃ g', steps n g = Ok g' ∧ grid_ok g' ∧
    generation g' = generation g + Z.of_nat n ∧
    width g' = width g ∧ height g' = height g ∧ wrap_mode g' = wrap_mode g.
Proof.
  revert g. induction n as [|n IH]; intros g Hg.
  - exists g. simpl. split_and!; (done || lia).
  - destruct (step_reads g Hg) as (c & Hstep & Hr).
    pose proof Hg as [(Hw & Hh & _) _].
    set (g1 := {| width := width g; height := height g;
                  wrap_mode := wrap_mode g; cells := c;
                  generation := generation g + 1 |}) in *.
    assert (Hg1 : grid_ok g1).
    { split.
      - destruct Hr as [[? ?] _]. by repeat split.
      - eapply reads_binary; [apply Hr|]. intros. apply rule_binary. }
    destruct (IH g1 Hg1) as (g' & Hrun & Hok & Hgen & Hwd & Hht & Hm).
    exists g'. simpl. rewrite Hstep. simpl.
    split_and!; try done. simpl in Hgen. lia.
Qed.

Lemma steps_never_fail_witness :
  ∃ g', steps 5 demo_torus = Ok g' ∧ generation g' = 5.
Proof.
  destruct (steps_never_fail 5 demo_torus demo_torus_ok)
    as (g' & Hrun & _ & Hgen & _).
  exists g'. split; [done|]. by rewrite Hgen.
Defined.

(** X5: nothing is born on an empty grid.  [step] on a grid of positive
    dimensions whose cells are all dead returns the same cells with the
    generation raised by 1, in every mode. *)
Theorem step_keeps_an_empty_grid_empty (g : Grid) :
  grid_shape g → all_dead (cells g) →
  step g = Ok {| width := width g; height := height g;
                 wrap_mode := wrap_mode g; cells := cells g;
                 generation := generation g + 1 |}.
Proof.
  intros Hg Hd.
  destruct (step_reads g) as (c & -> & Hr).
  { split; [done|by apply all_dead_binary]. }
  do 2 f_equal.
  apply (reads_inj (Z.to_nat (height g)) (Z.to_nat (width g)) _ _ (λ _ _, 0)).
  - eapply reads_ext; [apply Hr|]. intros y x _ _. simpl.
    rewrite mat_read_dead by done.
    unfold moore_sum, moore. simpl. by rewrite !cell_value_dead.
  - eapply reads_ext; [apply reads_self, grid_shape_shape, Hg|].
    intros y x _ _. simpl. by apply mat_read_dead.
Qed.

Lemma step_keeps_an_empty_grid_empty_witness :
  ∃ g', step (clear demo_torus) = Ok g' ∧ cells g' = cells (clear demo_torus).
Proof.
  pose proof (clear_shape demo_torus demo_torus_shape) as Hs.
  eexists. split.
  - apply (step_keeps_an_empty_grid_empty (clear demo_torus) Hs).
    by vm_compute; repeat constructor.
  - done.
Defined.

(** X7: [load_pattern] reads its rotation only through
    [(rotation // 90) % 4]: any integer rotation behaves as the multiple of
    90 between 0 and 270 obtained by flooring it to quarter turns and
    reducing these modulo 4 (so -90 behaves as 270, 45 as 0 and 450 as
    90). *)
Theorem load_pattern_reduces_rotation (g : Grid) (p : matrix) (x y rotation : Z) :
  load_pattern g p x y rotation =
  load_pattern g p x y (90 * ((rotation / 90) mod 4)).
Proof.
  unfold load_pattern.
  replace (90 * ((rotation / 90) mod 4) / 90) with ((rotation / 90) mod 4)
    by (rewrite Z.mul_comm, Z.div_mul; lia).
  by rewrite Z.mod_mod by lia.
Qed.

(** ** Regions for rendering *)

(** Comparisons between integers and converted naturals. *)
Ltac bool_lia :=
  rewrite ?andb_true_iff, ?andb_false_iff, ?Z.leb_le, ?Z.ltb_lt, ?Z.leb_gt,
    ?Z.ltb_ge; lia.


(** Two nested loops that write [F row col] at every [(row, col)] of an
    array of zeros fill it with [F]. *)
Lemma fill_loops (h w : nat) (F : Z → Z → Z)
    (body : matrix → Z → Z → result matrix) (res0 : matrix) :
  reads h w res0 (λ _ _, 0) →
  (∀ res row col, shape h w res →
     0 ≤ row < Z.of_nat h → 0 ≤ col < Z.of_nat w →
     body res row col = Ok (mat_write res row col (F row col))) →
  ∃ res,
    for_each (range (Z.of_nat h)) (λ res row,
      for_each (range (Z.of_nat w)) (λ res col, body res row col) res) res0
    = Ok res ∧
    reads h w res F.
Proof.
  intros [Hs0 Hr0] Hbody.
  set (done_rows (rows : list Z) (res : matrix) :=
    shape h w res ∧
    ∀ r c, 0 ≤ r < Z.of_nat h → 0 ≤ c < Z.of_nat w →
      (r ∈ rows → mat_read res r c = F r c) ∧
      (r ∉ rows → mat_read res r c = 0)).
  destruct (for_each_invariant done_rows
    (λ res row, for_each (range (Z.of_nat w))
                  (λ res col, body res row col) res)
    (range (Z.of_nat h)) res0) as (res & Hrun & Hs & Hinv).
  - split; [done|]. intros r c Hr Hc. split.
    + intros Hin. by apply elem_of_nil in Hin.
    + intros _. by apply Hr0.
  - intros rows row res Hrow [Hs Hinv].
    unfold range in Hrow. apply elem_of_seqZ in Hrow.
    set (done_cols (cols : list Z) (res' : matrix) :=
      shape h w res' ∧
      ∀ r c, 0 ≤ r < Z.of_nat h → 0 ≤ c < Z.of_nat w →
        (r ∈ rows ∨ (r = row ∧ c ∈ cols) → mat_read res' r c = F r c) ∧
        (¬ (r ∈ rows ∨ r = row) → mat_read res' r c = 0) ∧
        (r = row → r ∉ rows → c ∉ cols → mat_read res' r c = 0 ∨
                                          mat_read res' r c = F r c)).
    destruct (for_each_invariant done_cols
      (λ res col, body res row col) (range (Z.of_nat w)) res)
      as (res' & Hrun & Hs' & Hinv').
    + split; [done|]. intros r c Hr Hc. destruct (Hinv r c Hr Hc) as [H1 H2].
      split_and!.
      * intros [Hin|[_ Hin]]; [by apply H1|by apply elem_of_nil in Hin].
      * intros Hn. apply H2. tauto.
      * intros _ Hn _. left. by apply H2.
    + intros cols col res1 Hcol [Hs1 Hinv1].
      unfold range in Hcol. apply elem_of_seqZ in Hcol.
      rewrite Hbody by (done || lia).
      eexists. split; [done|]. split; [by apply shape_mat_write|].
      intros r c Hr Hc. destruct (Hinv1 r c Hr Hc) as (H1 & H2 & H3).
      destruct (decide ((r, c) = (row, col))) as [[= -> ->]|Hne].
      * rewrite (mat_read_write_eq _ _ _ _ _ _ Hs1) by lia.
        split_and!; [done| |auto]. intros Hn. exfalso. apply Hn. by right.
      * rewrite mat_read_write_ne by (lia || done).
        split_and!.
        -- intros [Hin|[-> Hin]]; [apply H1; by left|].
           apply elem_of_app in Hin as [Hin|Hin%list_elem_of_singleton].
           ++ apply H1. by right.
           ++ subst. done.
        -- done.
        -- intros -> Hn1 Hn2. apply H3; [done..|].
           intros Hin. apply Hn2, elem_of_app. by left.
    + exists res'. split; [done|]. split; [done|].
      intros r c Hr Hc. destruct (Hinv' r c Hr Hc) as (H1 & H2 & H3).
      split.
      * intros Hin. apply elem_of_app in Hin as [Hin|Hin%list_elem_of_singleton].
        -- apply H1. by left.
        -- apply H1. right. split; [done|]. unfold range.
           apply elem_of_seqZ. lia.
      * intros Hn. apply H2. intros [Hin| ->]; apply Hn, elem_of_app.
        -- by left.
        -- right. by apply list_elem_of_singleton.
  - exists res. split; [done|]. split; [done|].
    intros r c Hr Hc. apply Hinv; [done..|]. unfold range.
    apply elem_of_seqZ. lia.
Qed.

Lemma blit_length {A} (dst src : list A) (off : nat) :
  (off + length src ≤ length dst)%nat →
  length (blit dst off src) = length dst.
Proof.
  intros H. unfold blit.
  rewrite !length_app, length_take, length_drop. lia.
Qed.

Lemma blit_lookup {A} (dst src : list A) (off i : nat) :
  (off + length src ≤ length dst)%nat →
  blit dst off src !! i =
    if decide (off ≤ i < off + length src)%nat then src !! (i - off)%nat
    else dst !! i.
Proof.
  intros H. unfold blit.
  destruct (decide (i < off)%nat) as [Hlt|Hge].
  - rewrite lookup_app_l by (rewrite length_take; lia).
    rewrite lookup_take_lt by done.
    destruct (decide _) as [?|?]; [lia|done].
  - rewrite lookup_app_r by (rewrite length_take; lia).
    rewrite length_take. replace (i - off `min` length dst)%nat with (i - off)%nat by lia.
    destruct (decide (i - off < length src)%nat) as [Hin|Hout].
    + rewrite lookup_app_l by done.
      destruct (decide _) as [?|?]; [done|lia].
    + rewrite lookup_app_r by lia. rewrite lookup_drop.
      destruct (decide _) as [?|?]; [lia|]. f_equal. lia.
Qed.

(** A block written into an array of zeros, as the slice assignment of
    [get_region] does it. *)
Lemma reads_blit (h w n k r0 c0 : nat) (src : matrix) (f : Z → Z → Z) :
  reads n k src f → (r0 + n ≤ h)%nat → (c0 + k ≤ w)%nat →
  reads h w
    (blit (replicate h (replicate w 0)) r0
       (zip_with (λ dst s, blit dst c0 s)
          (take (length src) (drop r0 (replicate h (replicate w 0)))) src))
    (λ r c, if (Z.of_nat r0 <=? r) && (r <? Z.of_nat (r0 + n))
               && (Z.of_nat c0 <=? c) && (c <? Z.of_nat (c0 + k))
            then f (r - Z.of_nat r0) (c - Z.of_nat c0) else 0).
Proof.
  intros [[Hl Hrows] Hf] Hr0 Hc0.
  set (zrow := replicate w 0).
  assert (Hblock : zip_with (λ dst s, blit dst c0 s)
            (take (length src) (drop r0 (replicate h zrow))) src
          = (λ s, blit zrow c0 s) <$> src).
  { rewrite drop_replicate, take_replicate.
    replace (length src `min` (h - r0))%nat with (length src) by lia.
    clear. induction src as [|s src IH]; [done|]. simpl. by rewrite IH. }
  rewrite Hblock.
  assert (Hlen : length ((λ s, blit zrow c0 s) <$> src) = n)
    by (by rewrite length_fmap).
  assert (Hrow : ∀ i : nat, (i < h)%nat →
    blit (replicate h zrow) r0 ((λ s, blit zrow c0 s) <$> src) !! i =
      if decide (r0 ≤ i < r0 + n)%nat
      then (λ s, blit zrow c0 s) <$> src !! (i - r0)%nat
      else Some zrow).
  { intros i Hi. rewrite blit_lookup by (rewrite length_replicate; lia).
    rewrite Hlen. destruct (decide _) as [?|?].
    - by rewrite list_lookup_fmap.
    - by rewrite lookup_replicate_2. }
  split; [split|].
  - rewrite blit_length; rewrite length_replicate; lia.
  - apply Forall_lookup. intros i row Hi.
    pose proof (lookup_lt_Some _ _ _ Hi) as Hlt.
    rewrite blit_length, length_replicate in Hlt
      by (rewrite length_replicate; lia).
    rewrite Hrow in Hi by done. destruct (decide _) as [Hin|Hout].
    + destruct (src !! (i - r0)%nat) as [s|] eqn:Es; [|done].
      injection Hi as <-.
      pose proof (Forall_lookup_1 _ _ _ _ Hrows Es) as Hls. simpl in Hls.
      rewrite blit_length; unfold zrow; rewrite length_replicate; lia.
    + injection Hi as <-. unfold zrow. by rewrite length_replicate.
  - intros r c Hr Hc. unfold mat_read. rewrite Hrow by lia.
    destruct (decide _) as [Hin|Hout].
    + destruct (lookup_lt_is_Some_2 src (Z.to_nat r - r0)%nat) as [s Es]; [lia|].
      rewrite Es. simpl.
      pose proof (Forall_lookup_1 _ _ _ _ Hrows Es) as Hls. simpl in Hls.
      rewrite blit_lookup by (unfold zrow; rewrite length_replicate; lia).
      rewrite Hls.
      replace ((Z.of_nat r0 <=? r) && (r <? Z.of_nat (r0 + n))) with true
        by (symmetry; bool_lia).
      simpl. destruct (decide _) as [Hin'|Hout'].
      * replace ((Z.of_nat c0 <=? c) && (c <? Z.of_nat (c0 + k))) with true
          by (symmetry; bool_lia).
        rewrite <- Hf by lia. unfold mat_read.
        replace (Z.to_nat (r - Z.of_nat r0)) with (Z.to_nat r - r0)%nat by lia.
        rewrite Es. simpl. do 2 f_equal. lia.
      * replace ((Z.of_nat c0 <=? c) && (c <? Z.of_nat (c0 + k))) with false
          by (symmetry; bool_lia).
        unfold zrow. by rewrite lookup_replicate_2 by lia.
    + replace ((Z.of_nat r0 <=? r) && (r <? Z.of_nat (r0 + n))) with false
        by (symmetry; bool_lia).
      simpl. unfold zrow. by rewrite lookup_replicate_2 by lia.
Qed.

Lemma broadcast_rows (w : Z) (rows acc : matrix) :
  Forall (λ r, Z.of_nat (length r) = w) rows →
  for_each rows (λ acc r, r' ← broadcast1 r w; Ok (acc ++ [r'])) acc
  = Ok (acc ++ rows).
Proof.
  revert acc. induction rows as [|r rows IH]; intros acc Hall; cbn [for_each].
  - by rewrite app_nil_r.
  - apply Forall_cons in Hall as [Hr Hall].
    assert (broadcast1 r w = Ok r) as ->.
    { unfold broadcast1. by replace (Z.of_nat (length r) =? w) with true by lia. }
    rewrite !bind_Ok, IH by done. by rewrite <- app_assoc.
Qed.

(** An assignment between slices of one shape copies the source. *)
Lemma np_broadcast_same (n k : nat) (src : matrix) :
  shape n k src →
  np_broadcast src (Z.of_nat k) (Z.of_nat n) (Z.of_nat k) = Ok src.
Proof.
  intros [Hl Hr]. unfold np_broadcast.
  rewrite Z.eqb_refl. cbn [orb negb].
  assert (broadcast1 src (Z.of_nat n) = Ok src) as ->.
  { unfold broadcast1.
    by replace (Z.of_nat (length src) =? Z.of_nat n) with true by lia. }
  rewrite bind_Ok, broadcast_rows; [done|].
  eapply Forall_impl; [apply Hr|]. intros r Hlr. simpl in *. lia.
Qed.

(** X6: [get_region] for a viewport of non-negative width and height
    returns an array of [h] rows and [w] columns whose entry at row
    [row], column [col] is the cell that the coordinate rule designates
    for [(x + col, y + row)]: wrapped around in toroidal mode, dead off
    the grid otherwise.  In the modes other than toroidal this is proved
    for the viewports whose clamped rectangle is not inverted
    ([max(0, x) <= min(width, x + w)] and the same vertically), which
    covers every viewport that overlaps or touches the grid. *)
Theorem get_region_reads_the_viewport (g : Grid) (x y w h : Z) :
  grid_shape g → 0 ≤ w → 0 ≤ h →
  (wrap_mode g ≠ "toroidal"%string →
     Z.max 0 x ≤ Z.min (width g) (x + w) ∧
     Z.max 0 y ≤ Z.min (height g) (y + h)) →
  ∃ region, get_region g x y w h = Ok region ∧
    reads (Z.to_nat h) (Z.to_nat w) region
      (λ row col, cell_value g (x + col) (y + row)).
Proof.
  intros Hg Hw Hh Hfit. pose proof Hg as (HW & HH & _).
  pose proof (grid_shape_shape g Hg) as Hs.
  unfold get_region, cell_value.
  rewrite np_zeros_nonneg by done. simpl.
  destruct (is_toroidal g) eqn:Ht.
  - replace (range h) with (range (Z.of_nat (Z.to_nat h)))
      by (f_equal; lia).
    replace (range w) with (range (Z.of_nat (Z.to_nat w)))
      by (f_equal; lia).
    apply (fill_loops (Z.to_nat h) (Z.to_nat w)
             (λ row col, mat_read (cells g) ((y + row) mod height g)
                                            ((x + col) mod width g))).
    + apply reads_replicate.
    + intros res row col Hres Hrow Hcol. unfold py_mod.
      replace (width g =? 0) with false by lia.
      replace (height g =? 0) with false by lia. simpl.
      rewrite np_get_in_range by (done || apply Z.mod_pos_bound; lia). simpl.
      by apply (np_set_shape _ _ _ _ _ _ Hres).
  - apply is_toroidal_false in Ht. destruct (Hfit Ht) as [Hx Hy]. clear Hfit.
    rewrite (grid_shape_ncols g Hg).
    set (x1 := Z.max 0 x) in *. set (y1 := Z.max 0 y) in *.
    set (x2 := Z.min (width g) (x + w)) in *.
    set (y2 := Z.min (height g) (y + h)) in *.
    assert (Hb : 0 ≤ x1 ∧ x2 ≤ width g ∧ 0 ≤ y1 ∧ y2 ≤ height g ∧
                 x ≤ x1 ∧ x2 ≤ x + w ∧ y ≤ y1 ∧ y2 ≤ y + h) by lia.
    assert (Hcell : ∀ row col, 0 ≤ row < h → 0 ≤ col < w →
      in_bounds g (x + col) (y + row) =
        (y1 - y <=? row) && (row <? y2 - y) && (x1 - x <=? col) && (col <? x2 - x)).
    { intros row col Hrow Hcol. unfold in_bounds.
      destruct (0 <=? x + col) eqn:E1, (x + col <? width g) eqn:E2,
               (0 <=? y + row) eqn:E3, (y + row <? height g) eqn:E4,
               (y1 - y <=? row) eqn:E5, (row <? y2 - y) eqn:E6,
               (x1 - x <=? col) eqn:E7, (col <? x2 - x) eqn:E8;
        simpl; try done; bool_to_prop; lia. }
    clearbody x1 y1 x2 y2.
    unfold py_slice_bound.
    replace (x2 <? 0) with false by lia. replace (x1 <? 0) with false by lia.
    replace (y1 - y <? 0) with false by lia.
    replace (x1 - x <? 0) with false by lia.
    replace (y1 - y + (y2 - y1) <? 0) with false by lia.
    replace (x1 - x + (x2 - x1) <? 0) with false by lia.
    rewrite (Z.min_l x2), (Z.min_l x1), (Z.min_l (y1 - y)), (Z.min_l (x1 - x)),
      (Z.min_l (y1 - y + (y2 - y1))), (Z.min_l (x1 - x + (x2 - x1))) by lia.
    replace (Z.max 0 (y1 - y + (y2 - y1) - (y1 - y)))
      with (Z.of_nat (Z.to_nat (y2 - y1))) by lia.
    replace (Z.max 0 (x1 - x + (x2 - x1) - (x1 - x)))
      with (Z.of_nat (Z.to_nat (x2 - x1))) by lia.
    replace (Z.max 0 (x2 - x1)) with (Z.of_nat (Z.to_nat (x2 - x1))) by lia.
    pose proof (reads_slice2_clamped _ _ (cells g) y1 y2 x1 x2 Hs) as Hsrc.
    destruct Hsrc as [Hss Hsr]; [lia..|].
    rewrite (np_broadcast_same _ _ _ Hss). simpl.
    eexists. split; [done|].
    eapply reads_ext.
    + apply (reads_blit (Z.to_nat h) (Z.to_nat w)
               (Z.to_nat (y2 - y1)) (Z.to_nat (x2 - x1))
               (Z.to_nat (y1 - y)) (Z.to_nat (x1 - x)));
        [split; [apply Hss|apply Hsr]|lia..].
    + intros row col Hrow Hcol. cbv beta.
      rewrite Hcell by lia.
      rewrite !Nat2Z.inj_add, !Z2Nat.id by lia.
      replace (y1 - y + (y2 - y1)) with (y2 - y) by lia.
      replace (x1 - x + (x2 - x1)) with (x2 - x) by lia.
      destruct (_ && _); [|done]. f_equal; lia.
Qed.

Lemma get_region_reads_the_viewport_witness :
  ∃ region, get_region demo_box (-1) (-1) 3 3 = Ok region ∧
            mat_read region 1 1 = 1 ∧ mat_read region 0 0 = 0.
Proof.
  destruct (get_region_reads_the_viewport demo_box (-1) (-1) 3 3)
    as (region & Hrun & _ & Hr).
  - apply demo_box_shape.
  - lia.
  - lia.
  - intros _. simpl. lia.
  - exists region. split; [done|]. by rewrite !Hr by lia.
Defined.

(** ** Counting the cells of a block *)

Lemma sumZ_app (a b : list Z) : sumZ (a ++ b) = sumZ a + sumZ b.
Proof.
  unfold sumZ. induction a as [|v a IH]; simpl; [done|]. rewrite IH. lia.
Qed.

Lemma np_sum_app (a b : matrix) : np_sum (a ++ b) = np_sum a + np_sum b.
Proof. unfold np_sum. by rewrite fmap_app, sumZ_app. Qed.

Lemma sumZ_dead (l : list Z) : Forall (λ v, v = 0) l → sumZ l = 0.
Proof.
  unfold sumZ. induction 1 as [|v l -> _ IH]; simpl; [done|]. by rewrite IH.
Qed.

Lemma np_sum_dead (m : matrix) : all_dead m → np_sum m = 0.
Proof.
  unfold np_sum. induction 1 as [|r m Hr _ IH]; [done|].
  rewrite fmap_cons. change (sumZ (?a :: ?l)) with (a + sumZ l).
  by rewrite IH, sumZ_dead.
Qed.

Lemma sumZ_blit (dst src : list Z) (off : nat) :
  Forall (λ v, v = 0) dst → sumZ (blit dst off src) = sumZ src.
Proof.
  intros Hd. unfold blit. rewrite !sumZ_app.
  rewrite (sumZ_dead (take _ _)) by (by apply Forall_take).
  rewrite (sumZ_dead (drop _ _)) by (by apply Forall_drop). lia.
Qed.

(** A block written into an array of zeros holds the cells of the block
    and no other live cell. *)
Lemma np_sum_blit (h w r0 c0 : nat) (src : matrix) :
  (r0 + length src ≤ h)%nat →
  np_sum
    (blit (replicate h (replicate w 0)) r0
       (zip_with (λ dst s, blit dst c0 s)
          (take (length src) (drop r0 (replicate h (replicate w 0)))) src))
  = np_sum src.
Proof.
  intros Hr0. set (zrow := replicate w 0).
  assert (Hz : Forall (λ v, v = 0) zrow) by (by apply Forall_replicate).
  assert (Hblock : zip_with (λ dst s, blit dst c0 s)
            (take (length src) (drop r0 (replicate h zrow))) src
          = (λ s, blit zrow c0 s) <$> src).
  { rewrite drop_replicate, take_replicate.
    replace (length src `min` (h - r0))%nat with (length src) by lia.
    clear. induction src as [|s src IH]; [done|]. simpl. by rewrite IH. }
  rewrite Hblock. unfold blit at 1. rewrite !np_sum_app.
  rewrite (np_sum_dead (take _ _))
    by (apply Forall_take, Forall_replicate, Hz).
  rewrite (np_sum_dead (drop _ _))
    by (apply Forall_drop, Forall_replicate, Hz).
  unfold np_sum. rewrite <- list_fmap_compose.
  rewrite Z.add_0_l, Z.add_0_r. f_equal.
  apply list_fmap_ext. intros i s _. simpl. by apply sumZ_blit.
Qed.

(** ** The editor and the pattern menus *)

Lemma rotations_pressed (k : nat) (e : Editor) (p : option Pattern) :
  current_pattern (Nat.iter k rotate_pattern (set_pattern e p)) = p ∧
  pattern_rotation (Nat.iter k rotate_pattern (set_pattern e p))
    = 90 * (Z.of_nat k mod 4).
Proof.
  induction k as [|k [IHp IHr]]; [done|].
  rewrite Nat.iter_succ.
  set (e' := Nat.iter k rotate_pattern (set_pattern e p)) in *.
  change (current_pattern (rotate_pattern e')) with (current_pattern e').
  change (pattern_rotation (rotate_pattern e'))
    with ((pattern_rotation e' + 90) mod 360).
  split; [done|]. rewrite IHr.
  replace 360 with (90 * 4) by done.
  replace (90 * (Z.of_nat k mod 4) + 90) with (90 * (Z.of_nat k mod 4 + 1)) by lia.
  rewrite Zmult_mod_distr_l. f_equal.
  rewrite Nat2Z.inj_succ. unfold Z.succ.
  by rewrite Zplus_mod_idemp_l.
Qed.

Lemma np_rot90_none (m : matrix) : np_rot90 m (- ((0 / 90) mod 4)) = m.
Proof. done. Qed.

(** X8: what the editor stamps.  After [set_pattern] and [k] calls of
    [rotate_pattern], placing at the cursor cell [(cx, cy)] (the editor
    passes the data already turned by [get_pattern_data], with rotation
    0) is [load_pattern] of the pattern's own data with rotation
    [90 * k]. *)
Theorem editor_places_the_turned_pattern (e : Editor) (p : Pattern)
    (k : nat) (g : Grid) (cx cy : Z) :
  place_or_toggle (Nat.iter k rotate_pattern (set_pattern e (Some p))) g cx cy
  = load_pattern g (pat_data p) cx cy (90 * Z.of_nat k).
Proof.
  destruct (rotations_pressed k e (Some p)) as [Hp Hr].
  unfold place_or_toggle, get_pattern_data. rewrite Hp, Hr.
  unfold load_pattern. rewrite np_rot90_none.
  replace (90 * Z.of_nat k / 90) with (Z.of_nat k)
    by (rewrite Z.mul_comm, Z.div_mul; lia).
  replace (90 * (Z.of_nat k mod 4) / 90) with (Z.of_nat k mod 4)
    by (rewrite Z.mul_comm, Z.div_mul; lia).
  by rewrite Z.mod_mod by lia.
Qed.

(** X9: [get_pattern_size] after [set_pattern] and [k] calls of
    [rotate_pattern], for a pattern of [h] rows and [w] columns, both
    positive: [(w, h)] when [k] is even and [(h, w)] when it is odd. *)
Theorem get_pattern_size_follows_the_turn (e : Editor) (p : Pattern)
    (h w k : nat) :
  shape h w (pat_data p) → (0 < h)%nat → (0 < w)%nat →
  get_pattern_size (Nat.iter k rotate_pattern (set_pattern e (Some p)))
  = if Nat.even k then (Z.of_nat w, Z.of_nat h) else (Z.of_nat h, Z.of_nat w).
Proof.
  intros Hs Hh Hw.
  destruct (rotations_pressed k e (Some p)) as [Hp Hr].
  unfold get_pattern_size, get_pattern_data. rewrite Hp, Hr.
  set (r := Z.of_nat k mod 4).
  assert (Hk : 0 ≤ r < 4) by (apply Z.mod_pos_bound; lia).
  assert (Hrot : 90 * r ∈ [0; 90; 180; 270]).
  { rewrite !elem_of_cons. lia. }
  destruct (rot90_turned h w (pat_data p) (90 * r) Hs Hh Hw Hrot) as [Hsh _].
  assert (Hrows : 0 < turned_rows (pat_data p) (90 * r)).
  { unfold turned_rows.
    rewrite (shape_nrows _ _ _ Hs), (shape_ncols _ _ _ Hs) by lia.
    destruct (_ || _); lia. }
  pose proof (shape_nrows _ _ _ Hsh) as Hnr.
  pose proof (shape_ncols _ _ _ Hsh ltac:(lia)) as Hnc.
  rewrite Hnr, Hnc.
  assert (0 ≤ turned_cols (pat_data p) (90 * r)).
  { unfold turned_cols, nrows, ncols. destruct (_ || _); lia. }
  rewrite !Z2Nat.id by lia.
  unfold turned_rows, turned_cols.
  rewrite (shape_nrows _ _ _ Hs), (shape_ncols _ _ _ Hs) by lia.
  assert (Nat.even k = (90 * r =? 0) || (90 * r =? 180)) as ->.
  { assert (Z.even (Z.of_nat k) = Nat.even k) as <-.
    { clear. induction k as [|k IH]; [done|].
      rewrite Nat2Z.inj_succ, Z.even_succ, Nat.even_succ.
      rewrite <- Z.negb_even, <- Nat.negb_even. by rewrite IH. }
    pose proof (Z.div_mod (Z.of_nat k) 4 ltac:(lia)) as Hd. fold r in Hd.
    rewrite Hd.
    replace (4 * (Z.of_nat k / 4) + r) with (r + 2 * (2 * (Z.of_nat k / 4)))
      by lia.
    rewrite Z.even_add_mul_2.
    assert (r = 0 ∨ r = 1 ∨ r = 2 ∨ r = 3) as [->|[->|[->| ->]]] by lia; done. }
  by destruct (_ || _).
Qed.

Lemma get_pattern_size_follows_the_turn_witness :
  get_pattern_size
    (Nat.iter 3 rotate_pattern
       (set_pattern (mkEditor None 0)
          (Some (mkPattern [] [[1; 1; 0]; [0; 1; 1]] 3 2 [] [] []))))
  = (2, 3).
Proof.
  apply (get_pattern_size_follows_the_turn _
           (mkPattern [] [[1; 1; 0]; [0; 1; 1]] 3 2 [] [] []) 2 3 3).
  - split; [done|repeat constructor].
  - lia.
  - lia.
Defined.

(** X10: clearing the grid and placing a pattern around the centre, as
    the gallery and the menu do.  When the pattern is rectangular, its
    width and height attributes are those of its data and it is not larger
    than the grid, then its rectangle at [(cx, cy)] lies inside the grid,
    the call succeeds, the generation is 0, dimensions and mode are kept,
    and the grid holds the pattern and nothing else: a cell is 1 where a
    non-zero pattern cell lies on it and 0 everywhere else, in every
    mode.  For a pattern of cells 0 and 1 the population of the grid is
    then the population of the pattern. *)
Theorem load_current_pattern_shows_the_pattern (g : Grid) (p : Pattern)
    (h w : nat) :
  grid_shape g → shape h w (pat_data p) →
  pat_width p = Z.of_nat w → pat_height p = Z.of_nat h →
  Z.of_nat w ≤ width g → Z.of_nat h ≤ height g →
  let cx := width g / 2 - Z.of_nat w / 2 in
  let cy := height g / 2 - Z.of_nat h / 2 in
  0 ≤ cx ∧ cx + Z.of_nat w ≤ width g ∧
  0 ≤ cy ∧ cy + Z.of_nat h ≤ height g ∧
  ∃ g', load_current_pattern g p = Ok g' ∧
    grid_ok g' ∧ generation g' = 0 ∧
    width g' = width g ∧ height g' = height g ∧ wrap_mode g' = wrap_mode g ∧
    reads (Z.to_nat (height g)) (Z.to_nat (width g)) (cells g')
      (λ r c, if (cy <=? r) && (r <? cy + Z.of_nat h)
                 && (cx <=? c) && (c <? cx + Z.of_nat w)
                 && negb (mat_read (pat_data p) (r - cy) (c - cx) =? 0)
              then 1 else 0) ∧
    (binary (pat_data p) → population g' = pattern_population p).
Proof.
  intros Hg Hs Hpw Hph Hfw Hfh cx cy.
  pose proof Hg as (HW & HH & _).
  assert (Hcx : 0 ≤ cx ∧ cx + Z.of_nat w ≤ width g).
  { unfold cx.
    pose proof (Z.div_mod (width g) 2 ltac:(lia)).
    pose proof (Z.mod_pos_bound (width g) 2 ltac:(lia)).
    pose proof (Z.div_mod (Z.of_nat w) 2 ltac:(lia)).
    pose proof (Z.mod_pos_bound (Z.of_nat w) 2 ltac:(lia)). lia. }
  assert (Hcy : 0 ≤ cy ∧ cy + Z.of_nat h ≤ height g).
  { unfold cy.
    pose proof (Z.div_mod (height g) 2 ltac:(lia)).
    pose proof (Z.mod_pos_bound (height g) 2 ltac:(lia)).
    pose proof (Z.div_mod (Z.of_nat h) 2 ltac:(lia)).
    pose proof (Z.mod_pos_bound (Z.of_nat h) 2 ltac:(lia)). lia. }
  split_and!; try lia.
  unfold load_current_pattern, load_pattern. rewrite np_rot90_none.
  rewrite Hpw, Hph.
  change (width (clear g)) with (width g).
  change (height (clear g)) with (height g). fold cx cy.
  clearbody cx cy.
  pose proof (clear_shape g Hg) as Hgc.
  destruct (stamp_loops (clear g) (pat_data p) cx cy Hgc)
    as (g' & Hrun & (Ew & Eh & Em & Egen) & Hg' & Hc).
  exists g'. split; [done|].
  assert (Hdead : ∀ r c, 0 ≤ r < height g → 0 ≤ c < width g →
            mat_read (cells (clear g)) r c = 0).
  { intros r c Hr Hc'.
    destruct (reads_zeros _ _ _ (grid_shape_shape g Hg)) as [_ Hz].
    apply Hz; lia. }
  assert (Hland : ∀ py px, 0 ≤ py < Z.of_nat h → 0 ≤ px < Z.of_nat w →
            normalise (clear g) (cx + px) (cy + py)
            = Ok (Some (cx + px, cy + py))).
  { intros py px Hpy Hpx.
    destruct (is_toroidal (clear g)) eqn:Ht.
    - rewrite normalise_toroidal by done.
      change (width (clear g)) with (width g).
      change (height (clear g)) with (height g).
      by rewrite !Z.mod_small by lia.
    - rewrite normalise_bounded by done.
      replace (in_bounds (clear g) (cx + px) (cy + py)) with true; [done|].
      symmetry. apply in_bounds_spec.
      change (width (clear g)) with (width g).
      change (height (clear g)) with (height g). lia. }
  assert (Hrd : ∀ r c, 0 ≤ r < height g → 0 ≤ c < width g →
    mat_read (cells g') r c =
      if (cy <=? r) && (r <? cy + Z.of_nat h)
         && (cx <=? c) && (c <? cx + Z.of_nat w)
         && negb (mat_read (pat_data p) (r - cy) (c - cx) =? 0)
      then 1 else 0).
  { intros r c Hr Hc'. destruct (Hc c r Hc' Hr) as (H1 & H2 & _).
    destruct (_ && _) eqn:E.
    - bool_to_prop. apply H1. exists (r - cy), (c - cx).
      assert (0 < h)%nat by lia.
      rewrite (shape_nrows _ _ _ Hs), (shape_ncols _ _ _ Hs) by done.
      split; [lia|]. split; [done|].
      rewrite Hland by lia. do 3 f_equal; lia.
    - rewrite H2; [by apply Hdead|].
      intros (py & px & [Hpy Hpx] & Hne & Hn).
      destruct (decide (h = 0)%nat) as [->|Hpos].
      { rewrite (shape_nrows _ _ _ Hs) in Hpy. lia. }
      rewrite (shape_nrows _ _ _ Hs) in Hpy.
      rewrite (shape_ncols _ _ _ Hs) in Hpx by lia.
      rewrite Hland in Hn by lia. injection Hn as <- <-.
      replace (cy + py - cy) with py in E by lia.
      replace (cx + px - cx) with px in E by lia.
      bool_to_prop; (lia || done). }
  assert (Hsh' : shape (Z.to_nat (height g)) (Z.to_nat (width g)) (cells g')).
  { destruct Hg' as (_ & _ & Hl & Hr). rewrite Ew, Eh in *. by split. }
  split_and!; try done.
  - split; [done|]. eapply reads_binary; [split; [apply Hsh'|]|].
    + intros r c Hr Hc'. apply Hrd; lia.
    + intros r c. simpl. destruct (_ && _); auto.
  - split; [done|]. intros r c Hr Hc'. apply Hrd; lia.
  - intros Hbinp. unfold population, pattern_population.
    pose proof (reads_blit (Z.to_nat (height g)) (Z.to_nat (width g)) h w
                  (Z.to_nat cy) (Z.to_nat cx) (pat_data p)
                  (mat_read (pat_data p)) (reads_self _ _ _ Hs)
                  ltac:(lia) ltac:(lia)) as Hblit.
    pose proof (λ H, reads_inj _ _ (cells g') _ _ H Hblit) as Heq.
    rewrite Heq; [apply np_sum_blit; destruct Hs; lia|].
    split; [done|]. intros r c Hr Hc'. rewrite Hrd by lia.
    rewrite !Nat2Z.inj_add, !Z2Nat.id by lia.
    destruct ((cy <=? r) && (r <? cy + Z.of_nat h)
              && (cx <=? c) && (c <? cx + Z.of_nat w)); [|done]. simpl.
    by destruct (mat_read_binary (pat_data p) (r - cy) (c - cx) Hbinp)
      as [-> | ->].
Qed.

Lemma load_current_pattern_shows_the_pattern_witness :
  ∃ g', load_current_pattern demo_torus
          (mkPattern [] [[1; 1]] 2 1 [] [] []) = Ok g' ∧
        mat_read (cells g') 1 1 = 1 ∧ mat_read (cells g') 0 0 = 0.
Proof.
  destruct (load_current_pattern_shows_the_pattern demo_torus
              (mkPattern [] [[1; 1]] 2 1 [] [] []) 1 2)
    as (_ & _ & _ & _ & g' & Hrun & _ & _ & _ & _ & _ & (_ & Hr) & _).
  - apply demo_torus_shape.
  - split; [done|repeat constructor].
  - done.
  - done.
  - simpl. lia.
  - simpl. lia.
  - exists g'. split; [done|]. by rewrite !Hr by (simpl; lia).
Defined.

(** * Further properties of the codec *)

(** ** Stripping a line *)

Lemma drop_while_app_stop {A} (f : A → bool) (l : list A) (a : A) (k : list A) :
  f a = false →
  drop_while f (l ++ a :: k) = drop_while f l ++ a :: k.
Proof.
  intros Ha. induction l as [|b l IH]; simpl; [by rewrite Ha|].
  by destruct (f b).
Qed.

(** [rstrip] stops at the last character that is no white space. *)
Lemma py_rstrip_app_solid (s k : pystr) (a : ascii) :
  is_space a = false → py_rstrip (s ++ a :: k) = s ++ a :: py_rstrip k.
Proof.
  intros Ha. unfold py_rstrip.
  rewrite reverse_app, reverse_cons.
  rewrite <- app_assoc. simpl.
  rewrite drop_while_app_stop by done.
  rewrite reverse_app, reverse_cons, reverse_involutive.
  by rewrite <- app_assoc.
Qed.

Lemma py_rstrip_spaces (s : pystr) :
  Forall (λ c, is_space c = true) s → py_rstrip s = [].
Proof.
  intros H. unfold py_rstrip.
  assert (drop_while is_space (reverse s) = []) as ->; [|done].
  apply Forall_reverse in H. induction H as [|c r Hc Hr IH]; [done|].
  simpl. by rewrite Hc.
Qed.

(** A string is white space throughout, or has a last character that is
    not. *)
Lemma last_solid (s : pystr) :
  Forall (λ c, is_space c = true) s ∨
  ∃ s1 a s2, s = s1 ++ a :: s2 ∧ is_space a = false ∧
             Forall (λ c, is_space c = true) s2.
Proof.
  induction s as [|c s IH]; [by left|].
  destruct IH as [Hall|(s1 & a & s2 & -> & Ha & Hs2)].
  - destruct (is_space c) eqn:Ec.
    + left. by constructor.
    + right. by exists [], c, s.
  - right. by exists (c :: s1), a, s2.
Qed.

Lemma py_rstrip_split (s1 s2 : pystr) (a : ascii) :
  is_space a = false → Forall (λ c, is_space c = true) s2 →
  py_rstrip (s1 ++ a :: s2) = s1 ++ [a].
Proof.
  intros Ha Hs2. rewrite py_rstrip_app_solid by done.
  by rewrite py_rstrip_spaces.
Qed.

Lemma py_lstrip_spaces (s k : pystr) :
  Forall (λ c, is_space c = true) s → py_lstrip (s ++ k) = py_lstrip k.
Proof.
  unfold py_lstrip. induction 1 as [|c s Hc Hs IH]; [done|].
  simpl. by rewrite Hc.
Qed.

Lemma first_solid (s : pystr) :
  Forall (λ c, is_space c = true) s ∨
  ∃ s1 b s2, s = s1 ++ b :: s2 ∧ is_space b = false ∧
             Forall (λ c, is_space c = true) s1.
Proof.
  induction s as [|c s IH]; [by left|].
  destruct (is_space c) eqn:Ec.
  - destruct IH as [Hall|(s1 & b & s2 & -> & Hb & Hs1)].
    + left. by constructor.
    + right. exists (c :: s1), b, s2. split; [done|]. split; [done|].
      by constructor.
  - right. by exists [], c, s.
Qed.

(** A text is white space throughout, or a core that starts and ends with
    something solid, between two runs of white space. *)
Lemma strip_decomp (s : pystr) :
  Forall (λ c, is_space c = true) s ∨
  ∃ sp1 core sp2 b a,
    s = sp1 ++ core ++ sp2 ∧
    Forall (λ c, is_space c = true) sp1 ∧
    Forall (λ c, is_space c = true) sp2 ∧
    head core = Some b ∧ is_space b = false ∧
    last core = Some a ∧ is_space a = false.
Proof.
  destruct (first_solid s) as [Hall|(sp1 & b & rest & -> & Hb & Hsp1)];
    [by left|right].
  destruct (last_solid (b :: rest)) as [Hall|(s1 & a & sp2 & E & Ha & Hsp2)].
  { apply Forall_cons in Hall as [Hb' _]. congruence. }
  exists sp1, (s1 ++ [a]), sp2, b, a. split_and!; try done.
  - rewrite E. by rewrite <- app_assoc.
  - destruct s1 as [|c s1]; simpl in *; congruence.
  - by rewrite last_snoc.
Qed.

Lemma py_rstrip_core (sp1 core sp2 : pystr) (a : ascii) :
  Forall (λ c, is_space c = true) sp2 →
  last core = Some a → is_space a = false →
  py_rstrip (sp1 ++ core ++ sp2) = sp1 ++ core.
Proof.
  intros Hsp2 Hlast Ha.
  destruct core as [|c core] using rev_ind; [done|]. clear IHcore.
  rewrite last_snoc in Hlast. injection Hlast as ->.
  rewrite <- !app_assoc. simpl. rewrite app_assoc.
  rewrite py_rstrip_split by done. by rewrite <- app_assoc.
Qed.

Lemma py_strip_core (sp1 core sp2 : pystr) (b a : ascii) :
  Forall (λ c, is_space c = true) sp1 →
  Forall (λ c, is_space c = true) sp2 →
  head core = Some b → is_space b = false →
  last core = Some a → is_space a = false →
  py_strip (sp1 ++ core ++ sp2) = core.
Proof.
  intros Hsp1 Hsp2 Hhd Hb Hlast Ha. unfold py_strip.
  rewrite py_lstrip_spaces by done.
  assert (py_lstrip (core ++ sp2) = core ++ sp2) as ->.
  { destruct core as [|c core]; [done|]. injection Hhd as ->.
    unfold py_lstrip. simpl. by rewrite Hb. }
  apply (py_rstrip_core [] core sp2 a); done.
Qed.

Lemma py_strip_spaces (s : pystr) :
  Forall (λ c, is_space c = true) s → py_strip s = [].
Proof.
  intros H. unfold py_strip.
  rewrite <- (app_nil_r s), py_lstrip_spaces by done. done.
Qed.

Lemma py_strip_rstrip (s : pystr) : py_strip (py_rstrip s) = py_strip s.
Proof.
  destruct (strip_decomp s)
    as [Hall|(sp1 & core & sp2 & b & a & -> & H1 & H2 & Hhd & Hb & Hl & Ha)].
  - by rewrite (py_rstrip_spaces s), (py_strip_spaces s) by done.
  - rewrite (py_rstrip_core sp1 core sp2 a) by done.
    rewrite (py_strip_core sp1 core sp2 b a) by done.
    rewrite <- (app_nil_r core) at 1.
    apply (py_strip_core sp1 core [] b a); done.
Qed.

(** What [strip] returns starts and ends with something solid. *)
Lemma py_strip_ends (s : pystr) :
  (∀ c, head (py_strip s) = Some c → is_space c = false) ∧
  (∀ c, last (py_strip s) = Some c → is_space c = false).
Proof.
  destruct (strip_decomp s)
    as [Hall|(sp1 & core & sp2 & b & a & -> & H1 & H2 & Hhd & Hb & Hl & Ha)].
  - rewrite py_strip_spaces by done. by split.
  - rewrite (py_strip_core sp1 core sp2 b a) by done.
    split; intros c Hc; congruence.
Qed.

(** A metadata line: a two-character tag, a space, the text.  The line is
    stripped, the tag cut off and the rest stripped again. *)
Lemma py_strip_tagged (t1 t2 : ascii) (s : pystr) :
  is_space t1 = false → is_space t2 = false →
  ∃ s', py_strip (t1 :: t2 :: " "%char :: s) = t1 :: t2 :: s' ∧
        py_strip s' = py_strip s.
Proof.
  intros H1 H2. exists (py_rstrip (" "%char :: s)). split.
  - unfold py_strip, py_lstrip. simpl. rewrite H1.
    apply (py_rstrip_app_solid [t1] (" "%char :: s) t2 H2).
  - rewrite py_strip_rstrip.
    reflexivity.
Qed.

(** ** Words and comment lines *)

(** A word of [str.split]: not empty, and without white space. *)
Lemma py_words_solid (cur s : pystr) :
  Forall (λ c, is_space c = false) cur →
  Forall (λ w, w ≠ [] ∧ Forall (λ c, is_space c = false) w) (py_words cur s).
Proof.
  revert cur. induction s as [|c s IH]; intros cur Hcur; simpl.
  - destruct cur; [done|]. constructor; [by split|done].
  - destruct (is_space c) eqn:Ec.
    + destruct cur; [by apply IH|].
      constructor; [by split|]. by apply IH.
    + apply IH. apply Forall_app. split; [done|]. by constructor.
Qed.

Lemma py_join_spaced (sep : pystr) (w : pystr) (ws : list pystr) :
  py_join sep (w :: ws) = w ++ concat ((λ v, sep ++ v) <$> ws).
Proof.
  revert w. induction ws as [|v ws IH]; intros w.
  - simpl. by rewrite app_nil_r.
  - rewrite py_join_cons by done. rewrite IH. simpl.
    by rewrite <- !app_assoc.
Qed.

Lemma py_join_app (sep : pystr) (pre ws : list pystr) :
  pre ≠ [] → ws ≠ [] →
  py_join sep (pre ++ ws) = py_join sep pre ++ sep ++ py_join sep ws.
Proof.
  intros Hpre Hws. destruct pre as [|p pre]; [done|].
  destruct ws as [|w ws]; [done|].
  rewrite <- app_comm_cons, !py_join_spaced.
  rewrite fmap_app, concat_app. simpl. by rewrite <- !app_assoc.
Qed.

Lemma last_concat_spaced (ws : list pystr) (w : pystr) (c : ascii) :
  last w = Some c →
  last (concat ((λ v, lit " " ++ v) <$> (ws ++ [w]))) = Some c.
Proof.
  intros Hw. rewrite fmap_app, concat_app, last_app.
  cbn [fmap list_fmap concat]. rewrite app_nil_r.
  change (lit " " ++ w) with ([" "%char] ++ w). by rewrite last_app, Hw.
Qed.

Lemma word_last (w : pystr) :
  w ≠ [] → Forall (λ c, is_space c = false) w →
  ∃ c, last w = Some c ∧ is_space c = false.
Proof.
  intros Hne Hw. destruct (last w) as [c|] eqn:E; [|by apply last_None in E].
  exists c. split; [done|]. rewrite Forall_forall in Hw.
  by apply Hw, last_Some_elem_of.
Qed.

(** The words of a '#C' line, read back by [parse_rle]. *)
Lemma py_strip_spaced (ws : list pystr) :
  Forall (λ w, w ≠ [] ∧ Forall (λ c, is_space c = false) w) ws →
  py_strip (concat ((λ v, lit " " ++ v) <$> ws)) = py_join (lit " ") ws.
Proof.
  intros Hws. destruct ws as [|w ws]; [done|].
  rewrite py_join_spaced. rewrite fmap_cons. simpl concat.
  assert (∃ b, head w = Some b ∧ is_space b = false) as (b & Hb & Hsb).
  { apply Forall_cons in Hws as [[Hne Hw] _].
    destruct w as [|b w]; [done|]. exists b. split; [done|].
    by apply Forall_cons in Hw as [? _]. }
  assert (∃ a, last (w ++ concat ((λ v, lit " " ++ v) <$> ws)) = Some a
               ∧ is_space a = false) as (a & Ha & Hsa).
  { destruct ws as [|v ws] using rev_ind.
    - simpl. rewrite app_nil_r.
      apply Forall_cons in Hws as [[Hne Hw] _]. by apply word_last.
    - clear IHws. rewrite app_comm_cons in Hws.
      apply Forall_app in Hws as [_ [[Hne Hv] _]%Forall_cons].
      destruct (word_last v Hne Hv) as (a & Ha & Hsa).
      exists a. split; [|done].
      rewrite last_app. by rewrite (last_concat_spaced ws v a). }
  rewrite <- (app_nil_r (w ++ _)) at 1.
  apply (py_strip_core [" "%char]
           (w ++ concat ((λ v, lit " " ++ v) <$> ws)) [] b a); try done.
  - by constructor.
  - destruct w; [done|]. done.
Qed.

Lemma comment_line_strip (ws : list pystr) :
  Forall (λ w, w ≠ [] ∧ Forall (λ c, is_space c = false) w) ws →
  py_strip (comment_line ws) = comment_line ws.
Proof.
  intros Hws. apply py_strip_id.
  - by intros c [= <-].
  - unfold comment_line.
    destruct ws as [|v ws] using rev_ind; [by intros c [= <-]|]. clear IHws.
    apply Forall_app in Hws as [_ [[Hne Hv] _]%Forall_cons].
    destruct (word_last v Hne Hv) as (a & Ha & Hsa).
    rewrite last_app, (last_concat_spaced ws v a) by done. by intros c [= <-].
Qed.

Lemma startswith_app (p s : pystr) : startswith (p ++ s) p = true.
Proof.
  induction p as [|c p IH]; [by destruct s|].
  simpl. by rewrite Ascii.eqb_refl.
Qed.

(** One '#C' line adds its words to the description. *)
Lemma scan_line_comment (st : rle_scan) (ws : list pystr) :
  Forall (λ w, w ≠ [] ∧ Forall (λ c, is_space c = false) w) ws →
  scan_line st (comment_line ws)
  = Ok {| scan_meta := add_description (scan_meta st) (py_join (lit " ") ws);
          scan_width := scan_width st; scan_height := scan_height st;
          scan_lines := scan_lines st |}.
Proof.
  intros Hws. unfold scan_line. rewrite comment_line_strip by done.
  change (is_empty (comment_line ws)) with false.
  change (startswith (comment_line ws) (lit "#")) with true.
  change (startswith (comment_line ws) (lit "#N")) with false.
  change (startswith (comment_line ws) (lit "#O")) with false.
  assert (startswith (comment_line ws) (lit "#C") = true) as ->
    by apply (startswith_app (lit "#C")).
  change (drop 2 (comment_line ws))
    with (concat ((λ v, lit " " ++ v) <$> ws)).
  cbv iota. cbn [orb]. by rewrite py_strip_spaced.
Qed.

(** The '#C' lines of a description, read back one after the other, put
    its words together again. *)
Lemma scan_comment_lines (groups : list (list pystr)) :
  Forall (Forall (λ w, w ≠ [] ∧ Forall (λ c, is_space c = false) w)) groups →
  Forall (λ g, g ≠ []) (tail groups) →
  ∀ (st : rle_scan) (pre : list pystr),
    Forall (λ w, w ≠ [] ∧ Forall (λ c, is_space c = false) w) pre →
    meta_description (scan_meta st) = py_join (lit " ") pre →
    pre = [] ∨ Forall (λ g, g ≠ []) groups →
    for_each (comment_line <$> groups) scan_line st
    = Ok {| scan_meta :=
              {| meta_name := meta_name (scan_meta st);
                 meta_author := meta_author (scan_meta st);
                 meta_description :=
                   py_join (lit " ") (pre ++ concat groups) |};
            scan_width := scan_width st; scan_height := scan_height st;
            scan_lines := scan_lines st |}.
Proof.
  induction groups as [|g groups IH]; intros Hws Htail st pre Hpre Hdesc Hcase.
  - cbn [fmap list_fmap for_each concat].
    rewrite app_nil_r, <- Hdesc. by destruct st as [[? ? ?] ? ? ?].
  - apply Forall_cons in Hws as [Hg Hgs]. simpl in Htail.
    rewrite fmap_cons. cbn [for_each].
    rewrite scan_line_comment, bind_Ok by done.
    assert (Hnew : meta_description
              (add_description (scan_meta st) (py_join (lit " ") g))
            = py_join (lit " ") (pre ++ g)).
    { unfold add_description. cbn [meta_description]. rewrite Hdesc.
      destruct pre as [|p pre]; [done|].
      destruct Hcase as [?|Hne]; [done|].
      apply Forall_cons in Hne as [Hgne _].
      apply Forall_cons in Hpre as [[Hp _] _].
      assert (is_empty (py_join (lit " ") (p :: pre)) = false) as ->.
      { rewrite py_join_spaced. by destruct p. }
      by rewrite py_join_app. }
    rewrite (IH Hgs) with (pre := pre ++ g).
    + cbn [scan_meta scan_width scan_height scan_lines add_description
           meta_name meta_author]. cbn [concat]. by rewrite <- app_assoc.
    + destruct groups; [done|]. simpl. by apply Forall_cons in Htail as [_ ?].
    + by apply Forall_app.
    + done.
    + right. done.
Qed.

Lemma tail_snoc {A} (l : list A) (x : A) :
  l ≠ [] → tail (l ++ [x]) = tail l ++ [x].
Proof. by destruct l. Qed.

(** Only the first '#C' line can come out without a word. *)
Lemma describe_fold_tail (words : list pystr) (groups : list (list pystr))
    (cur : list pystr) :
  Forall (λ g, g ≠ []) (tail (groups ++ [cur])) →
  ∃ groups' cur',
    foldl describe_step (comment_line <$> groups, comment_line cur) words
    = (comment_line <$> groups', comment_line cur') ∧
    concat groups' ++ cur' = concat groups ++ cur ++ words ∧
    Forall (λ g, g ≠ []) (tail (groups' ++ [cur'])).
Proof.
  revert groups cur.
  induction words as [|w words IH]; intros groups cur Htail; simpl.
  - exists groups, cur. by rewrite app_nil_r.
  - assert (describe_step (comment_line <$> groups, comment_line cur) w =
            if 70 <? len (comment_line cur) + len w + 1
            then ((comment_line <$> groups) ++ [comment_line cur],
                  lit "#C " ++ w)
            else (comment_line <$> groups, comment_line cur ++ lit " " ++ w))
      as -> by done.
    destruct (70 <? len (comment_line cur) + len w + 1).
    + replace (lit "#C " ++ w) with (comment_line [w])
        by (unfold comment_line; simpl; rewrite app_nil_r; done).
      replace ((comment_line <$> groups) ++ [comment_line cur])
        with (comment_line <$> (groups ++ [cur])) by (by rewrite fmap_app).
      destruct (IH (groups ++ [cur]) [w]) as (g' & c' & -> & Hc & Ht).
      { rewrite tail_snoc by (by destruct groups).
        apply Forall_app. split; [done|]. by constructor. }
      exists g', c'. split; [done|]. split; [|done].
      rewrite Hc, concat_app. simpl. by rewrite app_nil_r, <- !app_assoc.
    + rewrite <- comment_line_snoc.
      destruct (IH groups (cur ++ [w])) as (g' & c' & -> & Hc & Ht).
      { destruct groups as [|g groups]; [done|]. simpl in *.
        apply Forall_app in Htail as [Hg _]. apply Forall_app.
        split; [done|]. constructor; [by destruct cur|done]. }
      exists g', c'. split; [done|]. split; [|done].
      rewrite Hc. by rewrite <- !app_assoc.
Qed.

Lemma wrap_description_groups (description : pystr) :
  ∃ groups,
    wrap_description description = comment_line <$> groups ∧
    concat groups = py_split description ∧
    Forall (λ g, g ≠ []) (tail groups).
Proof.
  unfold wrap_description.
  destruct (describe_fold_tail (py_split description) [] [])
    as (groups & cur & Hst & Hc & Ht); [done|].
  simpl in Hst, Hc. change (comment_line []) with (lit "#C") in *.
  rewrite Hst. simpl. unfold pystr_eqb. case_bool_decide as E.
  - apply comment_line_bare in E as ->. rewrite app_nil_r in Hc.
    exists groups. split; [done|]. split; [done|].
    destruct groups as [|g groups]; [done|]. simpl in *.
    by apply Forall_app in Ht as [? _].
  - exists (groups ++ [cur]). split; [by rewrite fmap_app|]. split; [|done].
    rewrite concat_app. simpl. by rewrite app_nil_r.
Qed.

(** ** The '#N' and '#O' lines *)

Lemma scan_line_name (st : rle_scan) (name : pystr) :
  scan_line st (lit "#N " ++ name)
  = Ok {| scan_meta :=
            {| meta_name := py_strip name;
               meta_author := meta_author (scan_meta st);
               meta_description := meta_description (scan_meta st) |};
          scan_width := scan_width st; scan_height := scan_height st;
          scan_lines := scan_lines st |}.
Proof.
  unfold scan_line.
  change (lit "#N " ++ name) with ("#"%char :: "N"%char :: " "%char :: name).
  destruct (py_strip_tagged "#" "N" name) as (s' & -> & Hs'); [done..|].
  change (is_empty ("#"%char :: "N"%char :: s')) with false.
  change (startswith ("#"%char :: "N"%char :: s') (lit "#")) with true.
  assert (startswith ("#"%char :: "N"%char :: s') (lit "#N") = true) as ->
    by apply (startswith_app (lit "#N") s').
  change (drop 2 ("#"%char :: "N"%char :: s')) with s'.
  cbv iota. by rewrite Hs'.
Qed.

Lemma scan_line_author (st : rle_scan) (author : pystr) :
  scan_line st (lit "#O " ++ author)
  = Ok {| scan_meta :=
            {| meta_name := meta_name (scan_meta st);
               meta_author := py_strip author;
               meta_description := meta_description (scan_meta st) |};
          scan_width := scan_width st; scan_height := scan_height st;
          scan_lines := scan_lines st |}.
Proof.
  unfold scan_line.
  change (lit "#O " ++ author)
    with ("#"%char :: "O"%char :: " "%char :: author).
  destruct (py_strip_tagged "#" "O" author) as (s' & -> & Hs'); [done..|].
  change (is_empty ("#"%char :: "O"%char :: s')) with false.
  change (startswith ("#"%char :: "O"%char :: s') (lit "#")) with true.
  change (startswith ("#"%char :: "O"%char :: s') (lit "#N")) with false.
  assert (startswith ("#"%char :: "O"%char :: s') (lit "#O") = true) as ->
    by apply (startswith_app (lit "#O") s').
  change (drop 2 ("#"%char :: "O"%char :: s')) with s'.
  cbv iota. by rewrite Hs'.
Qed.

Lemma for_each_app {A S} (l k : list A) (body : S → A → result S) (s : S) :
  for_each (l ++ k) body s = s' ← for_each l body s; for_each k body s'.
Proof.
  revert s. induction l as [|a l IH]; intros s; [done|].
  cbn [app for_each]. destruct (body s a) as [s1|e]; [|done].
  rewrite !bind_Ok. apply IH.
Qed.

(** ** Arrays without a live cell *)

Lemma row_at_dead (row : list Z) (i : Z) :
  Forall (λ v, v = 0) row → row_at row i = 0.
Proof.
  intros H. unfold row_at.
  destruct (row !! Z.to_nat i) as [v|] eqn:E; [|done].
  apply (Forall_lookup_1 _ _ _ _ H E).
Qed.

Lemma encode_row_dead (row : list Z) :
  Forall (λ v, v = 0) row → encode_row (len row) row = [].
Proof.
  intros Hd. unfold encode_row. set (W := len row).
  destruct (Z.to_nat W) as [|fuel] eqn:EW; [done|].
  rewrite encode_row_loop_S. cbv zeta.
  replace (0 <? W) with true by lia.
  rewrite (row_at_dead row 0 Hd). change (0 =? 0) with true.
  destruct (run_loop_spec (Z.to_nat W) row W 0 0 1) as (_ & _ & _ & Hend);
    [lia|lia| |lia|].
  { intros i _. by apply row_at_dead. }
  destruct Hend as [Hend|Hend]; [|by rewrite row_at_dead in Hend].
  by replace (W <=? 0 + run_loop (Z.to_nat W) row W 0 0 1) with true by lia.
Qed.

Lemma drop_trailing_empty_all (parts : list pystr) :
  Forall (λ p, p = []) parts → drop_trailing_empty parts = [].
Proof.
  intros H. unfold drop_trailing_empty.
  assert (drop_while is_empty (reverse parts) = []) as ->; [|done].
  apply Forall_reverse in H. induction H as [|p ps -> _ IH]; [done|].
  done.
Qed.

(** The body written for an array without a live cell is the closing
    mark alone. *)
Lemma rle_body_dead h w (m : matrix) :
  shape h w m → all_dead m → rle_body m = lit "!".
Proof.
  intros [Hl Hr] Hd. unfold rle_body.
  rewrite drop_trailing_empty_all; [done|].
  apply Forall_fmap, Forall_lookup. intros i r Hi. simpl.
  pose proof (Forall_lookup_1 _ _ _ _ Hr Hi) as Hlr.
  pose proof (Forall_lookup_1 _ _ _ _ Hd Hi) as Hdr. simpl in *.
  assert (ncols m = len r) as ->; [|by apply encode_row_dead].
  unfold ncols, len. destruct m as [|r0 m]; [done|].
  apply Forall_cons in Hr as [Hr0 _]. simpl in *. by rewrite Hr0, Hlr.
Qed.

Lemma dead_is_zeros h w (m : matrix) :
  shape h w m → all_dead m → m = replicate h (replicate w 0).
Proof.
  intros Hs Hd. apply (reads_inj h w _ _ (λ _ _, 0)).
  - split; [done|]. intros y x _ _. by apply mat_read_dead.
  - apply reads_replicate.
Qed.

(** ** Reading back a text with metadata *)

Lemma solid_no_LF (c : ascii) : is_space c = false → c ≠ LF.
Proof. by intros H ->. Qed.

Lemma comment_line_plain (ws : list pystr) :
  Forall (λ w, w ≠ [] ∧ Forall (λ c, is_space c = false) w) ws →
  plain_line (comment_line ws).
Proof.
  intros Hws. split; [by exists "#"%char|].
  unfold comment_line. apply Forall_app. split; [by repeat constructor|].
  apply Forall_concat, Forall_fmap.
  eapply Forall_impl; [apply Hws|]. intros w [_ Hw]. simpl.
  constructor; [done|].
  eapply Forall_impl; [apply Hw|]. intros c. apply solid_no_LF.
Qed.

Lemma head_py_join (sep : pystr) (l : pystr) (ls : list pystr) (c : ascii) :
  head l = Some c → head (py_join sep (l :: ls)) = Some c.
Proof.
  intros Hl. destruct l as [|c0 l]; [done|]. by destruct ls.
Qed.

(** The text written by [to_rle] is scanned back into the stripped name
    and author, the words of the description, the declared size and the
    lines of the body. *)
Lemma rle_scan_text_written_meta (m : matrix)
    (name author description : pystr) :
  Forall (λ c, c ≠ LF) name → Forall (λ c, c ≠ LF) author →
  0 < nrows m → 0 < ncols m →
  Forall (λ c, body_char c = true) (rle_body m) →
  rle_scan_text (to_rle m name author description)
  = Ok {| scan_meta :=
            {| meta_name := py_strip name; meta_author := py_strip author;
               meta_description :=
                 py_join (lit " ") (py_split description) |};
          scan_width := ncols m; scan_height := nrows m;
          scan_lines := wrap_body (rle_body m) |}.
Proof.
  intros Hname Hauthor Hh Hw Hchars.
  (* the lines of the body *)
  destruct (wrap_body_spec (rle_body m)) as [_ Hcat].
  pose proof (wrap_body_nonempty (rle_body m)) as Hne.
  assert (Forall (Forall (λ c, body_char c = true)) (wrap_body (rle_body m)))
    as Hlines by (apply Forall_concat_inv; by rewrite Hcat).
  set (lines := wrap_body (rle_body m)) in *.
  assert (∃ init lst, lines = init ++ [lst]) as (init & lst & Elines).
  { destruct lines as [|l ls] using rev_ind; [|by eexists _, _].
    simpl in Hcat. unfold rle_body in Hcat. by destruct (py_join _ _). }
  assert (Forall plain_line lines) as Hplain.
  { apply Forall_forall. intros l Hl. rewrite Forall_forall in Hne, Hlines.
    specialize (Hne l Hl). specialize (Hlines l Hl). split.
    - destruct l as [|c l]; [done|]. exists c. split; [done|].
      apply Forall_cons in Hlines as [Hc _]. by apply body_char_plain.
    - eapply Forall_impl; [apply Hlines|]. intros c Hc.
      by apply body_char_plain. }
  (* the header *)
  assert (plain_line (rle_header m)) as Hhead.
  { split; [by exists "x"%char|].
    unfold rle_header. repeat apply Forall_app_2; try by repeat constructor.
    - destruct (py_str_spec (ncols m)) as (Hd & _); [lia|].
      apply forallb_Forall in Hd. eapply Forall_impl; [apply Hd|].
      intros c Hc. by apply decimal_plain.
    - destruct (py_str_spec (nrows m)) as (Hd & _); [lia|].
      apply forallb_Forall in Hd. eapply Forall_impl; [apply Hd|].
      intros c Hc. by apply decimal_plain. }
  (* the metadata lines *)
  destruct (wrap_description_groups description) as (groups & Hg & Hgc & Hgt).
  assert (Forall (Forall (λ w, w ≠ [] ∧ Forall (λ c, is_space c = false) w))
            groups) as Hwords.
  { apply Forall_concat_inv. rewrite Hgc. by apply py_words_solid. }
  set (Ln := if is_empty name then [] else [lit "#N " ++ name]).
  set (Lo := if is_empty author then [] else [lit "#O " ++ author]).
  set (Ld := if is_empty description then []
             else wrap_description description).
  assert (Forall plain_line Ln) as HLn.
  { unfold Ln. destruct name; simpl; [done|]. constructor; [|done].
    split; [by exists "#"%char|]. by repeat (constructor; [done|]). }
  assert (Forall plain_line Lo) as HLo.
  { unfold Lo. destruct author; simpl; [done|]. constructor; [|done].
    split; [by exists "#"%char|]. by repeat (constructor; [done|]). }
  assert (Forall plain_line Ld) as HLd.
  { unfold Ld. destruct (is_empty description); [done|]. rewrite Hg.
    apply Forall_fmap. eapply Forall_impl; [apply Hwords|].
    intros ws Hws. by apply comment_line_plain. }
  set (st1 := {| scan_meta := {| meta_name := py_strip name;
                                 meta_author := []; meta_description := [] |};
                 scan_width := 0; scan_height := 0; scan_lines := [] |}).
  set (st2 := {| scan_meta := {| meta_name := py_strip name;
                                 meta_author := py_strip author;
                                 meta_description := [] |};
                 scan_width := 0; scan_height := 0; scan_lines := [] |}).
  set (st3 := {| scan_meta :=
                   {| meta_name := py_strip name;
                      meta_author := py_strip author;
                      meta_description :=
                        py_join (lit " ") (py_split description) |};
                 scan_width := 0; scan_height := 0; scan_lines := [] |}).
  assert (for_each Ln scan_line scan_start = Ok st1) as Hs1.
  { unfold Ln. destruct name as [|c name]; [done|].
    change (is_empty (c :: name)) with false. cbv iota. cbn [for_each].
    by rewrite scan_line_name. }
  assert (for_each Lo scan_line st1 = Ok st2) as Hs2.
  { unfold Lo. destruct author as [|c author]; [done|].
    change (is_empty (c :: author)) with false. cbv iota. cbn [for_each].
    by rewrite scan_line_author. }
  assert (for_each Ld scan_line st2 = Ok st3) as Hs3.
  { unfold Ld. destruct description as [|c description]; [done|].
    change (is_empty (c :: description)) with false. cbv iota.
    rewrite Hg.
    rewrite (scan_comment_lines groups Hwords Hgt st2 []); [|done|done|by left].
    unfold st3. by rewrite app_nil_l, Hgc. }
  (* the text *)
  unfold rle_scan_text, to_rle, to_rle_lines.
  fold Ln Lo Ld lines.
  set (L := Ln ++ Lo ++ Ld ++ [rle_header m] ++ lines).
  assert (Forall plain_line L) as HL.
  { unfold L. repeat apply Forall_app_2; try done. by constructor. }
  assert (∃ l0 L', L = l0 :: L') as (l0 & L' & EL).
  { unfold L. destruct Ln; [|by eexists _, _]. destruct Lo; [|by eexists _, _].
    destruct Ld; by eexists _, _. }
  assert (∃ L0, L = L0 ++ [lst]) as (L0 & EL0).
  { exists (Ln ++ Lo ++ Ld ++ [rle_header m] ++ init).
    unfold L. rewrite Elines. by rewrite <- !app_assoc. }
  assert (py_strip (py_join [LF] L) = py_join [LF] L) as ->.
  { apply py_strip_id.
    - rewrite EL in HL |- *. apply Forall_cons in HL as [[(c & Hc & Hsc) _] _].
      rewrite (head_py_join _ _ _ c Hc). by intros ? [= <-].
    - rewrite EL0.
      assert (lst ≠ []) as Hlst.
      { rewrite Elines in Hne.
        by apply Forall_app in Hne as [_ [? _]%Forall_cons]. }
      destruct (last lst) as [c0|] eqn:El; [|by apply last_None in El].
      rewrite (py_join_last _ _ _ _ El). intros c [= <-].
      apply last_Some_elem_of in El.
      rewrite Elines in Hlines.
      apply Forall_app in Hlines as [_ [Hl _]%Forall_cons].
      rewrite Forall_forall in Hl. by apply body_char_plain, Hl. }
  rewrite py_split_on_join.
  2:{ by rewrite EL. }
  2:{ eapply Forall_impl; [apply HL|]. by intros l [_ ?]. }
  unfold L. rewrite for_each_app, Hs1, bind_Ok.
  rewrite for_each_app, Hs2, bind_Ok. rewrite for_each_app, Hs3, bind_Ok.
  cbn [app for_each]. rewrite scan_line_header, bind_Ok.
  rewrite scan_body_lines by done. rewrite bind_Ok.
  cbn [scan_width scan_height scan_meta scan_lines st3].
  replace (ncols m =? 0) with false by lia.
  by replace (nrows m =? 0) with false by lia.
Qed.

Lemma rle_body_is_body (h w : nat) (m : matrix) :
  shape h w m → no_dead_border m = true ∨ all_dead m →
  Forall (λ c, body_char c = true) (rle_body m).
Proof.
  intros Hs [Hb|Hd].
  - by apply (rle_body_chars h w).
  - rewrite (rle_body_dead h w) by done. by repeat constructor.
Qed.

(** Decoding the body gives the array back on the canvas, and trimming
    leaves it alone. *)
Lemma rle_body_decoded (h w : nat) (m : matrix) :
  shape h w m → (0 < h)%nat → (0 < w)%nat → binary m →
  no_dead_border m = true ∨ all_dead m →
  (st ← decode (Z.of_nat w) (Z.of_nat h) (rle_body m)
         {| cur_x := 0; cur_y := 0; run_count := [];
            canvas := replicate h (replicate w 0) |};
   Ok (canvas st)) = Ok m ∧
  trim_canvas m = Ok m.
Proof.
  intros Hs Hh Hw Hbin [Hb|Hd].
  - split; [|by apply (trim_canvas_id h w)].
    rewrite (rle_body_written h w m Hs Hb).
    destruct (decode_rows (Z.of_nat w) (Z.of_nat h) m ltac:(lia) Hbin
                ltac:(destruct m; [by destruct Hs as [? _]; simpl in *; lia|done])
                0 (replicate (Z.to_nat (Z.of_nat h))
                     (replicate (Z.to_nat (Z.of_nat w)) 0))
                (λ _ _, 0) ltac:(lia) (reads_replicate _ _) ltac:(done))
      as (st & Hdec & Hst).
    rewrite !Nat2Z.id in Hdec, Hst. rewrite Hdec, bind_Ok. f_equal.
    apply (reads_inj h w _ _ (mat_read m)); [|by split].
    eapply reads_ext; [apply Hst|]. intros r c Hr Hc. simpl.
    replace (0 <=? r) with true by lia. by rewrite Z.sub_0_r.
  - split; [|by apply trim_canvas_dead].
    rewrite (rle_body_dead h w) by done.
    change (lit "!") with ["!"%char]. rewrite decode_bang, bind_Ok.
    cbn [canvas]. f_equal. symmetry. by apply dead_is_zeros.
Qed.

(** The round trip for a kept pattern, whatever the metadata. *)
Lemma kept_round_trip h w (m : matrix) (name author description : pystr) :
  kept_pattern h w m →
  Forall (λ c, c ≠ LF) name → Forall (λ c, c ≠ LF) author →
  parse_rle (to_rle m name author description)
  = Ok (m, {| meta_name := py_strip name; meta_author := py_strip author;
              meta_description :=
                py_join (lit " ") (py_split description) |}).
Proof.
  intros (Hs & Hh & Hw & Hbin & Hcase) Hname Hauthor.
  pose proof (shape_nrows _ _ _ Hs) as Hnr.
  pose proof (shape_ncols _ _ _ Hs Hh) as Hnc.
  pose proof (rle_scan_text_written_meta m name author description
                Hname Hauthor ltac:(lia) ltac:(lia)
                (rle_body_is_body h w m Hs Hcase)) as Hscan.
  destruct (rle_body_decoded h w m Hs Hh Hw Hbin Hcase) as [Hdec Htrim].
  unfold parse_rle, rle_canvas. rewrite Hscan, !bind_Ok.
  cbn [scan_width scan_height scan_lines scan_meta].
  destruct (wrap_body_spec (rle_body m)) as [_ ->].
  rewrite Hnr, Hnc, np_zeros_nonneg, bind_Ok by lia.
  rewrite !Nat2Z.id, Hdec, bind_Ok, Htrim. done.
Qed.

(** X12: the round trip with metadata.  For every rectangular array of
    cells 0 and 1 with at least one row and one column, which has a live
    cell on each of its four border lines or no live cell at all, and for
    every name and author without line feed and every description,
    parsing the text that [to_rle] writes succeeds and returns the array
    itself, the name and the author stripped of the white space at their
    ends, and the words of the description joined by single spaces. *)
Theorem rle_round_trip_with_metadata (h w : nat) (m : matrix)
    (name author description : pystr) :
  shape h w m → (0 < h)%nat → (0 < w)%nat → binary m →
  no_dead_border m = true ∨ all_dead m →
  Forall (λ c, c ≠ LF) name → Forall (λ c, c ≠ LF) author →
  parse_rle (to_rle m name author description)
  = Ok (m, {| meta_name := py_strip name; meta_author := py_strip author;
              meta_description :=
                py_join (lit " ") (py_split description) |}).
Proof.
  intros Hs Hh Hw Hbin Hcase Hname Hauthor.
  by apply (kept_round_trip h w).
Qed.

Lemma rle_round_trip_with_metadata_witness :
  parse_rle (to_rle glider (lit " Glider ") (lit "R. K. Guy")
               (lit "The  smallest spaceship."))
  = Ok (glider, {| meta_name := lit "Glider"; meta_author := lit "R. K. Guy";
                   meta_description := lit "The smallest spaceship." |}).
Proof.
  assert (shape 3 3 glider) as Hs by (split; [done|repeat constructor]).
  assert (binary glider) as Hbin by (cbv [glider]; solve_binary).
  apply (rle_round_trip_with_metadata 3 3 glider (lit " Glider ")
           (lit "R. K. Guy") (lit "The  smallest spaceship.") Hs);
    [lia|lia|done|by left|by repeat constructor..].
Defined.

(** ** Bounding boxes *)

Lemma all_dead_reads h w (m : matrix) :
  shape h w m →
  (∀ r c, 0 ≤ r < Z.of_nat h → 0 ≤ c < Z.of_nat w → mat_read m r c = 0) →
  all_dead m.
Proof.
  intros [Hl Hr] Hz. apply Forall_lookup. intros i row Hi.
  apply Forall_lookup. intros j v Hj.
  pose proof (lookup_lt_Some _ _ _ Hi). pose proof (lookup_lt_Some _ _ _ Hj).
  pose proof (Forall_lookup_1 _ _ _ _ Hr Hi) as Hlr. simpl in Hlr.
  specialize (Hz (Z.of_nat i) (Z.of_nat j)). unfold mat_read in Hz.
  rewrite !Nat2Z.id, Hi in Hz. simpl in Hz. rewrite Hj in Hz. simpl in Hz.
  apply Hz; lia.
Qed.

(** Without a live row or without a live column there is no live cell. *)
Lemma masks_dead h w (m : matrix) :
  shape h w m →
  existsb id (any_rows m) && existsb id (any_cols m) = false →
  all_dead m.
Proof.
  intros Hs Hmask. apply (all_dead_reads h w); [done|].
  intros r c Hr Hc.
  destruct (decide (mat_read m r c = 0)) as [|Hlive]; [done|]. exfalso.
  assert (any_rows m !! Z.to_nat r = Some true) as Hrow.
  { apply (any_rows_true h w); [done|]. split; [lia|].
    exists c. split; [done|]. by rewrite Z2Nat.id by lia. }
  assert (any_cols m !! Z.to_nat c = Some true) as Hcol.
  { apply (any_cols_true h w); [done|]. split; [lia|].
    exists r. split; [done|]. by rewrite Z2Nat.id by lia. }
  rewrite (existsb_lookup _ _ Hrow), (existsb_lookup _ _ Hcol) in Hmask.
  done.
Qed.

(** An array read through [f] whose four border lines each hold a live
    cell. *)
Lemma no_dead_border_intro (h w : nat) (m : matrix) (f : Z → Z → Z) :
  reads h w m f → (0 < h)%nat → (0 < w)%nat →
  (∃ c, 0 ≤ c < Z.of_nat w ∧ f 0 c ≠ 0) →
  (∃ c, 0 ≤ c < Z.of_nat w ∧ f (Z.of_nat h - 1) c ≠ 0) →
  (∃ r, 0 ≤ r < Z.of_nat h ∧ f r 0 ≠ 0) →
  (∃ r, 0 ≤ r < Z.of_nat h ∧ f r (Z.of_nat w - 1) ≠ 0) →
  no_dead_border m = true.
Proof.
  intros [[Hl Hr] Hf] Hh Hw (ct & Hct & Ht) (cb & Hcb & Hb)
    (rl & Hrl & Hlf) (rr & Hrr & Hrt).
  rewrite <- Hf in Ht, Hb, Hlf, Hrt by lia.
  assert (Hrow : ∀ i : nat, (i < h)%nat →
            ∃ row, m !! i = Some row ∧ length row = w).
  { intros i Hi. by apply (shape_lookup h w). }
  assert (Hex : ∀ (i : nat) row c, m !! i = Some row → 0 ≤ c < Z.of_nat w →
            mat_read m (Z.of_nat i) c ≠ 0 → existsb nonzero row = true).
  { intros i row c Hi Hc Hv. apply existsb_nonzero_read.
    exists (Z.to_nat c). pose proof (Forall_lookup_1 _ _ _ _ Hr Hi) as Hlr.
    simpl in Hlr. split; [lia|].
    unfold mat_read in Hv. by rewrite Nat2Z.id, Hi in Hv. }
  assert (Hin : ∀ (r : Z) (g : list Z → bool) (c : Z),
            0 ≤ r < Z.of_nat h → mat_read m r c ≠ 0 →
            (∀ row, length row = w → default 0 (row !! Z.to_nat c) ≠ 0 →
                    g row = true) →
            existsb g m = true).
  { intros r g c Hrg Hv Hg.
    destruct (Hrow (Z.to_nat r)) as (row & Hi & Hlr); [lia|].
    apply existsb_exists. exists row.
    split; [by eapply list_elem_of_In, list_elem_of_lookup_2|].
    apply Hg; [done|]. unfold mat_read in Hv. by rewrite Hi in Hv. }
  unfold no_dead_border. repeat (apply andb_true_intro; split).
  - destruct (Hrow 0%nat Hh) as (row & Hi & _).
    assert (hd [] m = row) as -> by (destruct m; simpl in *; congruence).
    by apply (Hex 0%nat row ct).
  - destruct (Hrow (h - 1)%nat ltac:(lia)) as (row & Hi & _).
    assert (List.last m [] = row) as ->.
    { rewrite List_last_default, last_lookup.
      replace (Init.Nat.pred (length m)) with (h - 1)%nat by lia.
      by rewrite Hi. }
    apply (Hex (h - 1)%nat row cb); [done..|].
    by replace (Z.of_nat (h - 1)) with (Z.of_nat h - 1) by lia.
  - apply (Hin rl _ 0 Hrl Hlf). intros row Hlr Hv.
    unfold nonzero. apply negb_true_iff, Z.eqb_neq.
    destruct row; [done|]. done.
  - apply (Hin rr _ (Z.of_nat w - 1) Hrr Hrt). intros row Hlr Hv.
    unfold nonzero. apply negb_true_iff, Z.eqb_neq.
    rewrite List_last_default, last_lookup.
    by replace (Init.Nat.pred (length row)) with (Z.to_nat (Z.of_nat w - 1))
      by lia.
Qed.

(** The cut that [parse_rle] and [extract_region] make around the live
    cells of an array that has some. *)
Lemma trim_box h w (m : matrix) :
  shape h w m →
  existsb id (any_rows m) = true → existsb id (any_cols m) = true →
  ∃ (i j i' j' : nat),
    first_last (np_where (any_rows m)) = Ok (Z.of_nat i, Z.of_nat j) ∧
    first_last (np_where (any_cols m)) = Ok (Z.of_nat i', Z.of_nat j') ∧
    (i ≤ j < h)%nat ∧ (i' ≤ j' < w)%nat ∧
    reads (j - i + 1) (j' - i' + 1)
      (np_slice2 m (Z.of_nat i) (Z.of_nat j + 1)
                   (Z.of_nat i') (Z.of_nat j' + 1))
      (λ r c, mat_read m (Z.of_nat i + r) (Z.of_nat i' + c)) ∧
    no_dead_border
      (np_slice2 m (Z.of_nat i) (Z.of_nat j + 1)
                   (Z.of_nat i') (Z.of_nat j' + 1)) = true.
Proof.
  intros Hs Er Ec.
  pose proof (λ i, any_rows_true _ _ m i Hs) as Hrows.
  pose proof (λ j, any_cols_true _ _ m j Hs) as Hcols.
  destruct (np_where_first_last _ Er) as (i & j & Hfr & Hi & Hj & Hbr).
  destruct (np_where_first_last _ Ec) as (i' & j' & Hfc & Hi' & Hj' & Hbc).
  exists i, j, i', j'. split; [done|]. split; [done|].
  pose proof (Hbr _ Hi). pose proof (Hbc _ Hi').
  apply Hrows in Hi as (Hih & ci & Hci & Hvi).
  apply Hrows in Hj as (Hjh & cj & Hcj & Hvj).
  apply Hcols in Hi' as (Hiw & ri & Hri & Hvi').
  apply Hcols in Hj' as (Hjw & rj & Hrj & Hvj').
  split; [lia|]. split; [lia|].
  assert (Hcol_in : ∀ r c, 0 ≤ r < Z.of_nat h → 0 ≤ c < Z.of_nat w →
            mat_read m r c ≠ 0 →
            (i ≤ Z.to_nat r ≤ j)%nat ∧ (i' ≤ Z.to_nat c ≤ j')%nat).
  { intros r c Hr Hc Hv. split.
    - apply Hbr, Hrows. split; [lia|]. exists c. split; [done|].
      by rewrite Z2Nat.id by lia.
    - apply Hbc, Hcols. split; [lia|]. exists r. split; [done|].
      by rewrite Z2Nat.id by lia. }
  assert (Hbox : reads (j - i + 1) (j' - i' + 1)
            (np_slice2 m (Z.of_nat i) (Z.of_nat j + 1)
                         (Z.of_nat i') (Z.of_nat j' + 1))
            (λ r c, mat_read m (Z.of_nat i + r) (Z.of_nat i' + c))).
  { replace (Z.of_nat j + 1) with (Z.of_nat i + Z.of_nat (j - i + 1)) by lia.
    replace (Z.of_nat j' + 1) with (Z.of_nat i' + Z.of_nat (j' - i' + 1))
      by lia.
    eapply reads_slice2; [by apply reads_self|lia..]. }
  split; [done|].
  apply (no_dead_border_intro _ _ _ _ Hbox); try lia.
  - destruct (Hcol_in (Z.of_nat i) ci) as [_ ?]; [lia|done|done|].
    exists (ci - Z.of_nat i'). split; [lia|].
    by replace (Z.of_nat i + 0) with (Z.of_nat i) by lia;
       replace (Z.of_nat i' + (ci - Z.of_nat i')) with ci by lia.
  - destruct (Hcol_in (Z.of_nat j) cj) as [_ ?]; [lia|done|done|].
    exists (cj - Z.of_nat i'). split; [lia|].
    by replace (Z.of_nat i + (Z.of_nat (j - i + 1) - 1)) with (Z.of_nat j)
         by lia;
       replace (Z.of_nat i' + (cj - Z.of_nat i')) with cj by lia.
  - destruct (Hcol_in ri (Z.of_nat i')) as [? _]; [done|lia|done|].
    exists (ri - Z.of_nat i). split; [lia|].
    by replace (Z.of_nat i' + 0) with (Z.of_nat i') by lia;
       replace (Z.of_nat i + (ri - Z.of_nat i)) with ri by lia.
  - destruct (Hcol_in rj (Z.of_nat j')) as [? _]; [done|lia|done|].
    exists (rj - Z.of_nat i). split; [lia|].
    by replace (Z.of_nat i' + (Z.of_nat (j' - i' + 1) - 1)) with (Z.of_nat j')
         by lia;
       replace (Z.of_nat i + (rj - Z.of_nat i)) with rj by lia.
Qed.

Lemma reads_mat_read_binary h w (out m : matrix) (a b : Z) :
  reads h w out (λ r c, mat_read m (a + r) (b + c)) → binary m → binary out.
Proof.
  intros Hr Hb. eapply reads_binary; [apply Hr|].
  intros r c. by apply mat_read_binary.
Qed.

(** ** What the decoder and the region extraction return *)

(** The decoding loop only ever writes 1. *)
Lemma decode_binary (W H : Z) (chars : pystr) (st : rle_state) :
  forallb is_ascii chars = true → decoding W H st → binary (canvas st) →
  ∃ st', decode W H chars st = Ok st' ∧ decoding W H st' ∧
         binary (canvas st').
Proof.
  revert st. induction chars as [|c chars IH]; intros st Ha Hst Hbin; simpl.
  - by exists st.
  - simpl in Ha. bool_to_prop.
    pose proof Hst as (Hx & Hy & Hd & Hs).
    rewrite ascii_isdigit by done.
    destruct (is_decimal c) eqn:Ed.
    { apply IH; [done| |done]. unfold decoding. simpl. split_and!; try done.
      rewrite forallb_app, Hd. simpl. by rewrite Ed. }
    destruct (pending_count_decimal _ Hd) as (n & Hn & Hn0).
    destruct (Ascii.eqb c "b") eqn:Eb.
    { rewrite Hn. simpl. apply IH; [done| |done].
      unfold decoding. simpl. split_and!; done || lia. }
    destruct (Ascii.eqb c "o") eqn:Eo.
    { rewrite Hn. simpl.
      destruct (mark_run_reads (Z.to_nat n) W H (cur_x st) (cur_y st) _ _
                  Hx Hy (reads_self _ _ _ Hs)) as (data' & -> & Hr).
      simpl. apply IH; [done| |].
      - unfold decoding. simpl. split_and!; try done; try lia. apply Hr.
      - simpl. eapply reads_binary; [apply Hr|]. intros r c0. simpl.
        destruct (_ && _); [by right|by apply mat_read_binary]. }
    destruct (Ascii.eqb c "$") eqn:Es.
    { rewrite Hn. simpl. apply IH; [done| |done].
      unfold decoding. simpl. split_and!; done || lia. }
    destruct (Ascii.eqb c "!") eqn:Ee.
    { by exists st. }
    by apply IH.
Qed.

Lemma binary_zeros (h w : nat) : binary (replicate h (replicate w 0)).
Proof. apply all_dead_binary, all_dead_zeros. Qed.

(** What [parse_rle] returns for an ASCII text. *)
Lemma parse_rle_kept (content : pystr) :
  forallb is_ascii content = true →
  ∃ sc data h w,
    rle_scan_text content = Ok sc ∧
    parse_rle content = Ok (data, scan_meta sc) ∧
    kept_pattern h w data ∧
    Z.of_nat h ≤ scan_height sc ∧ Z.of_nat w ≤ scan_width sc.
Proof.
  intros Ha. pose proof Ha as Ha'%forallb_Forall.
  destruct (rle_scan_text_total _ content Ha') as (sc & Hsc & Hw & Hh & Hls).
  unfold parse_rle, rle_canvas. rewrite Hsc, !bind_Ok.
  rewrite np_zeros_nonneg, bind_Ok by lia.
  destruct (decode_binary (scan_width sc) (scan_height sc)
              (concat (scan_lines sc))
              {| cur_x := 0; cur_y := 0; run_count := [];
                 canvas := replicate (Z.to_nat (scan_height sc))
                             (replicate (Z.to_nat (scan_width sc)) 0) |})
    as (st & -> & (_ & _ & _ & Hs) & Hbin).
  - apply forallb_Forall. by apply Forall_concat.
  - unfold decoding. simpl. split_and!; try done. apply shape_zeros.
  - apply binary_zeros.
  - rewrite !bind_Ok. set (cv := canvas st) in *.
    unfold trim_canvas.
    destruct (existsb id (any_rows cv) && existsb id (any_cols cv)) eqn:E.
    + apply andb_prop in E as [Er Ec].
      destruct (trim_box _ _ cv Hs Er Ec)
        as (i & j & i' & j' & -> & -> & Hij & Hij' & Hbox & Hborder).
      rewrite !bind_Ok.
      exists sc. eexists. exists (j - i + 1)%nat, (j' - i' + 1)%nat.
      split; [done|]. split; [done|]. split; [|lia].
      split; [apply Hbox|]. split; [lia|]. split; [lia|].
      split; [|by left]. by eapply reads_mat_read_binary.
    + exists sc, cv, (Z.to_nat (scan_height sc)), (Z.to_nat (scan_width sc)).
      split; [done|]. split; [done|]. split; [|lia].
      split; [done|]. split; [lia|]. split; [lia|]. split; [done|].
      right. by eapply masks_dead.
Qed.

(** What [extract_region] returns when the rectangle does not end before
    the origin. *)
Lemma extract_region_kept h w (m : matrix) (x y width height : Z) :
  shape h w m → binary m → 0 ≤ x + width → 0 ≤ y + height →
  ∃ out h' w', extract_region m x y width height = Ok out ∧
               kept_pattern h' w' out.
Proof.
  intros Hs0 Hbin Hxw Hyh.
  pose proof (shape_canonical _ _ _ Hs0) as Hs.
  unfold extract_region.
  set (x1 := Z.max 0 x). set (y1 := Z.max 0 y).
  set (x2 := Z.min (ncols m) (x + width)).
  set (y2 := Z.min (nrows m) (y + height)).
  assert (0 ≤ nrows m ∧ 0 ≤ ncols m) as [HH HW] by (unfold nrows, ncols; lia).
  assert (0 ≤ y1 ∧ 0 ≤ x1 ∧ 0 ≤ y2 ≤ Z.of_nat (Z.to_nat (nrows m)) ∧
          0 ≤ x2 ≤ Z.of_nat (Z.to_nat (ncols m))) as (Hy1 & Hx1 & Hy2 & Hx2)
    by lia.
  clearbody x1 y1 x2 y2.
  pose proof (reads_slice2_clamped _ _ m y1 y2 x1 x2 Hs Hy1 Hy2 Hx1 Hx2)
    as Hreg.
  set (region := np_slice2 m y1 y2 x1 x2) in *.
  assert (binary region) as Hrb by (by eapply reads_mat_read_binary).
  destruct Hreg as [Hrs _].
  destruct (existsb id (any_rows region)) eqn:Er;
    destruct (existsb id (any_cols region)) eqn:Ec; simpl;
    try (exists [[0]], 1%nat, 1%nat; split; [done|];
         split; [by split; [|repeat constructor]|];
         split; [lia|]; split; [lia|];
         split; [by repeat constructor|]; right; by repeat constructor).
  destruct (trim_box _ _ region Hrs Er Ec)
    as (i & j & i' & j' & -> & -> & Hij & Hij' & Hbox & Hborder).
  simpl. eexists _, (j - i + 1)%nat, (j' - i' + 1)%nat.
  split; [done|]. split; [apply Hbox|]. split; [lia|]. split; [lia|].
  split; [|by left]. by eapply reads_mat_read_binary.
Qed.

(** X14: what [parse_rle] returns is stable under saving.  If an ASCII
    text parses to an array, then writing that array with [to_rle], under
    any name and author without line feed and any description, and
    parsing the result gives the same array again, with the name and the
    author stripped and the words of the description joined by single
    spaces. *)
Theorem parse_rle_output_is_stable (content : pystr) (data : matrix)
    (meta : metadata) (name author description : pystr) :
  forallb is_ascii content = true →
  parse_rle content = Ok (data, meta) →
  Forall (λ c, c ≠ LF) name → Forall (λ c, c ≠ LF) author →
  parse_rle (to_rle data name author description)
  = Ok (data, {| meta_name := py_strip name; meta_author := py_strip author;
                 meta_description :=
                   py_join (lit " ") (py_split description) |}).
Proof.
  intros Ha Hparse Hname Hauthor.
  destruct (parse_rle_kept content Ha) as (sc & d & h & w & _ & Hp & Hk & _).
  rewrite Hp in Hparse. injection Hparse as <- <-.
  by apply (kept_round_trip h w).
Qed.

(** X15: a region cut out of a grid survives saving.  For a rectangular
    array of cells 0 and 1 and a rectangle that does not end before the
    origin ([x + width] and [y + height] not negative), [extract_region]
    succeeds, and parsing the text that [to_rle] writes for the region,
    under any name and author without line feed and any description,
    returns that region and the metadata. *)
Theorem extracted_region_survives_saving h w (m : matrix)
    (x y width height : Z) (name author description : pystr) :
  shape h w m → binary m → 0 ≤ x + width → 0 ≤ y + height →
  Forall (λ c, c ≠ LF) name → Forall (λ c, c ≠ LF) author →
  ∃ region, extract_region m x y width height = Ok region ∧
    parse_rle (to_rle region name author description)
    = Ok (region,
          {| meta_name := py_strip name; meta_author := py_strip author;
             meta_description :=
               py_join (lit " ") (py_split description) |}).
Proof.
  intros Hs Hbin Hxw Hyh Hname Hauthor.
  destruct (extract_region_kept h w m x y width height Hs Hbin Hxw Hyh)
    as (out & h' & w' & Hout & Hk).
  exists out. split; [done|]. by apply (kept_round_trip h' w').
Qed.

Lemma parse_rle_output_is_stable_witness :
  parse_rle (to_rle [[0; 0; 0]; [0; 0; 0]] (lit "empty") [] [])
  = Ok ([[0; 0; 0]; [0; 0; 0]],
        {| meta_name := lit "empty"; meta_author := [];
           meta_description := [] |}).
Proof.
  apply (parse_rle_output_is_stable
           (lit "x = 3, y = 2" ++ [LF] ++ lit "3b!") _ no_metadata
           (lit "empty") [] []).
  - done.
  - by vm_compute.
  - by repeat constructor.
  - done.
Defined.

Lemma extracted_region_survives_saving_witness :
  ∃ region, extract_region demo_cells 1 0 5 5 = Ok region ∧
            fst <$> parse_rle (to_rle region (lit "cut") [] []) = Ok region.
Proof.
  destruct (extracted_region_survives_saving 2 3 demo_cells 1 0 5 5
              (lit "cut") [] []) as (region & Hcut & Hparse).
  - split; [done|repeat constructor].
  - cbv [demo_cells]. solve_binary.
  - lia.
  - lia.
  - by repeat constructor.
  - done.
  - exists region. split; [done|]. by rewrite Hparse.
Defined.

(** X13: what [parse_rle] returns.  For an ASCII text the call succeeds
    and the array returned is rectangular with at least one row and one
    column, no larger than the canvas settled by the scan (the declared
    size, or 100 x 100), made of cells 0 and 1, and trimmed: each of its
    four border lines holds a live cell, unless it holds no live cell at
    all. *)
Theorem parse_rle_returns_a_trimmed_pattern (content : pystr) :
  forallb is_ascii content = true →
  ∃ sc data h w,
    rle_scan_text content = Ok sc ∧
    parse_rle content = Ok (data, scan_meta sc) ∧
    shape h w data ∧ (0 < h)%nat ∧ (0 < w)%nat ∧
    Z.of_nat h ≤ scan_height sc ∧ Z.of_nat w ≤ scan_width sc ∧
    binary data ∧ (no_dead_border data = true ∨ all_dead data).
Proof.
  intros Ha.
  destruct (parse_rle_kept content Ha)
    as (sc & data & h & w & Hsc & Hp & (Hs & Hh & Hw & Hb & Hcase) & Hhh & Hww).
  exists sc, data, h, w. by split_and!.
Qed.

Lemma parse_rle_returns_a_trimmed_pattern_witness :
  ∃ data meta, parse_rle (lit "x = 3, y = 2" ++ [LF] ++ lit "bo$o!")
               = Ok (data, meta) ∧
               (no_dead_border data = true ∨ all_dead data).
Proof.
  destruct (parse_rle_returns_a_trimmed_pattern
              (lit "x = 3, y = 2" ++ [LF] ++ lit "bo$o!") eq_refl)
    as (sc & data & h & w & _ & Hp & _ & _ & _ & _ & _ & _ & Hcase).
  exists data, (scan_meta sc). by split.
Defined.

(** ** Plaintext decoding *)

Lemma enumerate_elem_2 {A} (l : list A) (i : nat) (a : A) :
  l !! i = Some a → (Z.of_nat i, a) ∈ enumerate l.
Proof.
  intros H. unfold enumerate. apply list_elem_of_lookup_2 with i.
  apply lookup_zip_with_Some. exists (Z.of_nat i), a.
  split; [done|]. split; [|done].
  apply lookup_seqZ. split; [lia|]. apply lookup_lt_Some in H.
  unfold len. lia.
Qed.

Lemma cells_scan_lines (ls : list pystr) (m : metadata) (acc : list pystr) :
  (foldl cells_line (m, acc) ls).2
  = acc ++ (py_rstrip <$> List.filter is_pattern_line ls).
Proof.
  revert m acc. induction ls as [|l ls IH]; intros m acc.
  - simpl. by rewrite app_nil_r.
  - cbn [foldl List.filter]. unfold is_pattern_line at 1.
    unfold cells_line at 2.
    destruct (startswith l (lit "!")) eqn:E1.
    + cbn [negb andb].
      destruct (startswith (py_lower (py_strip (drop 1 l))) (lit "name:"));
        [apply IH|].
      destruct (startswith (py_lower (py_strip (drop 1 l))) (lit "author:"));
        apply IH.
    + cbn [negb andb]. destruct (is_empty (py_strip l)); cbn [negb].
      * apply IH.
      * rewrite IH, fmap_cons. by rewrite <- app_assoc.
Qed.

(** The marking loops of [parse_cells] write 1 under the alive markers
    and nothing else. *)
Lemma cells_marked (pattern_lines : list pystr) :
  let h := Z.to_nat (len pattern_lines) in
  let w := Z.to_nat (foldr Z.max 0 (len <$> pattern_lines)) in
  ∃ data,
    for_each (enumerate pattern_lines) (λ data '(y, line),
      for_each (enumerate line) (λ data '(x, char),
        if alive_marker char then np_set data y x 1 else Ok data) data)
      (replicate h (replicate w 0))
      = Ok data ∧
    reads h w data (cells_mark pattern_lines).
Proof.
  intros h w.
  set (inv (visited : Z → Z → Prop) (data : matrix) :=
    shape h w data ∧
    ∀ r c, 0 ≤ r < Z.of_nat h → 0 ≤ c < Z.of_nat w →
      (mat_read data r c = 0 ∨ mat_read data r c = cells_mark pattern_lines r c)
      ∧ (visited r c → mat_read data r c = cells_mark pattern_lines r c)).
  destruct (for_each_invariant
    (λ (rows : list (Z * pystr)) data,
       inv (λ r _, ∃ line, (r, line) ∈ rows) data)
    (λ data '(y, line),
      for_each (enumerate line) (λ data '(x, char),
        if alive_marker char then np_set data y x 1 else Ok data) data)
    (enumerate pattern_lines) (replicate h (replicate w 0)))
    as (data & Hrun & Hs & Hinv).
  - split; [apply shape_zeros|]. intros r c Hr Hc.
    destruct (reads_replicate h w) as [_ Hz]. rewrite Hz by done.
    split; [by left|]. intros (line & Hin). by apply elem_of_nil in Hin.
  - intros rows [y line] data [Hy Hline]%enumerate_elem [Hd Hrows].
    pose proof (list_elem_of_lookup_2 _ _ _ Hline) as Hin.
    pose proof (len_le_max _ _ Hin) as Hlen.
    destruct (for_each_invariant
      (λ (cols : list (Z * ascii)) data',
         inv (λ r c, (∃ l, (r, l) ∈ rows) ∨
                     (r = y ∧ ∃ ch, (c, ch) ∈ cols)) data')
      (λ data '(x, char),
        if alive_marker char then np_set data y x 1 else Ok data)
      (enumerate line) data) as (data' & Hrun & Hs' & Hinv').
    + split; [done|]. intros r c Hr Hc. destruct (Hrows r c Hr Hc) as [H1 H2].
      split; [done|]. intros [Hv|[_ (ch & Hch)]]; [by apply H2|].
      by apply elem_of_nil in Hch.
    + intros cols [x char] data1 [Hx Hchar]%enumerate_elem [Hd1 Hcols].
      assert (cells_mark pattern_lines y x = if alive_marker char then 1 else 0)
        as Hmark.
      { unfold cells_mark. rewrite Hline. simpl. by rewrite Hchar. }
      destruct (alive_marker char) eqn:E.
      * rewrite (np_set_shape h w) by (done || unfold h, w; lia).
        eexists. split; [done|]. split; [by apply shape_mat_write|].
        intros r c Hr Hc. destruct (Hcols r c Hr Hc) as [H1 H2].
        destruct (decide ((r, c) = (y, x))) as [[= -> ->]|Hne].
        -- rewrite (mat_read_write_eq _ _ _ _ _ _ Hd1) by lia.
           rewrite Hmark. by split; [right|].
        -- rewrite mat_read_write_ne by (lia || done).
           split; [done|]. intros [Hv|[-> (ch & Hch)]]; apply H2.
           ++ by left.
           ++ right. split; [done|]. exists ch.
              apply elem_of_app in Hch as [?|Hch%list_elem_of_singleton];
                [done|]. injection Hch as -> _. done.
      * exists data1. split; [done|]. split; [done|].
        intros r c Hr Hc. destruct (Hcols r c Hr Hc) as [H1 H2].
        split; [done|]. intros [Hv|[-> (ch & Hch)]].
        -- apply H2. by left.
        -- apply elem_of_app in Hch as [?|Hch%list_elem_of_singleton].
           ++ apply H2. right. split; [done|]. by exists ch.
           ++ injection Hch as -> ->. rewrite Hmark.
              destruct H1 as [H1|H1]; [done|]. by rewrite H1, Hmark.
    + exists data'. split; [done|]. split; [done|].
      intros r c Hr Hc. destruct (Hinv' r c Hr Hc) as [H1 H2].
      split; [done|]. intros (l & Hl).
      apply elem_of_app in Hl as [Hl|Hl%list_elem_of_singleton].
      * apply H2. left. by exists l.
      * injection Hl as -> ->.
        destruct (line !! Z.to_nat c) as [ch|] eqn:Ech.
        -- apply H2. right. split; [done|]. exists ch.
           rewrite <- (Z2Nat.id c) by lia. by apply enumerate_elem_2.
        -- destruct H1 as [H1|H1]; [|done]. rewrite H1.
           unfold cells_mark. rewrite Hline. simpl. by rewrite Ech.
  - exists data. split; [done|]. split; [done|].
    intros r c Hr Hc. destruct (Hinv r c Hr Hc) as [_ H2]. apply H2.
    destruct (lookup_lt_is_Some_2 pattern_lines (Z.to_nat r)) as [line Hl].
    { unfold h, len in Hr. lia. }
    exists line. rewrite <- (Z2Nat.id r) by lia. by apply enumerate_elem_2.
Qed.

(** X16: what [parse_cells] builds.  The pattern lines are the lines of
    the stripped text that do not start with '!' and are not blank, each
    with the white space at its end removed.  When there is one at least,
    the call succeeds and returns an array with one row per pattern line
    and the width of the longest, whose cell at row [y], column [x] is 1
    exactly where line [y] has an 'O' or a '*' at position [x], and 0
    under any other character and beyond the end of the line. *)
Theorem parse_cells_marks_the_alive_characters (content : pystr) :
  let pattern_lines :=
    py_rstrip <$> List.filter is_pattern_line
                    (py_split_on LF (py_strip content)) in
  (cells_scan content).2 = pattern_lines ∧
  (pattern_lines ≠ [] →
   ∃ data, parse_cells content = Ok (data, (cells_scan content).1) ∧
     reads (length pattern_lines)
           (Z.to_nat (foldr Z.max 0 (len <$> pattern_lines))) data
           (cells_mark pattern_lines)).
Proof.
  intros pattern_lines.
  assert ((cells_scan content).2 = pattern_lines) as Hlines.
  { unfold cells_scan. by rewrite cells_scan_lines. }
  split; [done|]. intros Hne.
  unfold parse_cells. destruct (cells_scan content) as [m pl].
  simpl in Hlines. subst pl. simpl.
  destruct pattern_lines as [|l pl] eqn:E; [done|]. rewrite <- E in *.
  assert (is_empty pattern_lines = false) as -> by (by rewrite E).
  rewrite np_zeros_nonneg.
  2:{ apply len_nonneg. }
  2:{ rewrite E. simpl. pose proof (len_nonneg l). lia. }
  rewrite bind_Ok.
  destruct (cells_marked pattern_lines) as (data & -> & Hr).
  exists data. rewrite bind_Ok. split; [done|].
  unfold len in Hr at 1. by rewrite Nat2Z.id in Hr.
Qed.

Lemma parse_cells_marks_the_alive_characters_witness :
  ∃ data, parse_cells (lit "!Name: T" ++ [LF] ++ lit ".O" ++ [LF] ++ lit "*")
          = Ok (data, (cells_scan
                  (lit "!Name: T" ++ [LF] ++ lit ".O" ++ [LF] ++ lit "*")).1) ∧
          mat_read data 0 1 = 1 ∧ mat_read data 1 1 = 0.
Proof.
  destruct (parse_cells_marks_the_alive_characters
              (lit "!Name: T" ++ [LF] ++ lit ".O" ++ [LF] ++ lit "*"))
    as [_ H].
  destruct H as (data & Hp & _ & Hr); [done|].
  exists data. split; [done|]. by rewrite !Hr by (vm_compute; done).
Defined.

(** ** Region extraction *)

Lemma extract_region_bounding_box_witness :
  ∃ out, extract_region demo_cells 0 0 3 2 = Ok out.
Proof.
  pose proof (extract_region_bounding_box 2 3 demo_cells 0 0 3 2) as H.
  cbv zeta in H. destruct H as (out & Hout & _).
  - split; [done|repeat constructor].
  - lia.
  - lia.
  - by exists out.
Defined.

(** * Further properties: demonstrations, built-in patterns, details *)

(** ** The demonstrations of the information screen *)

(** X17: the demonstrations of the information screen follow the
    engine.  For a demonstration whose arrays are rectangular, of one
    shape and made of cells 0 and 1, with a frame counter below
    [max_frames] (when that is positive) and a history of at most 100
    states: all of this still holds after [step]; [step] starts the
    demonstration again when the frame counter has reached
    [max_frames - 1] (for a positive [max_frames]) or the state is in the
    history; and otherwise the new cells are those that [Grid.step]
    computes on a bounded grid holding the state, that is, the B3/S23
    rule applied to each cell and the sum of its neighbours on the grid,
    and the frame counter goes up by 1. *)
Theorem demo_step_follows_the_engine (h w : nat) (d : PatternDemo) :
  demo_ok h w d →
  demo_ok h w (demo_step d) ∧
  (demo_restarts d → demo_step d = demo_reset d) ∧
  (¬ demo_restarts d →
   ∃ g', step (demo_grid h w d) = Ok g' ∧
     pd_cells (demo_step d) = cells g' ∧
     frame (demo_step d) = generation g' ∧
     reads h w (pd_cells (demo_step d))
       (λ y x, rule (mat_read (pd_cells d) y x)
                    (moore_sum (demo_grid h w d) x y))).
Proof.
  intros (Hh & Hw & Hsi & Hbi & Hs & Hb & Hf & Hmax & Hhist).
  assert (Hg : grid_ok (demo_grid h w d)).
  { split; [|done]. destruct Hs as [Hl Hr].
    unfold grid_shape, demo_grid. simpl. rewrite !Nat2Z.id.
    split_and!; (done || lia). }
  destruct (step_reads (demo_grid h w d) Hg) as (c & Hstep & Hr).
  assert (Hsame :
    zip_with (zip_with rule) (pd_cells d)
      (foldl (λ acc dy,
         foldl (λ acc dx,
           if (dx =? 0) && (dy =? 0) then acc
           else np_iadd acc
                  (np_slice2 (np_pad_zero (pd_cells d))
                     (1 + dy) (1 + dy + nrows (pd_cells d))
                     (1 + dx) (1 + dx + ncols (pd_cells d))))
           acc [-1; 0; 1])
         ((λ r : list Z, (λ _, 0) <$> r) <$> pd_cells d) [-1; 0; 1]) = c).
  { unfold step, count_neighbors in Hstep.
    change (is_toroidal (demo_grid h w d)) with false in Hstep.
    cbv iota in Hstep. rewrite bind_Ok in Hstep.
    rewrite (shape_nrows _ _ _ Hs), (shape_ncols _ _ _ Hs Hh).
    injection Hstep as Hc. exact Hc. }
  assert (Hreset : demo_ok h w (demo_reset d)).
  { unfold demo_ok, demo_reset. simpl. split_and!; try done; lia. }
  unfold demo_step.
  destruct ((0 <? max_frames d) && (max_frames d - 1 <=? frame d)) eqn:E1.
  { bool_to_prop. split; [done|]. split; [done|].
    intros Hn. exfalso. apply Hn. left. lia. }
  case_bool_decide as E2.
  { split; [done|]. split; [done|].
    intros Hn. exfalso. apply Hn. by right. }
  assert (Hr' : reads h w c
            (λ y x, rule (mat_read (pd_cells d) y x)
                         (moore_sum (demo_grid h w d) x y))).
  { simpl in Hr. by rewrite !Nat2Z.id in Hr. }
  cbv zeta. rewrite Hsame. split; [|split].
  - unfold demo_ok. cbn [initial_state pd_cells max_frames frame history].
    refine (conj Hh (conj Hw (conj Hsi (conj Hbi (conj (proj1 Hr')
              (conj _ (conj _ (conj _ _)))))))).
    + eapply reads_binary; [apply Hr'|]. intros. apply rule_binary.
    + lia.
    + intros Hpos. apply andb_false_iff in E1 as [E1|E1]; bool_to_prop; lia.
    + unfold len. rewrite length_app. simpl.
      destruct (100 <? Z.of_nat (length (history d) + 1)) eqn:E3.
      * rewrite length_drop, length_app. simpl. lia.
      * apply Z.ltb_ge in E3. rewrite length_app. simpl. lia.
  - intros [[H1 H2]|H3]; [|done].
    apply andb_false_iff in E1 as [E1|E1]; bool_to_prop; lia.
  - intros _. eexists. split; [apply Hstep|].
    cbn [cells generation pd_cells frame demo_grid]. by split_and!.
Qed.

Lemma demo_step_follows_the_engine_witness :
  demo_ok 3 3 (demo_step (PatternDemo_init glider 0)).
Proof.
  apply (demo_step_follows_the_engine 3 3 (PatternDemo_init glider 0)).
  unfold demo_ok, PatternDemo_init. simpl.
  assert (shape 3 3 glider) by (split; [done|repeat constructor]).
  assert (binary glider) by (cbv [glider]; solve_binary).
  split_and!; (done || lia).
Defined.

(** ** The built-in patterns *)

Lemma pystr_eqb_eq (s t : pystr) : pystr_eqb s t = true ↔ s = t.
Proof. unfold pystr_eqb. by rewrite bool_decide_eq_true. Qed.

Lemma dict_get_Some {V} (d : list (pystr * V)) (key : pystr) (v : V) :
  dict_get d key = Some v → (key, v) ∈ d.
Proof.
  induction d as [|[k v'] d IH]; [done|]. simpl.
  destruct (pystr_eqb k key) eqn:E.
  - apply pystr_eqb_eq in E as ->. intros [= ->]. left.
  - intros H. right. by apply IH.
Qed.

Lemma dict_get_None {V} (d : list (pystr * V)) (key : pystr) :
  dict_get d key = None → key ∉ fst <$> d.
Proof.
  induction d as [|[k v'] d IH]; [intros _ H; by apply elem_of_nil in H|].
  simpl. destruct (pystr_eqb k key) eqn:E; [done|].
  intros H [->|Hin]%elem_of_cons.
  - assert (pystr_eqb k k = true) by (by apply pystr_eqb_eq). congruence.
  - by apply IH.
Qed.

Lemma builtin_table_ok : forallb builtin_entry_ok BUILTIN_PATTERNS = true.
Proof. by vm_compute. Qed.

Lemma builtin_entry_kept (name : pystr) (data : matrix) (description : pystr) :
  builtin_entry_ok (name, (data, description)) = true →
  kept_pattern (length data) (length (hd [] data)) data ∧
  no_dead_border data = true ∧
  Forall (λ c, c ≠ LF) name ∧ py_strip name = name ∧
  py_join (lit " ") (py_split description) = description.
Proof.
  unfold builtin_entry_ok. rewrite !andb_true_iff, !pystr_eqb_eq.
  intros (((((((Hne & Hne') & Hrect) & Hbin) & Hborder) & Hlf) & Hn) & Hd).
  assert (Hk : kept_pattern (length data) (length (hd [] data)) data).
  { refine (conj (conj eq_refl _) (conj _ (conj _ (conj _ (or_introl Hborder))))).
    - apply forallb_Forall in Hrect. eapply Forall_impl; [apply Hrect|].
      intros r Hr. simpl in Hr. unfold len, ncols in Hr. lia.
    - destruct data; [done|simpl; lia].
    - destruct data as [|r data]; [done|]. destruct r; [done|simpl; lia].
    - apply forallb_Forall in Hbin. eapply Forall_impl; [apply Hbin|].
      intros r Hr. simpl in Hr. apply forallb_Forall in Hr.
      eapply Forall_impl; [apply Hr|]. intros v Hv. simpl in Hv.
      apply orb_true_iff in Hv. lia. }
  split; [done|]. split; [done|]. split; [|done].
  apply forallb_Forall in Hlf. eapply Forall_impl; [apply Hlf|].
  intros c Hc. simpl in Hc. apply negb_true_iff in Hc.
  by apply Ascii.eqb_neq.
Qed.

(** X18: the table of built-in patterns.  [get_builtin] answers [None]
    exactly for the names that [list_builtin] does not list.  For a
    listed name it returns a pattern of that name whose width and height
    are those of its data, whose data is a rectangular array of cells 0
    and 1 with a live cell on each of its four border lines, and which
    the RLE codec writes and reads back unchanged, data, name and
    description. *)
Theorem get_builtin_returns_a_kept_pattern (name : pystr) :
  match get_builtin name with
  | None => name ∉ list_builtin
  | Some p =>
      name ∈ list_builtin ∧ pat_name p = name ∧
      pat_width p = ncols (pat_data p) ∧ pat_height p = nrows (pat_data p) ∧
      kept_pattern (Z.to_nat (pat_height p)) (Z.to_nat (pat_width p))
        (pat_data p) ∧
      no_dead_border (pat_data p) = true ∧
      parse_rle (to_rle (pat_data p) (pat_name p) (pat_author p)
                   (pat_description p))
      = Ok (pat_data p,
            {| meta_name := pat_name p; meta_author := pat_author p;
               meta_description := pat_description p |})
  end.
Proof.
  unfold get_builtin.
  destruct (dict_get BUILTIN_PATTERNS name) as [[data description]|] eqn:E.
  - apply dict_get_Some in E as Hin.
    pose proof builtin_table_ok as Hok. apply forallb_Forall in Hok.
    rewrite Forall_forall in Hok. specialize (Hok _ Hin).
    apply builtin_entry_kept in Hok as (Hk & Hb & Hlf & Hn & Hd).
    cbn [pat_name pat_data pat_width pat_height pat_author pat_description].
    unfold nrows, ncols. rewrite !Nat2Z.id.
    split; [|split; [done|split; [done|split; [done|split; [done|split; [done|]]]]]].
    + unfold list_builtin. apply list_elem_of_fmap.
      by exists (name, (data, description)).
    + rewrite (kept_round_trip _ _ _ name [] description Hk Hlf) by done.
      by rewrite Hn, Hd.
  - by apply dict_get_None.
Qed.

(** ** The lines of the body *)

Lemma wrap_fold_exact (s : pystr) (lines : list pystr) (cur : pystr) :
  Forall (λ l, len l = 70) lines → len cur < 70 →
  let st := foldl wrap_step (lines, cur) s in
  Forall (λ l, len l = 70) st.1 ∧ len st.2 < 70.
Proof.
  revert lines cur. induction s as [|c s IH]; intros lines cur Hl Hc; simpl.
  - done.
  - assert (wrap_step (lines, cur) c =
            if 70 <=? len (cur ++ [c]) then (lines ++ [cur ++ [c]], [])
            else (lines, cur ++ [c])) as -> by done.
    destruct (70 <=? len (cur ++ [c])) eqn:E; bool_to_prop.
    + rewrite len_app in E. change (len [c]) with 1 in E.
      apply IH; [|done]. apply Forall_app. split; [done|].
      constructor; [|done]. rewrite len_app. change (len [c]) with 1. lia.
    + by apply IH.
Qed.

(** X19: the body is cut every 70 characters.  The lines that [to_rle]
    makes of a body are its consecutive pieces of exactly 70 characters,
    followed, when characters remain, by one shorter line with the rest;
    nothing is lost, added or reordered. *)
Theorem body_is_cut_every_70_characters (pattern_str : pystr) :
  ∃ full rest,
    wrap_body pattern_str = full ++ (if is_empty rest then [] else [rest]) ∧
    Forall (λ l, len l = 70) full ∧ len rest < 70 ∧
    concat full ++ rest = pattern_str ∧
    len pattern_str = 70 * len full + len rest.
Proof.
  destruct (wrap_fold_exact pattern_str [] []) as [Hfull Hrest]; [done..|].
  destruct (wrap_body_spec pattern_str) as [_ Hcat].
  unfold wrap_body in *.
  destruct (foldl wrap_step ([], []) pattern_str) as [full rest].
  simpl in *. exists full, rest.
  split; [destruct rest; simpl; by rewrite ?app_nil_r|].
  split; [done|]. split; [done|].
  assert (Hc : concat full ++ rest = pattern_str).
  { destruct rest; simpl in *.
    - by rewrite app_nil_r in *.
    - rewrite concat_app in Hcat. simpl in Hcat.
      by rewrite app_nil_r in Hcat. }
  split; [done|]. rewrite <- Hc, len_app. f_equal.
  clear -Hfull. induction Hfull as [|l full Hl _ IH]; [done|].
  simpl. rewrite len_app, IH, Hl. unfold len. simpl. lia.
Qed.

(** ** The end of the body *)

(** X20: the decoding loop of [parse_rle] stops at the first '!': whatever
    follows it in the text, cells or garbage, changes nothing to the
    result, a raised error included. *)
Theorem decode_stops_at_the_closing_mark (width height : Z)
    (body rest : pystr) (st : rle_state) :
  Forall (λ c, c ≠ "!"%char) body →
  decode width height (body ++ "!"%char :: rest) st
  = decode width height (body ++ ["!"%char]) st.
Proof.
  intros Hb. revert st. induction Hb as [|c body Hc Hb IH]; intros st.
  - done.
  - simpl. destruct (py_isdigit c); [apply IH|].
    destruct (Ascii.eqb c "b").
    { destruct (pending_count (run_count st)); [|done]. simpl. apply IH. }
    destruct (Ascii.eqb c "o").
    { destruct (pending_count (run_count st)); [|done]. simpl.
      destruct (mark_run _ _ _ _ _ _) as [[x data]|]; [|done]. simpl.
      apply IH. }
    destruct (Ascii.eqb c "$").
    { destruct (pending_count (run_count st)); [|done]. simpl. apply IH. }
    destruct (Ascii.eqb c "!") eqn:E; [|apply IH].
    by apply Ascii.eqb_eq in E.
Qed.

Lemma decode_stops_at_the_closing_mark_witness :
  decode 3 1 (lit "bo" ++ "!"%char :: lit "3o$3o")
    {| cur_x := 0; cur_y := 0; run_count := []; canvas := [[0; 0; 0]] |}
  = decode 3 1 (lit "bo" ++ ["!"%char])
      {| cur_x := 0; cur_y := 0; run_count := []; canvas := [[0; 0; 0]] |}.
Proof.
  apply (decode_stops_at_the_closing_mark 3 1 (lit "bo") (lit "3o$3o")).
  by repeat constructor.
Defined.

(** ** The cursor of the editor *)

(** X21: [move_cursor_cells] keeps the cursor on a grid of positive
    dimensions, whatever the step: with [wrap] the cursor cell moves by
    [(dx, dy)] modulo the dimensions, without it the move is clamped to
    the first and last column and row; a move that stays on the grid is
    made as asked in both cases. *)
Theorem move_cursor_cells_stays_on_the_grid (grid_width grid_height : Z)
    (cell_x cell_y dx dy : Z) (wrap : bool) :
  0 < grid_width → 0 < grid_height →
  ∃ x y,
    move_cursor_cells grid_width grid_height cell_x cell_y dx dy wrap
    = Ok (x, y) ∧
    0 ≤ x < grid_width ∧ 0 ≤ y < grid_height ∧
    (0 ≤ cell_x + dx < grid_width → x = cell_x + dx) ∧
    (0 ≤ cell_y + dy < grid_height → y = cell_y + dy) ∧
    (wrap = true →
       x = (cell_x + dx) mod grid_width ∧ y = (cell_y + dy) mod grid_height) ∧
    (wrap = false →
       (cell_x + dx < 0 → x = 0) ∧
       (grid_width ≤ cell_x + dx → x = grid_width - 1) ∧
       (cell_y + dy < 0 → y = 0) ∧
       (grid_height ≤ cell_y + dy → y = grid_height - 1)).
Proof.
  intros Hw Hh. unfold move_cursor_cells, py_mod.
  destruct wrap.
  - replace (grid_width =? 0) with false by lia.
    replace (grid_height =? 0) with false by lia. simpl.
    eexists _, _. split; [done|].
    pose proof (Z.mod_pos_bound (cell_x + dx) grid_width Hw).
    pose proof (Z.mod_pos_bound (cell_y + dy) grid_height Hh).
    split_and!; try done; try lia.
    + intros Hin. by rewrite Z.mod_small.
    + intros Hin. by rewrite Z.mod_small.
  - eexists _, _. split; [done|]. split_and!; try done; lia.
Qed.

Lemma move_cursor_cells_stays_on_the_grid_witness :
  move_cursor_cells 3 2 0 0 (-1) 5 true = Ok (2, 1).
Proof.
  destruct (move_cursor_cells_stays_on_the_grid 3 2 0 0 (-1) 5 true)
    as (x & y & -> & _ & _ & _ & _ & Hwrap & _); [lia..|].
  destruct (Hwrap eq_refl) as [-> ->]. done.
Defined.

(** ** The wrap mode of the menu *)

(** X22: the wrap mode entry of the menu.  One call turns a toroidal
    grid into a grid that is not, and any other grid into a toroidal one.
    After two calls the cells, the dimensions and the generation are
    those of the grid one started from, and so is what [get_cell],
    [count_neighbors] and [get_region] return; the grid itself is the
    same when its mode was 'toroidal' or 'bounded', while any other mode
    string has become 'bounded'. *)
Theorem toggle_wrap_mode_twice (g : Grid) :
  let g1 := toggle_wrap_mode g in
  let g2 := toggle_wrap_mode g1 in
  is_toroidal g1 = negb (is_toroidal g) ∧
  is_toroidal g2 = is_toroidal g ∧
  cells g2 = cells g ∧ width g2 = width g ∧ height g2 = height g ∧
  generation g2 = generation g ∧
  (∀ x y, get_cell g2 x y = get_cell g x y) ∧
  count_neighbors g2 = count_neighbors g ∧
  (∀ x y w h, get_region g2 x y w h = get_region g x y w h) ∧
  (wrap_mode g = "toroidal"%string ∨ wrap_mode g = "bounded"%string →
   g2 = g) ∧
  (wrap_mode g ≠ "toroidal"%string → wrap_mode g2 = "bounded"%string).
Proof.
  intros g1 g2. unfold g2, g1, toggle_wrap_mode.
  destruct (is_toroidal g) eqn:Et.
  - rewrite is_toroidal_with_wrap_mode. simpl.
    rewrite is_toroidal_with_wrap_mode. simpl.
    apply is_toroidal_true in Et as Em.
    assert (with_wrap_mode (with_wrap_mode g "bounded") "toroidal" = g) as ->.
    { destruct g. simpl in *. by subst. }
    by split_and!.
  - rewrite is_toroidal_with_wrap_mode. simpl.
    rewrite is_toroidal_with_wrap_mode. simpl.
    set (g' := with_wrap_mode (with_wrap_mode g "toroidal") "bounded").
    assert (Et' : is_toroidal g' = false) by done.
    split_and!; try done.
    + intros x y. unfold get_cell, normalise. by rewrite Et, Et'.
    + unfold count_neighbors. by rewrite Et, Et'.
    + intros x y w h. unfold get_region. by rewrite Et, Et'.
    + intros [Hm|Hm].
      * apply is_toroidal_true in Hm. congruence.
      * unfold g'. destruct g. simpl in *. by subst.
Qed.

(** ** A viewport off the grid *)

(** X23: [get_region] off the grid.  In a mode other than toroidal, for
    a viewport of non-negative size that ends before the first column
    ([x + w < 0]) while [width + x + w] is at least 2, the slice
    assignment has a source of [width + x + w] columns for a target
    without columns, and the call raises [ValueError]: only the lower
    bounds are clamped, and the negative upper bound of the source slice
    counts from the end of the axis. *)
Theorem get_region_raises_left_of_the_grid (g : Grid) (x y w h : Z) :
  grid_shape g → wrap_mode g ≠ "toroidal"%string →
  0 ≤ w → 0 ≤ h →
  x + w < 0 → 2 ≤ width g + (x + w) →
  get_region g x y w h = Raise ValueError.
Proof.
  intros Hg Hm%is_toroidal_false Hw Hh Hleft Hover.
  unfold get_region. rewrite Hm.
  rewrite np_zeros_nonneg by done. rewrite bind_Ok. cbv zeta.
  rewrite (grid_shape_ncols g Hg).
  unfold np_broadcast.
  replace (Z.max 0 (py_slice_bound (width g) (Z.min (width g) (x + w))
                    - py_slice_bound (width g) (Z.max 0 x)))
    with (width g + (x + w)) by (unfold py_slice_bound;
      replace (Z.min (width g) (x + w) <? 0) with true by lia;
      replace (Z.max 0 x <? 0) with false by lia; lia).
  replace (Z.max 0
             (py_slice_bound w
                (Z.max 0 x - x + (Z.min (width g) (x + w) - Z.max 0 x))
              - py_slice_bound w (Z.max 0 x - x)))
    with 0 by (unfold py_slice_bound;
      replace (Z.max 0 x - x + (Z.min (width g) (x + w) - Z.max 0 x) <? 0)
        with false by lia;
      replace (Z.max 0 x - x <? 0) with false by lia; lia).
  replace (width g + (x + w) =? 0) with false by lia.
  by replace (width g + (x + w) =? 1) with false by lia.
Qed.

Lemma get_region_raises_left_of_the_grid_witness :
  get_region demo_box (-3) 0 2 2 = Raise ValueError.
Proof.
  apply get_region_raises_left_of_the_grid.
  - apply demo_box_shape.
  - done.
  - lia.
  - lia.
  - lia.
  - simpl. lia.
Defined.
